(* ===== verification/_CoqProject ===== *)
-Q . S2P
Prelude.v
SoyutNetClass.v
Observer.v
ObserverOutput.v
Registry.v
Net.v
Ownership.v
Observed.v
PTRegistry.v
Graphviz.v
Scheduler.v
PetriNet.v
Scenarios.v
Tracking.v
