(* ===== verification/Prelude.v ===== *)
(** * A verification development for SoyutNet, a PT-net simulator on asyncio

    SoyutNet (repository dmrokan/soyutnet) executes Place/Transition nets:
    tokens move from places through transitions to places along weighted
    arcs, every place and transition runs its own asyncio loop, and
    observers record token counts for tests.  The repository's sources
    under [src/] are [soyutnet/__init__.py] (the entry point [main],
    [terminate] and the [SoyutNet] factory), [soyutnet/registry.py]
    ([Registry], [TokenRegistry], [PTRegistry]), [soyutnet/observer.py]
    ([Observer], [ComparativeObserver]) and two test drivers under
    [tests/].  The modules [place.py], [transition.py], [token.py],
    [pt_common.py] and [constants.py] are imported but are not under
    [src/]: they are modelled from the specification and marked as such
    in the manifest.

    ** Files, in dependency order

    - [Prelude] (this file): the Python data the components share: the
      constants of [constants.py], as the class [Constants].  A
      Python [dict] whose iteration order is observable (the registry
      directory, the observer's token counters, the comparative
      observer's expected columns) is an association list with
      insertion-order semantics ([dict_get], [dict_set]); Python slicing
      and tuple indexing with negative indices ([py_slice_from],
      [py_index]); Python values compared by the comparative observer
      ([value]); exceptions ([exn]); and the outcome of one asyncio task
      step ([outcome]: it completes, raises, or stays suspended on an
      [await] that cannot complete), with a small state monad [aio] and
      its notation [let* x := m in k] in [aio_scope], and the two ways a
      step relates the states before and after ([preserves R m] for a
      preorder [R], e.g. [inv_rel P] for an invariant [P];
      [never_raises m]); [str.join] of strings ([str_concat]).  The hint
      database [soyut] and the rewrite database [soyut_rw] collect the
      lemmas of these helpers.
    - [SoyutNetClass]: the [SoyutNet] object of [__init__.py]: its flags,
      [LOOP_DELAY] (an [int] or a [float], [py_num]), [get_loop_name] in
      the asyncio context it is called from ([loop_ctx]), and the lines
      [DEBUG], [DEBUG_V], [ERROR] and [ERROR_V] write on the standard
      output and error ([output]).
    - [Observer]: [observer.py].  The state of an observer is the record
      [observer]; its [asyncio.Lock] is the boolean field [o_locked].
      [with_lock] models [async with self._lock] (a free lock is
      taken without suspending; a held lock suspends the task), and every
      method ([_clean_records], [_add_record], [_save], [save],
      [get_records], [inc_token_count], and [ComparativeObserver._save])
      is one definition in the [aio] monad.  [observer_ok] is the type of
      an observer's state (bounds, a counter dict, records of
      [ObserverRecordType]); every sequence of calls keeps it.
    - [ObserverOutput]: what an observer prints ([REC:] lines, the
      match lines of a comparison, [_display_records], ["comparison
      ends"]) through its [SoyutNet]: [save_output] is the list of lines
      one [save] writes, built from [str()] of the record (the Python
      [repr] of its tuple; the [repr] of a float is a parameter).
    - [Registry]: [registry.py].  [Registry] is generic in the type of
      the registered objects, which must provide [get_label] (the class
      [Labelled]); [TokenRegistry] and [PTRegistry] are its two users.
    - [Net]: the token queues of places, arcs, [connect], [tryTake],
      [put], and the firing of a transition with its rollback, modelled
      from the specification (the code is not under [src/]).  The net
      is a store of actors indexed by [nat]: an object that Python code
      shares by reference (a place held by the registry, by arcs and by
      the test driver) is one index of the store, so a mutation through
      one holder is seen by all.  A place may carry its [observer].
      [run_turns] is the loop of one transition when no other actor
      moves.
    - [PTRegistry]: [PTRegistry] of [registry.py].  Its entries are store
      indices; [register] runs the generic [Registry.register] and then
      its callback on the actor in the store (the id, and the default
      name [p<id>] or [t<id>] when the name is empty); [get_loops] and
      [get_merged_records] read the directory in its order.
    - [Ownership]: not code but the ownership rule of section 3 of the
      specification: the tokens of a net as a multiset ([all_tokens]),
      the relation [moves] (tokens kept up to a dropped part, plus a
      batch minted with fresh ids) that every operation satisfies, and
      the invariant [tokens_owned] (minted ids distinct and bounded by
      the token registry's counter).
    - [Graphviz]: the export of [PTRegistry]
      ([_get_graphviz_node_definition], [generate_graph]), with
      [str.format] on ["{}"] fields ([py_format]); the rendering of an
      arc ([Arc.get_graphviz_definition], not under [src/]) is a
      parameter.
    - [Scheduler]: [__init__.py].  A [world] is the net, the state of the
      driver's callbacks, the asyncio tasks of the actor loops, the
      state of [main] and the event loop's clock.  [main] creates one task per loop of
      [get_loops] and returns at once when there is none; [terminate]
      ([_cancel_all_tasks]) cancels every task, [main] included, and
      the cancelled tasks release the observer locks they held
      ([release_locks]); [int_handler] is [_int_handler] and
      [add_int_handlers] the table [_add_int_handlers] installs; [settle] is
      [gather] handing the first exception to [main].  One turn of an
      actor ([actor_turn]: a transition's [observed_turn] with its
      observer calls, a [SpecialPlace]'s producer and consumer) is
      atomic, as the specification requires; a turn that finds an
      observer's lock held leaves its task suspended.  [sched_step] is
      every interleaving of turns, [terminate()], the signals that have
      a handler, wake-ups and clock ticks; [round]/[run_rounds]
      is the order asyncio runs the tasks, used for the run of
      [tests/n_tester.py].
    - [PetriNet]: the abstract contract, the firing rule of a
      place/transition net on markings ([pt_step]), with the
      [SpecialPlace]s as the boundary that gains or loses tokens; the
      refinement theorem [reachable_marking] says every marking a run
      reaches is reachable in that net.
    - [Observed]: the calls a transition turn makes on the observers of
      its places, as the docstrings of [observer.py] name them ([save]
      "is called by output transitions when they are enabled",
      [inc_token_count] "is called by places when a new token [is]
      acquired or sent"; the callers are not under [src/]).
      [observed_turn] asks the observer of each input place to save,
      then runs [transition_turn], then reports each place's change of
      count; [observed_turns] is the transition's loop with the clock.
      [same_marking] (same structure and token counts) is an
      equivalence with [Proper] instances for [count_at] and [shape];
      [erase] forgets the observers, and [obs_rel R] lifts a relation
      on observers to nets, the tool for the invariants of the
      observers in a run (a lock left held, records in time order);
      [release_locks] is what a cancellation does to the observers.
    - [Scenarios]: the nets of the specification's scenarios and of
      [tests/n_tester.py], executed in the model, and the whole asyncio
      run of [tests/n_tester.py] with its consumer calling
      [terminate()] and the observer [o1] of [p1] saving a record at
      every turn of [t1]; and the witnesses of the theorems that have hypotheses.
    - [Tracking]: the counters of the observers in a whole run.  The
      invariant [tracks_with pend n] says that every observer's
      counter of a label plus the change not yet reported ([pend]) is
      its place's count; a firing leaves [pend] equal to what
      [firing_incs] reports, [inc_all] reports it, [save] changes no
      counter, and a [SpecialPlace] reports its produced and consumed
      tokens.  With every observer unlocked and no record limit on a
      plain observer, no turn suspends, so no task is ever left
      blocked, and the invariant holds in every world reachable from
      [main] ([reachable_observers_track]).

    ** What the theorems show

    See the doc comment of each theorem; the manifest lists the claims in
    order of importance.  In short: the observer's bookkeeping is exact
    ([inc_token_count], [save] with no record limit), its trimming keeps
    the record list below the upper hysteresis bound, the comparative
    observer fails on the first diverging record and reports the end of
    the comparison one record after the last expected value, and [save]
    with a positive [record_limit] deadlocks on the non-reentrant lock,
    which in a run stalls for good the transition whose turn saved
    (its task is never woken up, only cancelled) and every later call
    on that observer, while no lock is ever held without a suspended
    task holding it ([reachable_locks_held_by_suspended]);
    every sequence of observer calls keeps the observer's state well
    typed, and in every run each observer's records stay in time order,
    none later than the clock; the registry hands out strictly increasing, never reused ids,
    and looking up the id [register] returned gives the registered
    object back while every other lookup is unchanged; the
    PT registry numbers the places and transitions in registration
    order, gives distinct default names, yields one loop per actor, and
    merges the observers' records in registry order; the export writes
    one line per actor and per input arc and depends only on the
    topology, while the default name of an unnamed actor may be the
    name a user gave another one, and both then get the same node; a place hands out the tokens of a
    label first in, first out ([run_queue_fifo]); firing a transition is
    all-or-nothing and moves
    exactly the arc weights; a transition whose firing drains some
    place fires at most as many times as that place holds tokens; in
    every reachable world of every
    interleaving tokens are never copied and minted ids stay distinct,
    and the markings follow the firing rule of the PT net;
    [terminate()] cancels exactly the pending and suspended tasks,
    releases the locks and ends [main], after which no task takes a
    turn, and a second call changes nothing; the first exception of a
    loop ends [main];
    the run of [tests/n_tester.py] ends after exactly [n + 1]
    rounds for every [n >= 2], by then its comparative observer [o1]
    has seen exactly the expected counts [2n, ..., n] and never raised,
    and the driver returns the graph of its net as built (no turn
    changes the kinds, names or arcs of the actors); an observer
    prints only to the standard output and only with
    [DEBUG_ENABLED] set, one match line per compared column; a
    [SpecialPlace] reports the token its producer puts to its observer,
    and its turn suspends for good when that observer's lock is held;
    when the observers start unlocked, with no record limit on a plain
    observer, and with the counts of their places, then in every run
    no loop suspends and each observer's counters stay equal to its
    place's counts, so the
    reports of places, transitions and [SpecialPlace]s are exact.

    ** Bounds and fuel

    No definition needs fuel: every recursion is structural.  The
    asyncio run is [run_rounds fuel]: a number of rounds of the event
    loop, and the liveness theorem of [tests/n_tester.py] names the
    exact number of rounds ([n + 1]) after which [main] has ended.
    Rounds are a faithful schedule because [asyncio.sleep] re-queues
    each task at the tail of the FIFO ready queue; after a task raises,
    asyncio takes a few more iterations before [main] wakes up, during
    which later tasks may run: [round] lets the rest of the round run,
    and [sched_step] allows any number of such turns.
    The hysteresis bounds are checked by evaluation ([Z_forall_range])
    for every record limit below [2^16]: limits in the drivers and
    tests are at most a few thousand, and the check takes seconds,
    where [2^20] would take minutes.

    ** Modelling choices

    - Integers of Python ([id_t], counts, weights) are [Z]; list lengths
      are [nat].
    - The constants of [constants.py] ([GENERIC_LABEL], [GENERIC_ID],
      [INITIAL_ID], [INVALID_ID]) are not under [src/] and the
      specification gives no values: they are the fields of the class
      [Constants], and every definition and theorem is generic in them
      (a [Section] with [Context `{CS : Constants}] per file).  The
      scenarios of the specification and the witnesses run with the
      values of [example_constants]; the theorems about
      [tests/n_tester.py] hold for every value.
    - A Python [float] is the kernel's primitive binary64 [float]:
      [float(int)] is [py_float_of_int] (round to nearest, ties to
      even, [OverflowError] past the largest double), [int(float)] is
      [py_int] (truncation, [OverflowError] on an infinity,
      [ValueError] on a NaN), and [==] between an [int] and a [float]
      compares exact values ([py_eqb]).  Time stamps are ordered by
      their exact rational values ([time_le]), which is transitive.
    - The clock [net.time()] ([loop.time()], a float) is the field
      [w_time] of the scheduler's world, read by [Scheduler.time] at
      each turn and passed to [save] through the observed turn: it is only copied into the record.  The
      environment may advance it between any two steps ([step_tick]);
      [round] does not, so the records of a run by rounds all carry
      the start time, taken as [0]; the loop of a transition runs at a
      list of clock values ([observed_turns]).
    - [int(record_limit * 0.91)] and [int(record_limit * 1.1)] are
      computed as Python does, in binary64 ([hysteresis_bounds]); they
      are [record_limit * 91 // 100] and [record_limit * 11 // 10] for
      every limit below [2^16] ([hysteresis_bounds_exact]), and differ
      from them for some much larger limits.
    - Debug printing ([DEBUG], [DEBUG_V], [ERROR], [ERROR_V]) is
      modelled by the lines it writes ([SoyutNetClass]), and so is the
      printing of the observers ([ObserverOutput]), as a function of
      the call apart from its effect on the observer's state.  Python's
      [repr] of a float (the shortest decimal that reads back as the
      same double) is a parameter of the printing; [repr] of ints,
      strings and tuples is written out.
    - Callbacks given by the user (producers, consumers,
      [on_comparison_ends]) are external: the model reports that they are
      called and lets their result be an arbitrary input.

    ** Not modelled

    The [SoyutNet] factory wrappers only add [net=self] to a
    constructor call: the model's constructors take no [net], the
    [SoyutNet] an observer prints through being the parameter of its
    printing ([ObserverOutput]); [sleep()] is the end of a turn in the
    scheduler; none of them holds state.  [LOOP_DELAY] is modelled but the
    scheduler does not use it: a delay only postpones the next round.
    The observer calls of a transition turn are modelled ([Observed])
    and the scheduler runs them; a task that finds an observer's lock
    held stays suspended ([TaskBlocked]), and so does a [SpecialPlace]
    turn whose report of a produced or consumed token finds its
    observer's lock held; when the tasks are cancelled, the locks are
    released at once, where asyncio releases each one when the
    cancelled task next runs: no task takes a turn in between.  The
    [DEBUG_V("Registered: ...")] line of the callback of
    [PTRegistry.register] is not modelled: it only prints.  The second
    test driver is not modelled: it imports modules that are not under
    [src/], and its calls of [ComparativeObserver] lack the required
    [expected] argument ([comparative_observer_call] is that
    signature), so it raises [TypeError] before it builds a net.
*)

From Stdlib Require Export ZArith Lia Floats.
From Stdlib Require Import QArith.
From stdpp Require Export base list strings decidable.

Create HintDb soyut.
Create Rewrite HintDb soyut_rw.

(** ** Identifiers and labels ([constants.py], not under [src/]) *)

Abbreviation label := Z (only parsing).
Abbreviation id_t := Z (only parsing).

(** The four constants the sources import from [constants.py]:
    [GENERIC_LABEL] (the label of untyped tokens), [GENERIC_ID] (the id
    of a token not registered yet), [INITIAL_ID] (the first value of a
    registry's id counter) and [INVALID_ID] (the id [get_first_entry]
    returns when there is no entry).  Neither the sources nor the
    specification give their values, so every definition and theorem of
    the development is generic in them, as a class. *)
Class Constants := {
  GENERIC_LABEL : Z;
  GENERIC_ID : Z;
  INITIAL_ID : Z;
  INVALID_ID : Z
}.

(** Values to run the examples and the witnesses with; no theorem
    depends on them. *)
Definition example_constants : Constants :=
  {| GENERIC_LABEL := 0; GENERIC_ID := 0; INITIAL_ID := 0; INVALID_ID := -1 |}.

(** ** Strings *)

Section Strings.
Local Open Scope string_scope.

(** [str.join] with the empty separator. *)
Definition str_concat (ss : list string) : string := foldr String.append EmptyString ss.

Lemma str_app_assoc s1 s2 s3 : (s1 ++ s2) ++ s3 = s1 ++ (s2 ++ s3).
Proof. induction s1 as [|c s1 IH]; [done|]. exact (f_equal (String c) IH). Qed.

Lemma str_app_nil_r s : s ++ EmptyString = s.
Proof. induction s as [|c s IH]; [done|]. exact (f_equal (String c) IH). Qed.

Lemma str_concat_app ss1 ss2 : str_concat (ss1 ++ ss2) = str_concat ss1 ++ str_concat ss2.
Proof.
  unfold str_concat. induction ss1 as [|s ss1 IH]; simpl; [done|].
  rewrite IH. symmetry. apply str_app_assoc.
Qed.
End Strings.

(** ** Python dictionaries with insertion order *)

Section Dict.
Context {K V : Type} `{EqDecision K}.

Fixpoint dict_get (k : K) (d : list (K * V)) : option V :=
  match d with
  | [] => None
  | (k', v) :: d' => if decide (k = k') then Some v else dict_get k d'
  end.

Definition dict_mem (k : K) (d : list (K * V)) : bool :=
  match dict_get k d with Some _ => true | None => false end.

(** [d[k] = v]: an existing key keeps its position, a new key is
    appended at the end. *)
Fixpoint dict_set (k : K) (v : V) (d : list (K * V)) : list (K * V) :=
  match d with
  | [] => [(k, v)]
  | (k', v') :: d' =>
      if decide (k = k') then (k, v) :: d' else (k', v') :: dict_set k v d'
  end.

Definition dict_keys (d : list (K * V)) : list K := map fst d.

Lemma dict_get_set_eq k v d : dict_get k (dict_set k v d) = Some v.
Proof.
  induction d as [|[k' v'] d IH]; simpl; [by rewrite decide_True|].
  case_decide; simpl; [by rewrite decide_True|].
  by rewrite decide_False.
Qed.

Lemma dict_get_set_ne k k' v d :
  k <> k' -> dict_get k' (dict_set k v d) = dict_get k' d.
Proof.
  intros Hne. induction d as [|[k0 v0] d IH]; simpl.
  - by rewrite decide_False.
  - case_decide; subst; simpl.
    + by rewrite !decide_False.
    + by case_decide.
Qed.

Lemma dict_keys_set_mem k v d :
  dict_mem k d = true -> dict_keys (dict_set k v d) = dict_keys d.
Proof.
  unfold dict_mem. induction d as [|[k' v'] d IH]; simpl; [done|].
  case_decide; subst; simpl; [done|]. intros Hm. by rewrite IH.
Qed.

Lemma dict_keys_set_new k v d :
  dict_get k d = None -> dict_keys (dict_set k v d) = dict_keys d ++ [k].
Proof.
  induction d as [|[k' v'] d IH]; simpl; [done|].
  case_decide; [done|]. intros Hn. simpl. by rewrite IH.
Qed.

Lemma dict_get_in_keys k d : is_Some (dict_get k d) <-> k ∈ dict_keys d.
Proof.
  induction d as [|[k' v'] d IH]; simpl.
  - split; [by intros []|]. intros Hin. by apply elem_of_nil in Hin.
  - rewrite elem_of_cons. case_decide; subst; [naive_solver|].
    rewrite IH. naive_solver.
Qed.

Lemma dict_set_NoDup k v d :
  NoDup (dict_keys d) -> NoDup (dict_keys (dict_set k v d)).
Proof.
  destruct (dict_get k d) eqn:E.
  - rewrite dict_keys_set_mem; [done|]. unfold dict_mem. by rewrite E.
  - rewrite dict_keys_set_new by done. intros Hnd.
    apply list.NoDup_app. split; [done|]. split; [|apply NoDup_singleton].
    intros x Hx Hin. apply list_elem_of_singleton in Hin. subst.
    apply dict_get_in_keys in Hx. rewrite E in Hx. by destruct Hx.
Qed.
Lemma dict_set_same k v d : dict_get k d = Some v -> dict_set k v d = d.
Proof.
  induction d as [|[k' v'] d IH]; simpl; [done|].
  case_decide; subst; [by intros [= ->]|]. intros Hg. by rewrite IH.
Qed.

Lemma dict_set_set k v v' d : dict_set k v (dict_set k v' d) = dict_set k v d.
Proof.
  induction d as [|[k' v0] d IH]; simpl; [by rewrite decide_True|].
  case_decide; simpl; [by rewrite decide_True|]. rewrite decide_False by done.
  by rewrite IH.
Qed.

Lemma dict_set_new k v d : dict_get k d = None -> dict_set k v d = d ++ [(k, v)].
Proof.
  induction d as [|[k' v'] d IH]; simpl; [done|].
  case_decide; [done|]. intros Hn. by rewrite IH.
Qed.
End Dict.

(** A filter that keeps no element of the list. *)
Lemma filter_none {A} (P : A -> Prop) `{!forall x, Decision (P x)} (l : list A) :
  (forall x, x ∈ l -> ~ P x) -> filter P l = [].
Proof.
  induction l as [|x l IH]; intros Hn; [done|].
  rewrite filter_cons_False by (apply Hn, elem_of_cons; by left).
  apply IH. intros y Hy. apply Hn, elem_of_cons. by right.
Qed.

(** The values of a key are among the concatenated values of the dict. *)
Lemma dict_get_concat {K A} `{EqDecision K} (k : K) (es : list A) (d : list (K * list A)) :
  dict_get k d = Some es -> forall x, x ∈ es -> x ∈ concat (map snd d).
Proof.
  induction d as [|[k' v'] d IH]; simpl; [done|].
  case_decide; [intros [= ->] x Hx; apply elem_of_app; by left|].
  intros Hg x Hx. apply elem_of_app. right. exact (IH Hg x Hx).
Qed.


(** Appending [x] to the list stored under [k] adds [x] to the
    concatenation of all the lists, up to order. *)
Lemma dict_concat_append {K X} `{EqDecision K} (k : K) (x : X)
    (d : list (K * list X)) (v0 : list X) :
  dict_get k d = Some v0 ->
  concat (map snd (dict_set k (v0 ++ [x]) d)) ≡ₚ x :: concat (map snd d).
Proof.
  induction d as [|[k' v'] d IH]; simpl; [done|].
  case_decide; simpl.
  - intros [= <-]. rewrite <- app_assoc. simpl. by rewrite Permutation_middle.
  - intros Hg. rewrite (IH Hg). by rewrite Permutation_middle.
Qed.

(** Replacing the list stored under [k] by [v] replaces its old
    contents by [v] in the concatenation of all the lists, up to order. *)
Lemma dict_concat_set {K X} `{EqDecision K} (k : K) (v : list X) (d : list (K * list X)) :
  concat (map snd (dict_set k v d)) ++ default [] (dict_get k d) ≡ₚ v ++ concat (map snd d).
Proof.
  induction d as [|[k' v'] d IH]; simpl; [by rewrite !app_nil_r|].
  case_decide; simpl.
  - subst. solve_Permutation.
  - rewrite <- app_assoc, IH. solve_Permutation.
Qed.

#[export] Hint Rewrite @dict_get_set_eq : soyut_rw.

(** ** Python slices and tuple indices *)

Section PySeq.
Context {A : Type}.

(** Normalisation of a Python index against a length: a negative index
    counts from the end, and slices clamp at both ends. *)
Definition py_norm (len : nat) (i : Z) : Z :=
  if (i <? 0)%Z then (Z.of_nat len + i)%Z else i.

(** [l[start:]] *)
Definition py_slice_from (l : list A) (start : Z) : list A :=
  drop (Z.to_nat (Z.max 0 (py_norm (length l) start))) l.

(** [t[i]]; [None] is the [IndexError]. *)
Definition py_index (l : list A) (i : Z) : option A :=
  let j := py_norm (length l) i in
  if (j <? 0)%Z then None else l !! Z.to_nat j.

Lemma py_slice_from_length (l : list A) (start : Z) :
  (0 <= start <= Z.of_nat (length l))%Z ->
  length (py_slice_from l start) = (length l - Z.to_nat start)%nat.
Proof.
  intros H. unfold py_slice_from, py_norm.
  destruct (Z.ltb_spec start 0); [lia|].
  rewrite length_drop. f_equal. lia.
Qed.

Lemma py_slice_from_suffix (l : list A) (start : Z) :
  exists pre, l = pre ++ py_slice_from l start.
Proof.
  exists (take (Z.to_nat (Z.max 0 (py_norm (length l) start))) l).
  unfold py_slice_from. by rewrite take_drop.
Qed.
End PySeq.

(** ** Python floats *)

(** A Python [float] is an IEEE 754 binary64 value: the kernel's
    primitive [float], whose operations round as Python's do. *)
#[export] Instance spec_float_eq_dec : EqDecision SpecFloat.spec_float.
Proof. solve_decision. Defined.

#[export] Instance float_eq_dec : EqDecision float.
Proof.
  intros x y. destruct (decide (FloatOps.Prim2SF x = FloatOps.Prim2SF y)) as [H|H].
  - left. exact (FloatAxioms.Prim2SF_inj _ _ H).
  - right. congruence.
Defined.

(** The exact value of a finite float; [None] for an infinity or a NaN. *)
Definition float_Q (f : float) : option Q :=
  match FloatOps.Prim2SF f with
  | S754_zero _ => Some 0%Q
  | S754_finite s m e =>
      let q := if (0 <=? e)%Z then inject_Z (Z.shiftl (Zpos m) e)
               else Qmake (Zpos m) (Pos.shiftl 1 (Z.to_N (- e))) in
      Some (if s then Qopp q else q)
  | _ => None
  end.

(** The order of time stamps: both finite, the first not later. *)
Definition time_le (x y : float) : Prop :=
  match float_Q x, float_Q y with
  | Some a, Some b => (a <= b)%Q
  | _, _ => False
  end.

Lemma time_le_trans x y z : time_le x y -> time_le y z -> time_le x z.
Proof.
  unfold time_le. destruct (float_Q x), (float_Q y), (float_Q z); try done. apply Qle_trans.
Qed.

Definition time_finite (x : float) : Prop := is_Some (float_Q x).

Lemma time_le_refl x : time_finite x -> time_le x x.
Proof. unfold time_finite, time_le. intros [q ->]. apply Qle_refl. Qed.

Lemma time_le_finite_r x y : time_le x y -> time_finite y.
Proof. unfold time_le, time_finite. destruct (float_Q x), (float_Q y); naive_solver. Qed.

#[export] Instance time_le_dec : RelDecision time_le.
Proof.
  intros x y. unfold time_le, Decision.
  destruct (float_Q x) as [a|], (float_Q y) as [b|]; try (right; intros []; fail).
  destruct (Qle_bool a b) eqn:E; [left; by apply Qle_bool_iff|].
  right. intros H%Qle_bool_iff. congruence.
Defined.

(** ** Python values and exceptions *)

(** The values a record column can hold and a test can expect: numbers
    (the timestamp), strings (the requester) and tuples of
    [(label, count)] pairs (the token counts). *)
Inductive value :=
  | VNum (z : Z)
  | VFloat (f : float)
  | VStr (s : string)
  | VCounts (c : list (Z * Z)).

#[export] Instance value_eq_dec : EqDecision value.
Proof. solve_decision. Defined.

(** The exceptions of the program; [UserError] is one raised by a
    callback of the driver. *)
Inductive exn :=
  | RuntimeError (ident : string) (column : Z) (actual expected : value)
  | IndexError
  | ConfigurationError (what : string)
  | CancelledError
  | OverflowError
  | ValueError
  | TypeError (what : string)
  | UserError (what : string).

(** [a == b] of Python on the values: an [int] and a [float] are equal
    when they are the same number; floats compare as IEEE values (a NaN
    equals nothing); tuples and strings compare by content. *)
Definition py_eqb (a b : value) : bool :=
  match a, b with
  | VNum x, VNum y => Z.eqb x y
  | VFloat x, VFloat y => PrimFloat.eqb x y
  | VNum x, VFloat y | VFloat y, VNum x =>
      match float_Q y with Some q => Qeq_bool q (inject_Z x) | None => false end
  | VStr x, VStr y => String.eqb x y
  | VCounts x, VCounts y => bool_decide (x = y)
  | _, _ => false
  end.

Lemma py_eqb_counts x y : py_eqb (VCounts x) (VCounts y) = bool_decide (x = y).
Proof. reflexivity. Qed.

(** [float(i)] of an [int]: rounded to the nearest double, ties to even;
    an [int] beyond the largest double raises [OverflowError]. *)
Definition py_float_of_int (z : Z) : exn + float :=
  match SpecFloat.binary_normalize FloatOps.prec FloatOps.emax z 0 false with
  | S754_infinity _ => inl OverflowError
  | sf => inr (FloatOps.SF2Prim sf)
  end.

(** [int(f)]: the float truncated toward zero; an infinity raises
    [OverflowError] and a NaN [ValueError]. *)
Definition py_int (f : float) : exn + Z :=
  match FloatOps.Prim2SF f with
  | S754_zero _ => inr 0%Z
  | S754_finite s m e =>
      let v := if (0 <=? e)%Z then Z.shiftl (Zpos m) e else Z.shiftr (Zpos m) (- e) in
      inr (if s then (- v)%Z else v)
  | S754_infinity _ => inl OverflowError
  | S754_nan => inl ValueError
  end.

#[export] Instance exn_eq_dec : EqDecision exn.
Proof. solve_decision. Defined.

(** A boolean test on the [n] consecutive integers from [lo]. *)
Fixpoint Z_forall_range (f : Z -> bool) (lo : Z) (n : nat) : bool :=
  match n with
  | O => true
  | S n' => f lo && Z_forall_range f (lo + 1) n'
  end.

Lemma Z_forall_range_spec f lo n :
  Z_forall_range f lo n = true -> forall z, (lo <= z < lo + Z.of_nat n)%Z -> f z = true.
Proof.
  revert lo; induction n as [|n IH]; intros lo H z Hz; simpl in *; [lia|].
  apply andb_true_iff in H as [H0 H]. destruct (Z.eq_dec z lo) as [->|]; [done|].
  apply (IH (lo + 1)%Z); [done|lia].
Qed.

(** The same test checked by evaluation over a range of size [n : Z]. *)
Lemma Z_range_check (f : Z -> bool) (lo n : Z) :
  Z_forall_range f lo (Z.to_nat n) = true ->
  forall z, (lo <= z < lo + n)%Z -> f z = true.
Proof. intros H z Hz. apply (Z_forall_range_spec _ _ _ H). lia. Qed.

(** ** One asyncio task step: completes, raises, or stays suspended *)

Inductive outcome (S A : Type) :=
  | Done (a : A) (s : S)
  | Raised (e : exn) (s : S)
  | Blocked (s : S).
Arguments Done {S A}.
Arguments Raised {S A}.
Arguments Blocked {S A}.

Definition aio (S A : Type) : Type := S -> outcome S A.

Definition aret {S A} (a : A) : aio S A := fun s => Done a s.

Definition abind {S A B} (m : aio S A) (k : A -> aio S B) : aio S B :=
  fun s => match m s with
           | Done a s' => k a s'
           | Raised e s' => Raised e s'
           | Blocked s' => Blocked s'
           end.

Definition araise {S A} (e : exn) : aio S A := fun s => Raised e s.
Definition aget {S} : aio S S := fun s => Done s s.
Definition amodify {S} (f : S -> S) : aio S unit := fun s => Done tt (f s).

Declare Scope aio_scope.
Delimit Scope aio_scope with aio.
Notation "'let*' x ':=' m 'in' k" := (abind m (fun x => k))
  (at level 10, x name, m at level 100, k at level 200) : aio_scope.

(** The final state of an outcome, whatever happened. *)
Definition outcome_state {S A} (o : outcome S A) : S :=
  match o with Done _ s | Raised _ s | Blocked s => s end.

Lemma abind_Done {S A B} (m : aio S A) (k : A -> aio S B) s a s' :
  m s = Done a s' -> abind m k s = k a s'.
Proof. unfold abind. by intros ->. Qed.

Lemma abind_Blocked {S A B} (m : aio S A) (k : A -> aio S B) s s' :
  m s = Blocked s' -> abind m k s = Blocked s'.
Proof. unfold abind. by intros ->. Qed.

Lemma abind_Raised {S A B} (m : aio S A) (k : A -> aio S B) s e s' :
  m s = Raised e s' -> abind m k s = Raised e s'.
Proof. unfold abind. by intros ->. Qed.

(** A relation every step of [m] keeps between the state before and the
    state after, whatever the outcome. *)
Definition preserves {S A} (R : S -> S -> Prop) (m : aio S A) : Prop :=
  forall s, R s (outcome_state (m s)).

Lemma abind_preserves {S A B} (R : S -> S -> Prop) `{!PreOrder R} (m : aio S A) (k : A -> aio S B) :
  preserves R m -> (forall a, preserves R (k a)) -> preserves R (abind m k).
Proof.
  intros Hm Hk s. specialize (Hm s). unfold abind.
  destruct (m s) as [a s'|e s'|s']; simpl in *; try done. etrans; [exact Hm|exact (Hk a s')].
Qed.

(** [P] carried from the state before to the state after: a step
    keeps an invariant [P] when it preserves [inv_rel P]. *)
Definition inv_rel {S} (P : S -> Prop) (s s' : S) : Prop := P s -> P s'.

#[export] Instance inv_rel_preorder {S} (P : S -> Prop) : PreOrder (inv_rel P).
Proof. split; [intros s Hs; exact Hs|intros s1 s2 s3 H1 H2 H; exact (H2 (H1 H))]. Qed.

Lemma aret_preserves {S A} (R : S -> S -> Prop) `{!Reflexive R} (a : A) : preserves R (aret a).
Proof. intros s. simpl. reflexivity. Qed.

(** A relation every step of [m] that completes or raises keeps between
    the state before and the state after; a suspended step need not. *)
Definition completes {S A} (R : S -> S -> Prop) (m : aio S A) : Prop :=
  forall s, match m s with Blocked _ => True | r => R s (outcome_state r) end.

Lemma abind_completes {S A B} (R : S -> S -> Prop) `{!PreOrder R} (m : aio S A) (k : A -> aio S B) :
  completes R m -> (forall a, completes R (k a)) -> completes R (abind m k).
Proof.
  intros Hm Hk s. specialize (Hm s). unfold abind.
  destruct (m s) as [a s'|e s'|s']; simpl in *; try done.
  specialize (Hk a s'). destruct (k a s'); simpl in *; try done; by etrans.
Qed.

Lemma aret_completes {S A} (R : S -> S -> Prop) `{!Reflexive R} (a : A) : completes R (aret a).
Proof. intros s. simpl. reflexivity. Qed.

(** [m] never raises: it completes or stays suspended. *)
Definition never_raises {S A} (m : aio S A) : Prop := forall s e s', m s <> Raised e s'.

Lemma aret_never_raises {S A} (a : A) : never_raises (S := S) (aret a).
Proof. by intros s e s'. Qed.

Lemma abind_never_raises {S A B} (m : aio S A) (k : A -> aio S B) :
  never_raises m -> (forall a, never_raises (k a)) -> never_raises (abind m k).
Proof.
  intros Hm Hk s e s'. unfold abind. specialize (Hm s e).
  destruct (m s) as [a s1|e1 s1|s1]; [apply Hk|intros [= -> ->]; by apply (Hm s')|done].
Qed.

(** ** Tactics *)

(** Case on every boolean test of [Z] and [nat] in the goal. *)
Ltac case_ltb :=
  repeat match goal with
    | |- context [(?a >=? ?b)%Z] => rewrite (Z.geb_leb a b)
    | |- context [(?a >? ?b)%Z] => rewrite (Z.gtb_ltb a b)
    | |- context [(?a <? ?b)%Z] => destruct (Z.ltb_spec a b)
    | |- context [(?a <=? ?b)%Z] => destruct (Z.leb_spec a b)
    | |- context [(?a <=? ?b)%nat] => destruct (Nat.leb_spec a b)
    | |- context [(?a <? ?b)%nat] => destruct (Nat.ltb_spec a b)
    end.

(** Decide every test [x = x] of the goal and evaluate the dictionary
    operations, e.g. a lookup of [GENERIC_LABEL] in a dictionary keyed
    by [GENERIC_LABEL], whatever the value of the constant. *)
Ltac decide_refl_step :=
  match goal with
  | |- context [@decide (?x = ?x) ?D] => rewrite (@decide_True _ (x = x) D) by reflexivity
  end.

Ltac decide_refl :=
  repeat first [decide_refl_step | progress unfold dict_mem, default | progress cbn [dict_get dict_set]].
