(* ===== verification/SoyutNetClass.v ===== *)
(** * The [SoyutNet] object ([src/soyutnet/__init__.py], class [SoyutNet])

    The object every actor, observer and registry holds as its [net]:
    configuration flags, the loop delay, the clock, and the debug
    printing.  The state is the record [soyutnet]; the float
    [_LOOP_DELAY] is a binary64 [float] ([0.5] is exact) and a Python
    number is an [int] or a [float] ([py_num]).  The asyncio context a method is called from
    ([asyncio.current_task()]) is the argument [loop_ctx].  Printing is
    modelled by what it writes: [print(f"{name}:", *args)] writes one
    line, the strings separated by single spaces, on the standard output
    or the standard error; the arguments are given as the strings
    [print] makes of them ([str()] of each object). *)

From S2P Require Import Prelude.

Local Open Scope string_scope.

(** ** State *)

(** A Python number: an [int] or a [float]. *)
Inductive py_num := PyInt (z : Z) | PyFloat (f : float).

(** [SoyutNet.__init__]: [_LOOP_DELAY], [DEBUG_ENABLED],
    [VERBOSE_ENABLED], [SLOW_MOTION]. *)
Record soyutnet := mk_soyutnet {
  loop_delay_ : float;
  debug_enabled : bool;
  verbose_enabled : bool;
  slow_motion : bool
}.

Definition new_soyutnet : soyutnet := mk_soyutnet 0.5%float false false false.

(** [LOOP_DELAY]: the configured delay in slow motion, the [int] [0]
    otherwise. *)
Definition LOOP_DELAY (s : soyutnet) : py_num :=
  if slow_motion s then PyFloat (loop_delay_ s) else PyInt 0.

(** ** The asyncio context *)

(** Where a method is called from: outside a running event loop
    ([asyncio.current_task()] raises [RuntimeError]), in the loop but
    outside a task (it returns [None]), or in the task of that name. *)
Inductive loop_ctx := NoRunningLoop | NoTask | InTask (name : string).

(** [get_loop_name()] *)
Definition get_loop_name (ctx : loop_ctx) : string :=
  match ctx with
  | InTask name => name
  | NoTask | NoRunningLoop => "NO-LOOP"
  end.

(** ** Printing *)

Inductive stream := Stdout | Stderr.

(** The lines written: the stream and the text, in order. *)
Definition output := list (stream * string).

(** [print(f"{self.get_loop_name()}:", *args)]: the items joined by
    single spaces. *)
Definition loop_line (ctx : loop_ctx) (args : list string) : string :=
  foldl (fun acc a => acc ++ " " ++ a) (get_loop_name ctx ++ ":") args.

(** [DEBUG_V( *args)] *)
Definition DEBUG_V (s : soyutnet) (ctx : loop_ctx) (args : list string) : output :=
  if (debug_enabled s && verbose_enabled s)%bool then [(Stdout, loop_line ctx args)] else [].

(** [ERROR_V( *args)] *)
Definition ERROR_V (s : soyutnet) (ctx : loop_ctx) (args : list string) : output :=
  if verbose_enabled s then [(Stderr, loop_line ctx args)] else [].

(** [DEBUG( *args)] *)
Definition DEBUG (s : soyutnet) (ctx : loop_ctx) (args : list string) : output :=
  if debug_enabled s then [(Stdout, loop_line ctx args)] else [].

(** [ERROR( *args)] *)
Definition ERROR (s : soyutnet) (ctx : loop_ctx) (args : list string) : output :=
  [(Stderr, loop_line ctx args)].

