(* ===== verification/Observer.v ===== *)
(** * Observers ([src/soyutnet/observer.py])

    The state of an [Observer] or a [ComparativeObserver] is the record
    [observer]; the subclass is the field [o_class], whose [Comparative]
    case carries the fields the subclass adds.  The [asyncio.Lock] of the
    observer is [o_locked]: [with_lock m] is [async with self._lock: m],
    which takes a free lock without suspending, releases it when [m]
    returns or raises, and suspends the task for good when the lock is
    held (the model has no other task that could release it).  Every
    method is one definition of the [aio observer] monad.  Record times
    and the factors [0.91] and [1.1] are binary64 floats, as in Python,
    so the hysteresis bounds are the values [__init__] computes. *)

From S2P Require Import Prelude.

Local Open Scope Z_scope.
Local Open Scope aio_scope.

(** ** Data *)

(** [ObserverRecordType = Tuple[float, Tuple[TokenType, ...], str]] *)
Record record := mk_record {
  r_time : float;
  r_tokens : list (Z * Z);
  r_requester : string
}.

(** The fields [ComparativeObserver.__init__] adds: [_expected],
    [_expected_index], [_is_still_comparing], and whether an
    [on_comparison_ends] callback was given. *)
Record comparison := mk_comparison {
  c_expected : list (Z * list value);
  c_index : nat;
  c_still_comparing : bool;
  c_has_callback : bool
}.

Inductive obs_class :=
  | PlainObserver
  | Comparative (c : comparison).

Record observer := mk_observer {
  o_records : list record;
  o_locked : bool;
  o_record_limit : Z;
  o_hysteresis_bounds : Z * Z;
  o_verbose : bool;
  o_token_counters : list (Z * Z);
  o_ident : string;
  o_class : obs_class
}.

Definition set_records (rs : list record) (o : observer) : observer :=
  mk_observer rs (o_locked o) (o_record_limit o) (o_hysteresis_bounds o)
    (o_verbose o) (o_token_counters o) (o_ident o) (o_class o).

Definition set_locked (b : bool) (o : observer) : observer :=
  mk_observer (o_records o) b (o_record_limit o) (o_hysteresis_bounds o)
    (o_verbose o) (o_token_counters o) (o_ident o) (o_class o).

Definition set_counters (c : list (Z * Z)) (o : observer) : observer :=
  mk_observer (o_records o) (o_locked o) (o_record_limit o)
    (o_hysteresis_bounds o) (o_verbose o) c (o_ident o) (o_class o).

Definition set_class (k : obs_class) (o : observer) : observer :=
  mk_observer (o_records o) (o_locked o) (o_record_limit o)
    (o_hysteresis_bounds o) (o_verbose o) (o_token_counters o) (o_ident o) k.

(** ** Construction *)

(** The literals [0.91] and [1.1] of the code, as Python reads them:
    the nearest doubles, written exactly. *)
Definition f0_91 : float := 0x1.d1eb851eb851fp-1%float.
Definition f1_1 : float := 0x1.199999999999ap0%float.

(** [(int(record_limit * 0.91), int(record_limit * 1.1))]: the [int] is
    converted to a float, multiplied in binary64 and truncated; the
    conversions raise [OverflowError] beyond the range of doubles. *)
Definition hysteresis_bounds (record_limit : Z) : exn + (Z * Z) :=
  match py_float_of_int record_limit with
  | inl e => inl e
  | inr f =>
      match py_int (PrimFloat.mul f f0_91), py_int (PrimFloat.mul f f1_1) with
      | inr lo, inr hi => inr (lo, hi)
      | inl e, _ | _, inl e => inl e
      end
  end.

(** The attributes [Observer.__init__] sets, once the bounds are computed. *)
Definition observer_init (record_limit : Z) (bounds : Z * Z) (verbose : bool)
    (pt_ident : string) : observer :=
  mk_observer [] false record_limit bounds verbose [] pt_ident PlainObserver.

(** [Observer.__init__] *)
Definition new_observer (record_limit : Z) (verbose : bool) (pt_ident : string)
    : exn + observer :=
  match hysteresis_bounds record_limit with
  | inl e => inl e
  | inr b => inr (observer_init record_limit b verbose pt_ident)
  end.

(** [ComparativeObserver.__init__]: [Observer.__init__], then the fields
    of the comparison. *)
Definition new_comparative_observer (expected : list (Z * list value))
    (has_callback : bool) (record_limit : Z) (verbose : bool)
    (pt_ident : string) : exn + observer :=
  match new_observer record_limit verbose pt_ident with
  | inl e => inl e
  | inr o => inr (set_class (Comparative (mk_comparison expected 0 true has_callback)) o)
  end.

(** A keyword call of [ComparativeObserver]: [expected] is the value
    of the keyword [expected], [None] when the call does not give it;
    [__init__(self, expected, on_comparison_ends=None, **kwargs)] then
    raises [TypeError] (a missing required argument) before running,
    any other keyword going to [**kwargs]. *)
Definition comparative_observer_call (expected : option (list (Z * list value)))
    (has_callback : bool) (record_limit : Z) (verbose : bool) (pt_ident : string)
    : exn + observer :=
  match expected with
  | None => inl (TypeError "expected")
  | Some e => new_comparative_observer e has_callback record_limit verbose pt_ident
  end.

(** ** The lock *)

(** [async with self._lock: m]: a held lock suspends the task; a task
    cancelled while suspended inside [m] leaves the block and releases
    the lock, which [Observed.release_locks] does when the tasks are
    cancelled. *)
Definition with_lock {A} (m : aio observer A) : aio observer A :=
  fun o =>
    if o_locked o then Blocked o
    else match m (set_locked true o) with
         | Done a o' => Done a (set_locked false o')
         | Raised e o' => Raised e (set_locked false o')
         | Blocked o' => Blocked o'
         end.

(** ** Methods of [Observer] *)

(** [_clean_records] *)
Definition clean_records : aio observer Z :=
  fun o =>
    if 0 <? o_record_limit o then
      with_lock (fun o =>
        let count := Z.of_nat (length (o_records o)) in
        if (o_hysteresis_bounds o).2 <=? count then
          let rs := py_slice_from (o_records o)
                      (count - (o_hysteresis_bounds o).1) in
          Done (Z.of_nat (length rs)) (set_records rs o)
        else Done count o) o
    else Done (-1) o.

(** [_add_record] *)
Definition add_record (r : record) : aio observer Z :=
  fun o => let rs := o_records o ++ [r] in
           Done (Z.of_nat (length rs)) (set_records rs o).

(** [Observer._save]; the result says whether a callback was called,
    which never happens here. *)
Definition plain_save (r : record) : aio observer bool :=
  let* _ := add_record r in
  let* _ := clean_records in
  aret false.

(** The value at [record[column]]: the record is the tuple
    [(time, tokens, requester)]; [None] is the [IndexError]. *)
Definition record_col (r : record) (column : Z) : option value :=
  py_index [VFloat (r_time r); VCounts (r_tokens r); VStr (r_requester r)] column.

(** The [for column in self._expected] loop of
    [ComparativeObserver._save]: raises on the first column whose value at
    [_expected_index] differs from the record, and otherwise returns
    [column_count]. *)
Fixpoint compare_columns (ident : string) (r : record) (idx : nat)
    (cols : list (Z * list value)) : exn + nat :=
  match cols with
  | [] => inr 0%nat
  | (column, vals) :: rest =>
      if (length vals <=? idx)%nat then compare_columns ident r idx rest
      else
        let v := default (VNum 0) (vals !! idx) in
        match record_col r column with
        | None => inl IndexError
        | Some actual =>
            if py_eqb actual v then
              match compare_columns ident r idx rest with
              | inl e => inl e
              | inr n =>
                  inr (if Z.of_nat (length vals) - 1 >=? Z.of_nat idx
                       then S n else n)
              end
            else inl (RuntimeError ident column actual v)
        end
  end.

(** [ComparativeObserver._save]; the result says whether
    [on_comparison_ends] was called.  Unlike [Observer._save] it never
    calls [_clean_records]. *)
Definition comparative_save (c : comparison) (r : record) : aio observer bool :=
  fun o =>
    if c_still_comparing c then
      match compare_columns (o_ident o) r (c_index c) (c_expected c) with
      | inl e => Raised e o
      | inr column_count =>
          let ended := Nat.eqb column_count 0 in
          let c' := mk_comparison (c_expected c) (S (c_index c))
                      (negb ended) (c_has_callback c) in
          (let* _ := add_record r in aret (ended && c_has_callback c))
            (set_class (Comparative c') o)
      end
    else (let* _ := add_record r in aret false) o.

(** [self._save], dispatched on the class of the observer. *)
Definition save_record (r : record) : aio observer bool :=
  fun o => match o_class o with
           | PlainObserver => plain_save r o
           | Comparative c => comparative_save c r o
           end.

(** [if not requester: requester = "n/a"] *)
Definition requester_of (requester : string) : string :=
  if String.eqb requester "" then "n/a"%string else requester.
Arguments requester_of : simpl never.

(** [save(requester)]; [now] is the value of [self.net.time()]. *)
Definition save (requester : string) (now : float) : aio observer bool :=
  with_lock (fun o =>
    save_record (mk_record now (o_token_counters o) (requester_of requester)) o).

(** [inc_token_count(label, inc)] *)
Definition inc_token_count (lbl : Z) (inc : Z) : aio observer unit :=
  with_lock (amodify (fun o =>
    let c := o_token_counters o in
    let c1 := if dict_mem lbl c then c else dict_set lbl 0 c in
    set_counters (dict_set lbl (default 0 (dict_get lbl c1) + inc) c1) o)).

(** The result of [get_records(column)]: whole records for a negative
    column, one column otherwise. *)
Inductive records_view :=
  | AllRecords (rs : list record)
  | Column (vs : list value).

(** [get_records(column)]; [None] is the [IndexError]. *)
Definition get_records (column : Z) (o : observer) : option records_view :=
  if column <? 0 then Some (AllRecords (o_records o))
  else Column <$> mapM (fun r => record_col r column) (o_records o).

(** ** Sequences of calls *)

(** The calls a place or a transition makes on its observer, in the
    order they happen: [inc_token_count(label, inc)] and
    [save(requester)] at clock value [now]. *)
Inductive obs_call :=
  | CallInc (lbl inc : Z)
  | CallSave (requester : string) (now : float).

Definition run_call (k : obs_call) : aio observer bool :=
  match k with
  | CallInc lbl inc => let* _ := inc_token_count lbl inc in aret false
  | CallSave requester now => save requester now
  end.

(** Runs the calls one after the other; the result lists, per call,
    whether [on_comparison_ends] was called. *)
Fixpoint run_calls (ks : list obs_call) : aio observer (list bool) :=
  match ks with
  | [] => aret []
  | k :: ks' =>
      let* b := run_call k in
      let* bs := run_calls ks' in
      aret (b :: bs)
  end.

(** ** Well-formedness *)

(** The bounds are the ones [__init__] computes from the limit: no
    method writes [_record_limit] or [_hysteresis_bounds]. *)
Definition wf_observer (o : observer) : Prop :=
  hysteresis_bounds (o_record_limit o) = inr (o_hysteresis_bounds o).

(** ** Lemmas on the lock *)

Lemma with_lock_held {A} (m : aio observer A) o :
  o_locked o = true -> with_lock m o = Blocked o.
Proof. unfold with_lock. by intros ->. Qed.

Lemma with_lock_free {A} (m : aio observer A) o :
  o_locked o = false ->
  with_lock m o = match m (set_locked true o) with
                  | Done a o' => Done a (set_locked false o')
                  | Raised e o' => Raised e (set_locked false o')
                  | Blocked o' => Blocked o'
                  end.
Proof. unfold with_lock. by intros ->. Qed.

Lemma set_locked_set_locked b b' o :
  set_locked b (set_locked b' o) = set_locked b o.
Proof. by destruct o. Qed.

Lemma set_locked_id o : set_locked (o_locked o) o = o.
Proof. by destruct o. Qed.

Lemma relock_set_records rs o :
  o_locked o = false ->
  set_locked false (set_records rs (set_locked true o)) = set_records rs o.
Proof. destruct o; simpl; intros ->; done. Qed.

Lemma relock_set_counters c o :
  o_locked o = false ->
  set_locked false (set_counters c (set_locked true o)) = set_counters c o.
Proof. destruct o; simpl; intros ->; done. Qed.

Lemma relock_id o : o_locked o = false -> set_locked false (set_locked true o) = o.
Proof. destruct o; simpl; intros ->; done. Qed.

#[export] Hint Rewrite set_locked_set_locked : soyut_rw.

(** The lock is held after a call only if it was held before: what a
    call that completes or raises keeps, since [async with] releases
    the lock it took when its block ends or raises. *)
Definition lock_released (o o' : observer) : Prop := o_locked o' = true -> o_locked o = true.

#[export] Instance lock_released_preorder : PreOrder lock_released.
Proof. unfold lock_released. split; [by intros ?|intros o1 o2 o3 H1 H2 H; auto]. Qed.

Lemma with_lock_completes {A} (m : aio observer A) : completes lock_released (with_lock m).
Proof.
  intros o. unfold with_lock. destruct (o_locked o) eqn:Hl; [done|].
  destruct (m (set_locked true o)); simpl; try done; intros [=].
Qed.

(** The record [save requester now] builds from the counters of [o]. *)
Definition snapshot (requester : string) (now : float) (o : observer) : record :=
  mk_record now (o_token_counters o) (requester_of requester).

(** ** The hysteresis bounds *)

(** The exact integer formula [(limit * 91 // 100, limit * 11 // 10)]
    for a non-negative limit. *)
Definition hysteresis_quot (limit : Z) : Z * Z :=
  (Z.quot (limit * 91) 100, Z.quot (limit * 11) 10).

Lemma hysteresis_quot_order (limit : Z) :
  0 < limit ->
  0 <= (hysteresis_quot limit).1 /\ (hysteresis_quot limit).1 < limit /\
  limit <= (hysteresis_quot limit).2.
Proof.
  intros H. unfold hysteresis_quot; simpl.
  rewrite !Z.quot_div_nonneg by lia.
  split; [apply Z.div_pos; lia|]. split.
  - apply Z.div_lt_upper_bound; lia.
  - apply Z.div_le_lower_bound; lia.
Qed.

(** Whether the binary64 computation of the bounds gives the integer
    formula. *)
Definition hysteresis_exact (limit : Z) : bool :=
  match hysteresis_bounds limit with
  | inr (lo, hi) => (Z.eqb lo (hysteresis_quot limit).1 && Z.eqb hi (hysteresis_quot limit).2)%bool
  | inl _ => false
  end.

Lemma hysteresis_exact_spec limit :
  hysteresis_exact limit = true -> hysteresis_bounds limit = inr (hysteresis_quot limit).
Proof.
  unfold hysteresis_exact. destruct (hysteresis_bounds limit) as [|[lo hi]]; [done|].
  intros [H1 H2]%andb_true_iff. apply Z.eqb_eq in H1, H2. rewrite H1, H2. by destruct (hysteresis_quot limit).
Qed.

(** For every record limit from 0 to [hysteresis_checked_limit], the
    binary64 computation [int(record_limit * 0.91)],
    [int(record_limit * 1.1)] gives the integer formula, checked by
    evaluation over the whole range. *)
Definition hysteresis_checked_limit : Z := 65536.

Lemma hysteresis_bounds_small limit :
  0 <= limit < hysteresis_checked_limit ->
  hysteresis_bounds limit = inr (hysteresis_quot limit).
Proof.
  intros H. apply hysteresis_exact_spec.
  apply (Z_range_check hysteresis_exact 0 hysteresis_checked_limit); [|lia].
  vm_compute. reflexivity.
Qed.

Lemma wf_observer_bounds o :
  wf_observer o -> 0 < o_record_limit o < hysteresis_checked_limit ->
  0 <= (o_hysteresis_bounds o).1 /\ (o_hysteresis_bounds o).1 < o_record_limit o /\
  o_record_limit o <= (o_hysteresis_bounds o).2.
Proof.
  unfold wf_observer. intros Hwf Hlim.
  rewrite hysteresis_bounds_small in Hwf by lia. injection Hwf as <-.
  apply hysteresis_quot_order. lia.
Qed.

(** With the default [record_limit = 0] both constructors succeed, with
    bounds [(0, 0)]. *)
Lemma new_observer_zero verbose ident :
  new_observer 0 verbose ident = inr (observer_init 0 (0, 0) verbose ident).
Proof. unfold new_observer. by rewrite (hysteresis_bounds_small 0) by (unfold hysteresis_checked_limit; lia). Qed.

Lemma new_comparative_observer_zero expected cb verbose ident :
  new_comparative_observer expected cb 0 verbose ident =
    inr (set_class (Comparative (mk_comparison expected 0 true cb)) (observer_init 0 (0, 0) verbose ident)).
Proof. unfold new_comparative_observer. by rewrite new_observer_zero. Qed.

(** [inc_token_count] suspends exactly when the lock is held. *)
Lemma inc_token_count_outcome lbl inc o :
  exists o', inc_token_count lbl inc o = if o_locked o then Blocked o else Done tt o'.
Proof.
  unfold inc_token_count. destruct (o_locked o) eqn:Hl; [rewrite with_lock_held by done; by exists o|].
  rewrite with_lock_free by done. by eexists.
Qed.

Lemma save_unfold requester now o :
  o_locked o = false ->
  save requester now o =
    match save_record (snapshot requester now o) (set_locked true o) with
    | Done a o' => Done a (set_locked false o')
    | Raised e o' => Raised e (set_locked false o')
    | Blocked o' => Blocked o'
    end.
Proof. intros H. unfold save. by rewrite with_lock_free. Qed.

(** Number of expected columns that still have a value at [idx]. *)
Definition active_columns (idx : nat) (cols : list (Z * list value)) : nat :=
  length (filter (fun cv => (idx < length cv.2)%nat) cols).

Lemma compare_columns_count ident r idx cols n :
  compare_columns ident r idx cols = inr n -> n = active_columns idx cols.
Proof.
  unfold active_columns.
  revert n; induction cols as [|[column vals] cols IH]; intros n; simpl.
  { intros [= <-]. done. }
  rewrite filter_cons; simpl.
  destruct (Nat.leb_spec (length vals) idx).
  - rewrite decide_False by lia. apply IH.
  - rewrite decide_True by lia. destruct (record_col r column); [|done].
    destruct (py_eqb _ _); [|done]. destruct (compare_columns _ _ _ _) eqn:E; [done|].
    intros [= <-]. case_ltb; [|lia]. simpl. by rewrite (IH _ eq_refl).
Qed.

Lemma active_columns_zero idx cols :
  active_columns idx cols = 0%nat <-> Forall (fun cv => (length cv.2 <= idx)%nat) cols.
Proof.
  unfold active_columns. induction cols as [|[column vals] cols IH]; simpl.
  - split; auto.
  - rewrite filter_cons, Forall_cons_iff. simpl. case_decide; simpl; [split; [done|lia]|].
    rewrite IH. split; [intros; split; [lia|done]|naive_solver].
Qed.

(** ** Time order of the records *)

(** The records are in time order. *)
Definition time_ordered (rs : list record) : Prop :=
  forall i j ri rj, (i < j)%nat -> rs !! i = Some ri -> rs !! j = Some rj -> time_le (r_time ri) (r_time rj).

(** The clock [now] is a finite float, the records are in time order
    and none is later than [now]. *)
Definition records_upto (now : float) (o : observer) : Prop :=
  time_finite now /\ time_ordered (o_records o) /\
  Forall (fun r => time_le (r_time r) now) (o_records o).

Lemma time_ordered_snoc rs r :
  time_ordered rs -> Forall (fun r' => time_le (r_time r') (r_time r)) rs -> time_ordered (rs ++ [r]).
Proof.
  intros Ho Hf i j ri rj Hij Hi Hj.
  apply lookup_app_Some in Hj as [Hj|(Hlen & Hj)].
  - rewrite lookup_app_l in Hi by (apply lookup_lt_Some in Hj; lia). eauto.
  - apply list_lookup_singleton_Some in Hj as [Hj0 <-].
    rewrite lookup_app_l in Hi by lia. exact (Forall_lookup_1 _ _ _ _ Hf Hi).
Qed.

Lemma records_upto_mono now now' o : time_le now now' -> records_upto now o -> records_upto now' o.
Proof.
  intros Hle (_ & Ho & Hf). split; [by eapply time_le_finite_r|]. split; [done|].
  apply (list.Forall_impl _ _ _ Hf). intros r Hr. by eapply time_le_trans.
Qed.

(** [save] appends at most one record, stamped with the clock, and
    removes none: [_clean_records], the only method that drops records,
    never gets the lock from [save]. *)
Lemma save_records requester now o :
  o_records (outcome_state (save requester now o)) = o_records o \/
  o_records (outcome_state (save requester now o)) = o_records o ++ [snapshot requester now o].
Proof.
  destruct (o_locked o) eqn:Hl; [unfold save; rewrite with_lock_held by done; by left|].
  rewrite save_unfold by done. unfold save_record; simpl.
  destruct (o_class o) as [|c] eqn:Hc.
  - unfold plain_save, abind, add_record, clean_records; simpl.
    destruct (0 <? o_record_limit o); simpl; by right.
  - unfold comparative_save. destruct (c_still_comparing c).
    + destruct (compare_columns _ _ _ _); simpl; [by left|by right].
    + simpl. by right.
Qed.

Lemma inc_token_count_records l inc o :
  o_records (outcome_state (inc_token_count l inc o)) = o_records o.
Proof. unfold inc_token_count, with_lock. by destruct (o_locked o). Qed.

Lemma save_upto requester now : preserves (inv_rel (records_upto now)) (save requester now).
Proof.
  intros o (Hn & Ho & Hf). unfold records_upto. destruct (save_records requester now o) as [-> | ->]; [done|].
  split; [done|]. split; [apply time_ordered_snoc; [done|]|].
  - apply (list.Forall_impl _ _ _ Hf). done.
  - apply Forall_app. split; [done|]. repeat constructor. by apply time_le_refl.
Qed.

Lemma inc_token_count_upto now l inc : preserves (inv_rel (records_upto now)) (inc_token_count l inc).
Proof. intros o. unfold inv_rel, records_upto. by rewrite inc_token_count_records. Qed.

(** With a record limit, the plain [save] suspends in [_clean_records]
    with the lock held and the record appended. *)
Lemma save_limit_blocked (o : observer) (requester : string) (now : float) :
  o_class o = PlainObserver -> o_locked o = false -> 0 < o_record_limit o ->
  exists o', save requester now o = Blocked o' /\ o_locked o' = true /\
    o_records o' = o_records o ++ [snapshot requester now o].
Proof.
  intros Hc Hl Hlim. rewrite save_unfold by done.
  unfold save_record; simpl. rewrite Hc.
  unfold plain_save, abind, add_record, clean_records; simpl.
  case_ltb; [|lia]. by eexists.
Qed.

(** ** Theorems *)

(** C6. [Observer.save] deadlocks whenever [record_limit > 0]: it holds
    [self._lock] while awaiting [_save], which awaits [_clean_records],
    which acquires the same non-reentrant [asyncio.Lock].  The task stays
    suspended with the lock held (the record is already appended), and
    from then on every [inc_token_count] and [save] on this observer
    suspends as well. *)
Theorem save_deadlocks_with_record_limit (o : observer) (requester : string) (now : float) :
  o_class o = PlainObserver -> o_locked o = false -> 0 < o_record_limit o ->
  exists o', save requester now o = Blocked o' /\
    o_locked o' = true /\
    o_records o' = o_records o ++ [snapshot requester now o] /\
    (forall lbl inc, inc_token_count lbl inc o' = Blocked o') /\
    (forall req t, save req t o' = Blocked o').
Proof.
  intros Hc Hl Hlim. destruct (save_limit_blocked o requester now Hc Hl Hlim) as (o' & Hs & Hl' & Hr).
  exists o'. split; [done|]. split; [done|]. split; [done|].
  split; intros; by apply with_lock_held.
Qed.

(** C21. With no record limit (the default [record_limit = 0]) [save]
    completes: it appends exactly one record, holding the current token
    counters, the clock value and the requester (["n/a"] when empty),
    releases the lock and changes nothing else. *)
Theorem save_appends_snapshot (o : observer) (requester : string) (now : float) :
  o_class o = PlainObserver -> o_locked o = false -> o_record_limit o <= 0 ->
  save requester now o =
    Done false (set_records (o_records o ++ [snapshot requester now o]) o).
Proof.
  intros Hc Hl Hlim. rewrite save_unfold by done.
  unfold save_record; simpl. rewrite Hc.
  unfold plain_save, abind, add_record, clean_records, aret; simpl.
  case_ltb; [lia|]. destruct o; simpl in *; by subst.
Qed.

(** C24. [_clean_records] keeps the record list strictly below the upper
    hysteresis bound [hi = int(record_limit * 1.1)]: called with a
    positive limit and a free lock on bounds [0 <= lo < hi], it
    completes, returns the new length, leaves the list alone while it is
    below [hi], and otherwise keeps exactly the [lo] most recent records.
    [wf_observer_bounds] gives [0 <= lo < hi] for every limit the
    binary64 range check covers. *)
Theorem clean_records_below_upper_bound (o : observer) (lo hi : Z) :
  o_hysteresis_bounds o = (lo, hi) -> 0 <= lo < hi ->
  o_locked o = false -> 0 < o_record_limit o ->
  exists rs dropped,
    clean_records o = Done (Z.of_nat (length rs)) (set_records rs o) /\
    o_records o = dropped ++ rs /\
    Z.of_nat (length rs) < hi /\
    (Z.of_nat (length (o_records o)) < hi -> rs = o_records o) /\
    (hi <= Z.of_nat (length (o_records o)) -> Z.of_nat (length rs) = lo).
Proof.
  intros Hb Hlh Hl Hlim.
  unfold clean_records. case_ltb; [|lia]. rewrite with_lock_free by done.
  simpl. rewrite Hb; simpl. case_ltb.
  - set (start := Z.of_nat (length (o_records o)) - lo).
    destruct (py_slice_from_suffix (o_records o) start) as [pre Hpre].
    assert (Hlen : length (py_slice_from (o_records o) start) =
                   (length (o_records o) - Z.to_nat start)%nat)
      by (apply py_slice_from_length; unfold start; lia).
    exists (py_slice_from (o_records o) start), pre.
    rewrite relock_set_records by done. split; [done|]. split; [done|].
    rewrite Hlen. unfold start. split; [lia|]. split; lia.
  - exists (o_records o), []. rewrite relock_id by done.
    split; [by destruct o|].
    split; [done|]. split; [lia|]. split; [done|lia].
Qed.

(** C25. [__init__] computes the hysteresis bounds in binary64 floats:
    [int(record_limit * 0.91)] and [int(record_limit * 1.1)].  For every
    positive limit below [2^16] they are exactly
    [record_limit * 91 // 100] and [record_limit * 11 // 10], so
    [0 <= lo < record_limit <= hi]; for a limit as large as
    [139150371177489] the rounding of the product makes the lower bound
    one more than [record_limit * 91 // 100]. *)
Theorem hysteresis_bounds_exact (limit : Z) :
  0 < limit < hysteresis_checked_limit ->
  (exists lo hi, hysteresis_bounds limit = inr (lo, hi) /\
    lo = Z.quot (limit * 91) 100 /\ hi = Z.quot (limit * 11) 10 /\
    0 <= lo < limit /\ limit <= hi) /\
  hysteresis_bounds 139150371177489 = inr (126626837771515, 153065408295237) /\
  Z.quot (139150371177489 * 91) 100 = 126626837771514.
Proof.
  intros Hl. split; [|split; vm_compute; reflexivity].
  exists (hysteresis_quot limit).1, (hysteresis_quot limit).2.
  rewrite hysteresis_bounds_small by lia. split; [by destruct (hysteresis_quot limit)|].
  split; [done|]. split; [done|]. pose proof (hysteresis_quot_order limit ltac:(lia)). lia.
Qed.

(** C22. [inc_token_count(label, inc)] with a free lock adds [inc] to the
    counter of [label] (a missing counter starts at 0), leaves every other
    counter alone, keeps the order of the labels (a new label goes last,
    as in a Python dict) and releases the lock. *)
Theorem inc_token_count_spec (o : observer) (lbl inc : Z) :
  o_locked o = false ->
  exists c', inc_token_count lbl inc o = Done tt (set_counters c' o) /\
    dict_get lbl c' = Some (default 0 (dict_get lbl (o_token_counters o)) + inc) /\
    (forall l', l' <> lbl -> dict_get l' c' = dict_get l' (o_token_counters o)) /\
    dict_keys c' = (if dict_mem lbl (o_token_counters o)
                    then dict_keys (o_token_counters o)
                    else dict_keys (o_token_counters o) ++ [lbl]).
Proof.
  intros Hl. unfold inc_token_count. rewrite with_lock_free by done.
  unfold amodify; simpl. rewrite relock_set_counters by done.
  eexists. split; [reflexivity|].
  unfold dict_mem. destruct (dict_get lbl (o_token_counters o)) eqn:E; simpl.
  - rewrite E. rewrite dict_get_set_eq. split; [done|]. split.
    + intros l' Hne. by apply dict_get_set_ne.
    + apply dict_keys_set_mem. unfold dict_mem. by rewrite E.
  - rewrite !dict_get_set_eq. split; [done|]. split.
    + intros l' Hne. by rewrite !dict_get_set_ne.
    + rewrite dict_keys_set_mem; [by apply dict_keys_set_new|].
      unfold dict_mem. by rewrite dict_get_set_eq.
Qed.

(** C23. [ComparativeObserver.save] while comparing, on both branches
    of the comparison.  A diverging (or missing) column raises, and the
    raise leaves the observer exactly as it was: no record is added, the
    index does not move, and [async with] releases the lock.  A matching
    record is appended, [_expected_index] advances, and the comparison
    ends (calling [on_comparison_ends] when given) exactly when no
    expected column has a value left at the current index, that is on
    the save after the one that consumed the last expected value. *)
Theorem comparative_save_spec (o : observer) (c : comparison) (requester : string) (now : float) :
  o_class o = Comparative c -> o_locked o = false -> c_still_comparing c = true ->
  match compare_columns (o_ident o) (snapshot requester now o) (c_index c) (c_expected c) with
  | inl e => save requester now o = Raised e o
  | inr n =>
      save requester now o =
        Done (Nat.eqb n 0 && c_has_callback c)
          (set_records (o_records o ++ [snapshot requester now o])
            (set_class (Comparative (mk_comparison (c_expected c) (S (c_index c))
                                       (negb (Nat.eqb n 0)) (c_has_callback c))) o)) /\
      (n = 0%nat <-> Forall (fun cv => (length cv.2 <= c_index c)%nat) (c_expected c))
  end.
Proof.
  intros Hc Hl Hs. rewrite save_unfold by done. unfold save_record; simpl. rewrite Hc.
  unfold comparative_save. rewrite Hs. simpl.
  destruct (compare_columns _ _ _ _) as [e|n] eqn:Hcmp; [by rewrite relock_id|split].
  - unfold abind, add_record, aret; simpl. destruct o; simpl in *; by subst.
  - apply compare_columns_count in Hcmp. subst. apply active_columns_zero.
Qed.


(** ** Scenarios *)

(** The observer of a place [p1] that the test expects to count 4, 2 and
    then 0 tokens of label [0] (column 1 of the record). *)
Definition expect_4_2_0 : observer :=
  set_class (Comparative (mk_comparison
    [(1, [VCounts [(0, 4)]; VCounts [(0, 2)];
          VCounts [(0, 0)]])] 0 true true))
    (observer_init 0 (0, 0) false "p1").

Lemma expect_4_2_0_new :
  new_comparative_observer
    [(1, [VCounts [(0, 4)]; VCounts [(0, 2)];
          VCounts [(0, 0)]])] true 0 false "p1" = inr expect_4_2_0.
Proof. vm_compute. reflexivity. Qed.

(** ** The type of the records *)

(** A record as [save] builds it: its tuple of [(label, count)] pairs
    names each label once. *)
Definition record_ok (r : record) : Prop := NoDup (map fst (r_tokens r)).

(** The state an observer keeps: the bounds [__init__] computed, a
    counter dict with each label once, and records of the right shape. *)
Definition observer_ok (o : observer) : Prop :=
  wf_observer o /\ NoDup (dict_keys (o_token_counters o)) /\ Forall record_ok (o_records o).

Lemma observer_ok_set_locked b o : observer_ok (set_locked b o) <-> observer_ok o.
Proof. by destruct o. Qed.

Lemma observer_ok_set_class k o : observer_ok (set_class k o) <-> observer_ok o.
Proof. by destruct o. Qed.

Lemma new_observer_ok limit verbose ident o :
  new_observer limit verbose ident = inr o -> observer_ok o.
Proof.
  unfold new_observer. destruct (hysteresis_bounds limit) eqn:Hb; [done|].
  intros [= <-]. split; [done|]. split; constructor.
Qed.

Lemma new_comparative_observer_ok expected cb limit verbose ident o :
  new_comparative_observer expected cb limit verbose ident = inr o -> observer_ok o.
Proof.
  unfold new_comparative_observer. destruct (new_observer _ _ _) eqn:Hn; [done|].
  intros [= <-]. apply observer_ok_set_class. by eapply new_observer_ok.
Qed.

Lemma with_lock_keeps {A} (m : aio observer A) :
  preserves (inv_rel observer_ok) m -> preserves (inv_rel observer_ok) (with_lock m).
Proof.
  intros Hm o Ho. unfold with_lock. destruct (o_locked o); [done|].
  specialize (Hm (set_locked true o) (proj2 (observer_ok_set_locked _ _) Ho)).
  destruct (m _); cbn [outcome_state] in *; try apply (proj2 (observer_ok_set_locked false _)); exact Hm.
Qed.

Lemma add_record_keeps r : record_ok r -> preserves (inv_rel observer_ok) (add_record r).
Proof.
  intros Hr o (Hw & Hk & Hrs). split; [done|]. split; [done|]. simpl.
  apply Forall_app. split; [done|]. by constructor.
Qed.

Lemma clean_records_keeps : preserves (inv_rel observer_ok) clean_records.
Proof.
  intros o. unfold clean_records. destruct (0 <? o_record_limit o); [|done].
  apply with_lock_keeps. intros o' (Hw & Hk & Hrs). simpl.
  destruct (_ <=? _); [|done]. split; [done|]. split; [done|]. simpl.
  destruct (py_slice_from_suffix (o_records o') (Z.of_nat (length (o_records o')) - (o_hysteresis_bounds o').1))
    as [pre Hpre].
  rewrite Hpre, Forall_app in Hrs. by destruct Hrs.
Qed.

Lemma save_record_keeps r : record_ok r -> preserves (inv_rel observer_ok) (save_record r).
Proof.
  intros Hr o. unfold save_record. destruct (o_class o) as [|c].
  - unfold plain_save. apply abind_preserves; [apply _|by apply add_record_keeps|intros _].
    apply abind_preserves; [apply _|apply clean_records_keeps|intros _; apply aret_preserves, _].
  - unfold comparative_save. destruct (c_still_comparing c).
    + destruct (compare_columns _ _ _ _); [done|]. intros Ho.
      apply (abind_preserves _ _ _ (add_record_keeps _ Hr) (fun _ => aret_preserves _ _)).
      by apply observer_ok_set_class.
    + apply (abind_preserves _ _ _ (add_record_keeps _ Hr) (fun _ => aret_preserves _ _)).
Qed.

Lemma save_keeps requester now : preserves (inv_rel observer_ok) (save requester now).
Proof.
  apply with_lock_keeps. intros o Ho. apply save_record_keeps; [|done].
  unfold record_ok, snapshot; simpl. apply Ho.
Qed.

Lemma inc_token_count_keeps lbl inc : preserves (inv_rel observer_ok) (inc_token_count lbl inc).
Proof.
  apply with_lock_keeps. intros o (Hw & Hk & Hrs). split; [done|]. split; [|done]. simpl.
  apply dict_set_NoDup. destruct (dict_mem _ _); [done|]. by apply dict_set_NoDup.
Qed.

(** C20. Whatever calls a place or a transition makes on an observer,
    and however they end (completed, raised or suspended), an observer
    that [__init__] built keeps its type: the hysteresis bounds stay the
    ones computed from [record_limit], the token counters stay a dict
    with each label once, and every record it holds is an
    [ObserverRecordType] whose tuple of [(label, count)] pairs names each
    label once. *)
Theorem run_calls_observer_ok (ks : list obs_call) (o : observer) :
  observer_ok o -> observer_ok (outcome_state (run_calls ks o)).
Proof.
  enough (H : preserves (inv_rel observer_ok) (run_calls ks)) by exact (H o).
  induction ks as [|k ks IH]; [apply aret_preserves, _|]. simpl.
  apply abind_preserves; [apply _| |intros b; apply abind_preserves;
    [apply _|exact IH|intros bs; apply aret_preserves, _]].
  destruct k; [|apply save_keeps].
  apply abind_preserves; [apply _|apply inc_token_count_keeps|intros _; apply aret_preserves, _].
Qed.

(** ** Witnesses *)

Lemma run_calls_observer_ok_witness :
  observer_ok expect_4_2_0 /\
  observer_ok (outcome_state (run_calls [CallInc 0 4; CallSave "t1" 1%float;
                                         CallInc 0 (-1); CallSave "t1" 2%float] expect_4_2_0)).
Proof.
  assert (H : observer_ok expect_4_2_0) by exact (new_comparative_observer_ok _ _ _ _ _ _ expect_4_2_0_new).
  split; [exact H|]. exact (run_calls_observer_ok _ _ H).
Defined.

Definition limited_observer : observer := observer_init 10 (9, 11) false "p1".

Lemma limited_observer_new : new_observer 10 false "p1" = inr limited_observer.
Proof. vm_compute. reflexivity. Qed.

Definition unlimited_observer : observer := observer_init 0 (0, 0) false "p2".

Lemma unlimited_observer_new : new_observer 0 false "p2" = inr unlimited_observer.
Proof. vm_compute. reflexivity. Qed.

Lemma save_deadlocks_with_record_limit_witness :
  exists o', save "t1" 7%float limited_observer = Blocked o' /\ o_locked o' = true /\
    o_records o' = [snapshot "t1" 7%float limited_observer] /\
    (forall lbl inc, inc_token_count lbl inc o' = Blocked o') /\
    (forall req t, save req t o' = Blocked o').
Proof.
  apply (save_deadlocks_with_record_limit limited_observer "t1" 7%float);
    [reflexivity | reflexivity | vm_compute; reflexivity].
Defined.

Lemma save_appends_snapshot_witness :
  save "" 3%float unlimited_observer =
    Done false (set_records [snapshot "" 3%float unlimited_observer]
                  unlimited_observer).
Proof.
  apply (save_appends_snapshot unlimited_observer "" 3%float);
    [reflexivity | reflexivity | vm_compute; discriminate].
Defined.

Definition eleven_records : observer :=
  set_records (repeat (mk_record 0%float [] "n/a") 11) limited_observer.

Lemma clean_records_below_upper_bound_witness :
  exists rs dropped,
    clean_records eleven_records = Done (Z.of_nat (length rs)) (set_records rs eleven_records) /\
    o_records eleven_records = dropped ++ rs /\
    Z.of_nat (length rs) < 11 /\
    (Z.of_nat (length (o_records eleven_records)) < 11 -> rs = o_records eleven_records) /\
    (11 <= Z.of_nat (length (o_records eleven_records)) -> Z.of_nat (length rs) = 9).
Proof.
  apply (clean_records_below_upper_bound eleven_records 9 11);
    [reflexivity | lia | reflexivity | vm_compute; reflexivity].
Defined.

Lemma inc_token_count_spec_witness :
  exists c', inc_token_count 0 5 limited_observer = Done tt (set_counters c' limited_observer) /\
    dict_get 0 c' = Some (default 0 (dict_get 0 (o_token_counters limited_observer)) + 5) /\
    (forall l', l' <> 0 -> dict_get l' c' = dict_get l' (o_token_counters limited_observer)) /\
    dict_keys c' = (if dict_mem 0 (o_token_counters limited_observer)
                    then dict_keys (o_token_counters limited_observer)
                    else dict_keys (o_token_counters limited_observer) ++ [0]).
Proof. apply inc_token_count_spec. reflexivity. Defined.

Definition expect_4 : comparison :=
  mk_comparison [(1, [VCounts [(0, 4)]])] 0 true true.

Definition counting (n : Z) : observer :=
  set_counters [(0, n)] (set_class (Comparative expect_4) limited_observer).

Lemma comparative_save_spec_witness :
  save "t1" 1%float (counting 4) =
    Done false (set_records (o_records (counting 4) ++ [snapshot "t1" 1%float (counting 4)])
      (set_class (Comparative (mk_comparison (c_expected expect_4) 1 true true)) (counting 4))) /\
  save "t1" 1%float (counting 3) =
    Raised (RuntimeError "p1" 1 (VCounts [(0, 3)]) (VCounts [(0, 4)]))
      (counting 3).
Proof.
  pose proof (comparative_save_spec (counting 4) expect_4 "t1" 1 eq_refl eq_refl eq_refl) as H4.
  pose proof (comparative_save_spec (counting 3) expect_4 "t1" 1 eq_refl eq_refl eq_refl) as H3.
  vm_compute in H4, H3. split; [exact (proj1 H4)|exact H3].
Defined.


Lemma hysteresis_bounds_exact_witness :
  0 < 10 < hysteresis_checked_limit /\
  (exists lo hi, hysteresis_bounds 10 = inr (lo, hi) /\
    lo = Z.quot (10 * 91) 100 /\ hi = Z.quot (10 * 11) 10 /\ 0 <= lo < 10 /\ 10 <= hi) /\
  hysteresis_bounds 139150371177489 = inr (126626837771515, 153065408295237) /\
  Z.quot (139150371177489 * 91) 100 = 126626837771514.
Proof.
  assert (H : 0 < 10 < hysteresis_checked_limit) by (vm_compute; split; reflexivity).
  split; [exact H|]. exact (hysteresis_bounds_exact 10 H).
Defined.
