(* ===== verification/ObserverOutput.v ===== *)
(** * What an observer prints ([src/soyutnet/observer.py])

    The debug printing of [Observer] and [ComparativeObserver]: the
    [REC:] line of [_save], the lines of the comparison in
    [ComparativeObserver._save], the listing of [_display_records] and
    the ["comparison ends"] line.  An observer prints through its [net]
    ([SoyutNet.DEBUG] and [DEBUG_V] of [SoyutNetClass]), from the task
    that called it; the Section variables [net] and [ctx] are that
    [SoyutNet] object and that task.  [print] writes [str()] of its
    arguments: for a record, the Python [repr] of its tuple, built here
    from [float_repr], the [repr] of a float (Python's shortest decimal
    that reads back as the same double, a builtin the model takes as a
    parameter).  [save_output] is what one call of [Observer.save]
    writes, following the same branches as [Observer.save]; the
    methods' effect on the observer's state is in [Observer]. *)

From S2P Require Import Prelude SoyutNetClass Observer.
From stdpp Require Import pretty.
From Stdlib Require Import Ascii.

Local Open Scope string_scope.

(** ** [repr] and [str] of the values a record holds *)

Definition char_str (n : nat) : string := String (ascii_of_nat n) EmptyString.

(** A lowercase hexadecimal digit. *)
Definition hex_digit (n : nat) : string := char_str (if (n <? 10)%nat then 48 + n else 87 + n)%nat.

(** [repr()] of one character of a string quoted by the character [q]:
    the backslash and the quote are escaped, tab, newline and carriage
    return are written [\t], [\n], [\r], the other control characters
    [\xNN]; any other byte is copied (the names of the drivers are
    ASCII). *)
Definition char_repr (q : nat) (c : ascii) : string :=
  let n := nat_of_ascii c in
  if (n =? 92)%nat then char_str 92 ++ char_str 92
  else if (n =? q)%nat then char_str 92 ++ char_str q
  else if (n =? 9)%nat then char_str 92 ++ "t"
  else if (n =? 10)%nat then char_str 92 ++ "n"
  else if (n =? 13)%nat then char_str 92 ++ "r"
  else if ((n <? 32) || (n =? 127))%nat then
    char_str 92 ++ "x" ++ hex_digit (n / 16) ++ hex_digit (n mod 16)
  else String c EmptyString.

Fixpoint str_has (n : nat) (s : string) : bool :=
  match s with
  | EmptyString => false
  | String c s' => ((nat_of_ascii c =? n)%nat || str_has n s')%bool
  end.

(** Each character of a string replaced by a string. *)
Fixpoint str_flat_map (f : ascii -> string) (s : string) : string :=
  match s with
  | EmptyString => EmptyString
  | String c s' => f c ++ str_flat_map f s'
  end.

(** [repr()] of a string: quoted by ['] unless it holds a ['] and no
    ["], then by ["]. *)
Definition py_str_repr (s : string) : string :=
  let q := if (str_has 39 s && negb (str_has 34 s))%bool then 34%nat else 39%nat in
  char_str q ++ str_flat_map (char_repr q) s ++ char_str q.

(** [repr()] of a tuple of the items' [repr]s: [(x,)] for one item. *)
Definition py_tuple_repr (items : list string) : string :=
  match items with
  | [x] => "(" ++ x ++ ",)"
  | _ => "(" ++ String.concat ", " items ++ ")"
  end.

Section Repr.
Variable float_repr : float -> string.

(** [repr()] of the tuple of [(label, count)] pairs of a record. *)
Definition counts_repr (c : list (Z * Z)) : string :=
  py_tuple_repr (map (fun lc => py_tuple_repr [pretty lc.1; pretty lc.2]) c).

(** [str(record)]: the [repr] of the tuple [(time, tokens, requester)]. *)
Definition record_str (r : record) : string :=
  py_tuple_repr [float_repr (r_time r); counts_repr (r_tokens r); py_str_repr (r_requester r)].

(** [f"{v}"] of a value of a record or of [expected]. *)
Definition value_str (v : value) : string :=
  match v with
  | VNum z => pretty z
  | VFloat f => float_repr f
  | VStr s => s
  | VCounts c => counts_repr c
  end.
End Repr.

(** ** The observer's printing *)

Section Output.
Variable float_repr : float -> string.
Variable net : soyutnet.
Variable ctx : loop_ctx.

Definition nl : string := char_str 10.

(** [if self._verbose: self.net.DEBUG(f"REC: {self._ident}:", record)] *)
Definition rec_line (o : observer) (r : record) : output :=
  if o_verbose o then DEBUG net ctx ["REC: " ++ o_ident o ++ ":"; record_str float_repr r] else [].

(** [_display_records]: one [DEBUG] call whose argument lists the
    records, one per line after a header line. *)
Definition display_records (o : observer) : output :=
  DEBUG net ctx
    [foldl (fun out r => out ++ "  " ++ record_str float_repr r ++ nl)
       (o_ident o ++ " has " ++ pretty (Z.of_nat (length (o_records o))) ++ " records" ++ nl)
       (o_records o)].

(** [self.net.DEBUG_V(f"({column}, {record[column]}) == ({column}, {value})")] *)
Definition match_line (column : Z) (actual v : value) : string :=
  "(" ++ pretty column ++ ", " ++ value_str float_repr actual ++ ") == (" ++
  pretty column ++ ", " ++ value_str float_repr v ++ ")".

(** The lines the [for column in self._expected] loop prints: one
    [DEBUG_V] line per column that matches, up to the first column that
    raises. *)
Fixpoint compare_output (r : record) (idx : nat) (cols : list (Z * list value)) : output :=
  match cols with
  | [] => []
  | (column, vals) :: rest =>
      if (length vals <=? idx)%nat then compare_output r idx rest
      else
        let v := default (VNum 0) (vals !! idx) in
        match record_col r column with
        | None => []
        | Some actual =>
            if py_eqb actual v
            then (DEBUG_V net ctx [match_line column actual v] ++ compare_output r idx rest)%list
            else []
        end
  end.

(** What [ComparativeObserver._save] prints: the comparison's lines;
    when the comparison ends, the records (if verbose) and
    ["comparison ends"] (if a callback was given); then the [REC:]
    line, unless the comparison raised. *)
Definition comparative_save_output (c : comparison) (r : record) (o : observer) : output :=
  if c_still_comparing c then
    match compare_columns (o_ident o) r (c_index c) (c_expected c) with
    | inl _ => compare_output r (c_index c) (c_expected c)
    | inr n =>
        (compare_output r (c_index c) (c_expected c) ++
         (if (n =? 0)%nat then
            (if o_verbose o then display_records o else []) ++
            (if c_has_callback c then DEBUG net ctx ["comparison ends"] else [])
          else []) ++
         rec_line o r)%list
    end
  else rec_line o r.

(** What one call of [Observer.save] prints: nothing when it suspends
    on the lock, otherwise what [_save] prints for the snapshot. *)
Definition save_output (requester : string) (now : float) (o : observer) : output :=
  if o_locked o then []
  else
    let r := snapshot requester now o in
    match o_class o with
    | PlainObserver => rec_line o r
    | Comparative c => comparative_save_output c r o
    end.

End Output.

(** ** Where and when an observer prints *)

Section OutputProofs.
Variable float_repr : float -> string.
Variable net : soyutnet.
Variable ctx : loop_ctx.

(** Lines written to the standard output only, and none unless
    [DEBUG_ENABLED] is set. *)
Definition debug_only (out : output) : Prop :=
  Forall (fun l => l.1 = Stdout) out /\ (debug_enabled net = false -> out = []).

Lemma debug_only_nil : debug_only [].
Proof. split; [constructor|done]. Qed.

Lemma debug_only_app a b : debug_only a -> debug_only b -> debug_only (a ++ b)%list.
Proof.
  intros [Ha Ha0] [Hb Hb0]. split; [by apply Forall_app|].
  intros Hd. by rewrite Ha0, Hb0.
Qed.

Lemma DEBUG_debug_only args : debug_only (DEBUG net ctx args).
Proof. unfold DEBUG. split; destruct (debug_enabled net); by repeat constructor. Qed.

Lemma DEBUG_V_debug_only args : debug_only (DEBUG_V net ctx args).
Proof.
  unfold DEBUG_V. split; destruct (debug_enabled net), (verbose_enabled net); by repeat constructor.
Qed.

Hint Resolve debug_only_nil debug_only_app DEBUG_debug_only DEBUG_V_debug_only : soyut.

Lemma rec_line_debug_only o r : debug_only (rec_line float_repr net ctx o r).
Proof. unfold rec_line. destruct (o_verbose o); auto with soyut. Qed.

Lemma display_records_debug_only o : debug_only (display_records float_repr net ctx o).
Proof. apply DEBUG_debug_only. Qed.

Hint Resolve rec_line_debug_only display_records_debug_only : soyut.

Lemma compare_output_debug_only r idx cols : debug_only (compare_output float_repr net ctx r idx cols).
Proof.
  induction cols as [|[column vals] cols IH]; simpl; [auto with soyut|].
  destruct (length vals <=? idx)%nat; [done|].
  destruct (record_col r column); [|auto with soyut]. destruct (py_eqb _ _); auto with soyut.
Qed.

Hint Resolve compare_output_debug_only : soyut.

(** With every column of the comparison matching, the loop prints one
    [DEBUG_V] match line per column that still has an expected value:
    as many lines as [column_count], when [DEBUG_ENABLED] and
    [VERBOSE_ENABLED] are both set. *)
Lemma compare_output_lines ident r idx cols n :
  compare_columns ident r idx cols = inr n ->
  length (compare_output float_repr net ctx r idx cols) =
    (if (debug_enabled net && verbose_enabled net)%bool then n else 0%nat).
Proof.
  revert n; induction cols as [|[column vals] cols IH]; intros n; simpl.
  { intros [= <-]. by destruct (_ && _)%bool. }
  destruct (Nat.leb_spec (length vals) idx); [apply IH|].
  destruct (record_col r column); [|done]. destruct (py_eqb _ _); [|done].
  destruct (compare_columns _ _ _ _) as [|m] eqn:E; [done|]. intros [= <-].
  rewrite length_app, (IH m eq_refl). unfold DEBUG_V.
  assert (Hi : (Z.of_nat (length vals) - 1 >=? Z.of_nat idx)%Z = true) by (apply Z.geb_le; lia).
  rewrite Hi. by destruct (debug_enabled net), (verbose_enabled net).
Qed.

Lemma foldl_record_lines (acc : string) (rs : list record) :
  foldl (fun out r => out ++ "  " ++ record_str float_repr r ++ nl) acc rs =
    acc ++ str_concat (map (fun r => "  " ++ record_str float_repr r ++ nl) rs).
Proof.
  revert acc. induction rs as [|r rs IH]; intros acc; simpl; [by rewrite str_app_nil_r|].
  rewrite IH. unfold str_concat; simpl. by rewrite <- !str_app_assoc.
Qed.

(** The text [_display_records] passes to [DEBUG]: a header line with
    the number of records, then each record on a line of its own. *)
Lemma display_records_text o :
  display_records float_repr net ctx o =
    DEBUG net ctx [o_ident o ++ " has " ++ pretty (Z.of_nat (length (o_records o))) ++ " records" ++ nl ++
                   str_concat (map (fun r => "  " ++ record_str float_repr r ++ nl) (o_records o))].
Proof. unfold display_records. by rewrite foldl_record_lines, !str_app_assoc. Qed.

(** C28. What [Observer.save] prints.  Every line goes to the standard
    output, and nothing is printed unless [DEBUG_ENABLED] is set, whatever
    the observer's state and [VERBOSE_ENABLED].  When a comparative
    observer's comparison passes with [column_count = n], the call
    prints [n] match lines (when [DEBUG_ENABLED] and [VERBOSE_ENABLED]
    are both set, none otherwise), then, if this save ends the
    comparison, the listing of the records held before this save (for a
    verbose observer) and ["comparison ends"] (when a callback was
    given), and last the [REC:] line of the new record (for a verbose
    observer). *)
Theorem save_output_spec (requester : string) (now : float) (o : observer) :
  debug_only (save_output float_repr net ctx requester now o) /\
  (forall c n, o_locked o = false -> o_class o = Comparative c -> c_still_comparing c = true ->
   compare_columns (o_ident o) (snapshot requester now o) (c_index c) (c_expected c) = inr n ->
   exists lines,
     save_output float_repr net ctx requester now o =
       (lines ++
        (if (n =? 0)%nat then
           (if o_verbose o then display_records float_repr net ctx o else []) ++
           (if c_has_callback c then DEBUG net ctx ["comparison ends"] else [])
         else []) ++
        rec_line float_repr net ctx o (snapshot requester now o))%list /\
     length lines = (if (debug_enabled net && verbose_enabled net)%bool then n else 0%nat)).
Proof.
  split.
  - unfold save_output, comparative_save_output.
    destruct (o_locked o); [auto with soyut|]. destruct (o_class o) as [|c]; [auto with soyut|].
    destruct (c_still_comparing c); [|auto with soyut].
    destruct (compare_columns _ _ _ _); [auto with soyut|].
    repeat apply debug_only_app; try destruct (_ =? _)%nat; try destruct (o_verbose o);
      try destruct (c_has_callback c); auto with soyut.
  - intros c n Hl Hc Hs Hcmp. exists (compare_output float_repr net ctx (snapshot requester now o) (c_index c) (c_expected c)).
    unfold save_output, comparative_save_output. rewrite Hl, Hc, Hs, Hcmp.
    split; [done|]. exact (compare_output_lines _ _ _ _ _ Hcmp).
Qed.

End OutputProofs.

(** ** Witnesses *)

(** A [SoyutNet] with [DEBUG_ENABLED] and [VERBOSE_ENABLED] set. *)
Definition verbose_net : soyutnet := mk_soyutnet 0.5%float true true false.

(** A verbose comparative observer expecting the count 4 and counting 4. *)
Definition expect_4_verbose : observer :=
  set_counters [(0%Z, 4%Z)] (set_class (Comparative expect_4) (observer_init 0 (0, 0)%Z true "p1")).

Lemma save_output_spec_witness :
  exists lines,
    save_output (fun _ => "0.5") verbose_net (InTask "t1") "t1" 0.5%float expect_4_verbose =
      (lines ++ [] ++ rec_line (fun _ => "0.5") verbose_net (InTask "t1") expect_4_verbose
                        (snapshot "t1" 0.5%float expect_4_verbose))%list /\
    length lines = 1%nat.
Proof.
  destruct (save_output_spec (fun _ => "0.5") verbose_net (InTask "t1") "t1" 0.5%float expect_4_verbose)
    as [_ H].
  exact (H expect_4 1%nat eq_refl eq_refl eq_refl ltac:(vm_compute; reflexivity)).
Defined.
