(* ===== verification/Registry.v ===== *)
(** * Registries ([src/soyutnet/registry.py], classes [Registry] and
    [TokenRegistry])

    A [Registry] is the record [registry A]: the id counter and the
    directory, a Python dict from labels to the list of [(id, object)]
    pairs registered under that label, in registration order.  The
    registered objects only need [get_label()], the class [Labelled].
    The optional post-register callback mutates the registered object
    after it was appended to the directory; since the directory and the
    caller hold the same Python object, the model stores and returns the
    object as the callback left it.  [Token] ([token.py], not under
    [src/]) is the record [token]; [TokenRegistry.register] is [register]
    with the callback that writes the new id into the token.  The
    registry's [_lock] is never acquired by any method and is not
    modelled.  [PTRegistry] is in [PTRegistry]. *)

From S2P Require Import Prelude.

Local Open Scope Z_scope.

(** [obj.get_label()] *)
Class Labelled (A : Type) := get_label : A -> Z.

Record registry (A : Type) := mk_registry {
  id_counter : Z;
  directory : list (Z * list (Z * A))
}.
Arguments mk_registry {A}.
Arguments id_counter {A}.
Arguments directory {A}.

Section Registry.
Context `{CS : Constants} {A : Type} `{Labelled A}.

(** [Registry.__init__] *)
Definition new_registry : registry A := mk_registry INITIAL_ID [].

(** [_new_id]: increments the counter and returns it. *)
Definition new_id (r : registry A) : Z * registry A :=
  (id_counter r + 1, mk_registry (id_counter r + 1) (directory r)).

(** [register(obj, post_register_callback)]; [None] is the default
    callback, which is not called.  Returns the new id, the object as
    the callback left it, and the new registry. *)
Definition register (cb : option (Z -> A -> A)) (obj : A) (r : registry A)
    : Z * A * registry A :=
  let '(nid, r1) := new_id r in
  let lbl := get_label obj in
  let d := directory r1 in
  let d1 := if dict_mem lbl d then d else dict_set lbl [] d in
  let obj' := match cb with Some f => f nid obj | None => obj end in
  let d2 := dict_set lbl (default [] (dict_get lbl d1) ++ [(nid, obj')]) d1 in
  (nid, obj', mk_registry (id_counter r1) d2).

(** [get_entry_count(label)], as written: [len(self._directory)]. *)
Definition get_entry_count (lbl : Z) (r : registry A) : nat :=
  if dict_mem lbl (directory r) then length (directory r) else 0%nat.

(** [get_first_entry(label)]; [(INVALID_ID, None)] when there is none. *)
Definition get_first_entry (lbl : Z) (r : registry A) : Z * option A :=
  match dict_get lbl (directory r) with
  | Some ((i, obj) :: _) => (i, Some obj)
  | _ => (INVALID_ID, None)
  end.

(** [get_entries(label, id)] *)
Definition get_entries (lbl : Z) (i : Z) (r : registry A) : list A :=
  match dict_get lbl (directory r) with
  | None => []
  | Some es => map snd (filter (fun e => e.1 = i) es)
  end.

(** [entries(label)]: the entries of [label] when it is a key of the
    directory, and all entries, label by label, otherwise ([None] is
    Python's [None]). *)
Definition entries (lbl : option Z) (r : registry A) : list (Z * A) :=
  match lbl with
  | Some l =>
      match dict_get l (directory r) with
      | Some es => es
      | None => concat (map snd (directory r))
      end
  | None => concat (map snd (directory r))
  end.
End Registry.

(** ** Tokens and [TokenRegistry] *)

(** [Token(label, id)] ([token.py], modelled from the specification). *)
Record token := mk_token { t_label : Z; t_id : Z }.

#[export] Instance token_eq_dec : EqDecision token.
Proof. solve_decision. Defined.

#[export] Instance token_labelled : Labelled token := t_label.

(** [TokenRegistry.register(token)]: the callback sets [token._id]. *)
Definition token_register (t : token) (r : registry token) : Z * token * registry token :=
  register (Some (fun nid tkn => mk_token (t_label tkn) nid)) t r.

(** ** Invariant of a registry *)

Section RegistryProofs.
Context `{CS : Constants} {A : Type} `{Labelled A}.

(** Labels are keys once, ids are unique, and every id lies in
    [(INITIAL_ID, id_counter]]. *)
Definition wf_registry (r : registry A) : Prop :=
  NoDup (dict_keys (directory r)) /\
  NoDup (map fst (entries None r)) /\
  Forall (fun e => INITIAL_ID < e.1 <= id_counter r) (entries None r) /\
  INITIAL_ID <= id_counter r.

(** The registries a program can build: the empty one, and any
    registration on a reachable one. *)
Inductive reachable : registry A -> Prop :=
  | reachable_new : reachable new_registry
  | reachable_register cb obj r nid obj' r' :
      reachable r -> register cb obj r = (nid, obj', r') -> reachable r'.

Lemma register_shape cb obj r nid obj' r' :
  register cb obj r = (nid, obj', r') ->
  nid = id_counter r + 1 /\ id_counter r' = nid /\
  obj' = match cb with Some f => f nid obj | None => obj end /\
  dict_get (get_label obj) (directory r') =
    Some (default [] (dict_get (get_label obj) (directory r)) ++ [(nid, obj')]) /\
  (forall l, l <> get_label obj ->
     dict_get l (directory r') = dict_get l (directory r)).
Proof.
  unfold register, new_id; simpl. intros [= <- <- <-]; simpl.
  split; [done|]. split; [done|]. split; [done|]. split.
  - rewrite dict_get_set_eq. unfold dict_mem.
    destruct (dict_get _ (directory r)) eqn:E; [by rewrite E|].
    by rewrite dict_get_set_eq.
  - intros l Hl. rewrite dict_get_set_ne by done. unfold dict_mem.
    destruct (dict_get _ (directory r)); [done|]. by rewrite dict_get_set_ne.
Qed.

Lemma register_keys cb obj r nid obj' r' :
  NoDup (dict_keys (directory r)) ->
  register cb obj r = (nid, obj', r') -> NoDup (dict_keys (directory r')).
Proof.
  unfold register, new_id; simpl. intros Hnd [= <- <- <-]; simpl.
  apply dict_set_NoDup. unfold dict_mem. destruct (dict_get _ _); [done|].
  by apply dict_set_NoDup.
Qed.

Lemma register_all_entries cb obj r nid obj' r' :
  register cb obj r = (nid, obj', r') ->
  entries None r' ≡ₚ (nid, obj') :: entries None r.
Proof.
  unfold register, new_id, entries; simpl. intros [= <- <- <-]; simpl.
  unfold dict_mem. destruct (dict_get (get_label obj) (directory r)) eqn:E; simpl.
  - rewrite E; simpl. by apply dict_concat_append.
  - rewrite dict_get_set_eq. etrans.
    { apply (dict_concat_append _ _ _ []). by rewrite dict_get_set_eq. }
    rewrite dict_set_new by done. by rewrite map_app, concat_app, app_nil_r.
Qed.

(** C11. Registration hands out fresh ids: the new id is the old
    counter plus one, it differs from every id already in the
    directory, and the registry invariant is preserved. *)
Theorem register_fresh_id cb obj r nid obj' r' :
  wf_registry r -> register cb obj r = (nid, obj', r') ->
  nid = id_counter r + 1 /\ (nid ∉ map fst (entries None r)) /\ wf_registry r'.
Proof.
  intros (Hk & Hnd & Hb & Hc) Hreg.
  pose proof (register_shape _ _ _ _ _ _ Hreg) as (Hn & Hc' & _).
  pose proof (register_all_entries _ _ _ _ _ _ Hreg) as Hp.
  assert (Hfresh : nid ∉ map fst (entries None r)).
  { intros Hin. apply (list_elem_of_fmap fst) in Hin as [e [-> He]].
    rewrite list.Forall_forall in Hb. specialize (Hb e He). lia. }
  split; [done|]. split; [done|]. split; [by eapply register_keys|].
  rewrite Hp; simpl. split; [constructor; done|]. split; [|lia].
  constructor; [simpl; lia|]. eapply list.Forall_impl; [exact Hb|]. intros e He; simpl in *; lia.
Qed.

(** C10. Every registry a program builds satisfies the invariant: ids
    are unique and never reused, and all lie between [INITIAL_ID] and
    the counter. *)
Theorem reachable_wf r : reachable r -> wf_registry r.
Proof.
  induction 1 as [|cb obj r nid obj' r' _ IH Hreg].
  - unfold wf_registry, new_registry, entries; simpl.
    split; [constructor|]. split; [constructor|]. split; [constructor|]. done.
  - by destruct (register_fresh_id _ _ _ _ _ _ IH Hreg) as (_ & _ & Hwf).
Qed.

(** [register] appends [(id, object)] at the end of the entries
    of the object's label, where [entries(label)] finds it, leaves the
    entries of every other label alone, and keeps the first entry of
    the label (the new object becomes the first entry only of a label
    that had none). *)
Lemma register_appends_entry cb obj r nid obj' r' :
  register cb obj r = (nid, obj', r') ->
  entries (Some (get_label obj)) r' =
    default [] (dict_get (get_label obj) (directory r)) ++ [(nid, obj')] /\
  (forall l, l <> get_label obj ->
     dict_get l (directory r') = dict_get l (directory r)) /\
  get_first_entry (get_label obj) r' =
    match dict_get (get_label obj) (directory r) with
    | Some ((i, o) :: _) => (i, Some o)
    | _ => (nid, Some obj')
    end.
Proof.
  intros Hreg. destruct (register_shape _ _ _ _ _ _ Hreg) as (_ & _ & _ & Hget & Hother).
  unfold entries, get_first_entry. rewrite Hget. split; [done|]. split; [done|].
  by destruct (dict_get _ (directory r)) as [[|[i o] es]|].
Qed.
(** No entry of a well-formed registry carries an id above the counter. *)
Lemma entries_below_counter r lbl es e :
  wf_registry r -> dict_get lbl (directory r) = Some es -> e ∈ es -> e.1 <= id_counter r.
Proof.
  intros (_ & _ & Hb & _) Hg He. rewrite list.Forall_forall in Hb.
  apply Hb. unfold entries. exact (dict_get_concat _ _ _ Hg e He).
Qed.

(** C29. Registering and then looking up round-trips: in a well-formed
    registry, [get_entries(label, id)] with the object's label and the id
    [register] returned gives exactly the registered object (as the
    callback left it), and every other [(label, id)] query answers as
    before; [get_first_entry(label)] gives the new entry when the label
    had none, and is unchanged otherwise and for every other label. *)
Theorem register_get_entries cb obj r nid obj' r' :
  wf_registry r -> register cb obj r = (nid, obj', r') ->
  get_entries (get_label obj) nid r' = [obj'] /\
  (forall l i, (l, i) <> (get_label obj, nid) -> get_entries l i r' = get_entries l i r) /\
  get_first_entry (get_label obj) r' =
    match get_first_entry (get_label obj) r with (i, Some o) => (i, Some o) | _ => (nid, Some obj') end /\
  (forall l, l <> get_label obj -> get_first_entry l r' = get_first_entry l r).
Proof.
  intros Hwf Hreg. destruct (register_shape _ _ _ _ _ _ Hreg) as (Hn & _ & _ & Hget & Hother).
  split; [|split]; [..|split; intros; unfold get_first_entry; rewrite ?Hget, ?Hother by done;
    [by destruct (dict_get (get_label obj) (directory r)) as [[|[i o] es]|]|done]].
  all: unfold get_entries.
  - rewrite Hget, list.filter_app, map_app, list.filter_cons_True, list.filter_nil by done.
    destruct (dict_get (get_label obj) (directory r)) as [es|] eqn:Hg; simpl; [|done].
    rewrite filter_none; [done|].
    intros e He <-. pose proof (entries_below_counter _ _ _ _ Hwf Hg He). lia.
  - intros l i Hli. destruct (decide (l = get_label obj)) as [->|Hl]; [|by rewrite Hother].
    assert (i <> nid) by congruence.
    rewrite Hget, list.filter_app, map_app, list.filter_cons_False, list.filter_nil by done.
    destruct (dict_get (get_label obj) (directory r)); simpl; by rewrite ?app_nil_r.
Qed.

Lemma new_registry_wf : wf_registry (new_registry (A:=A)).
Proof.
  unfold wf_registry, new_registry, entries; simpl.
  split; [constructor|]. split; [constructor|]. split; [constructor|]. done.
Qed.
End RegistryProofs.

(** ** Tokens *)

(** Every token stored in the directory carries the id it is filed
    under. *)
Definition tokens_coherent (r : registry token) : Prop :=
  Forall (fun e => t_id e.2 = e.1) (entries None r).

(** [TokenRegistry.register] writes the new id into the token it
    files (the caller's token is the same object and sees it), and keeps
    every stored token's id equal to the id it is filed under. *)
Theorem token_register_sets_id (t : token) (r : registry token) nid t' r' :
  token_register t r = (nid, t', r') ->
  t' = mk_token (t_label t) nid /\ (tokens_coherent r -> tokens_coherent r').
Proof.
  unfold token_register, tokens_coherent. intros Hreg.
  destruct (register_shape _ _ _ _ _ _ Hreg) as (_ & _ & -> & _).
  split; [done|]. intros Hc. rewrite (register_all_entries _ _ _ _ _ _ Hreg).
  by constructor.
Qed.

(** ** Witnesses *)

#[local] Existing Instance example_constants.

Definition tok0 : token := mk_token GENERIC_LABEL GENERIC_ID.
Definition tok_cb : Z -> token -> token := fun nid tkn => mk_token (t_label tkn) nid.


Lemma register_fresh_id_witness :
  exists nid t' r', register (Some tok_cb) tok0 new_registry = (nid, t', r') /\
    nid = id_counter (new_registry (A:=token)) + 1 /\
    (nid ∉ map fst (entries None (new_registry (A:=token)))) /\ wf_registry r'.
Proof.
  do 3 eexists. split; [reflexivity|].
  eapply (register_fresh_id (Some tok_cb) tok0 new_registry); [apply new_registry_wf|reflexivity].
Defined.

Lemma reachable_wf_witness :
  wf_registry (token_register tok0 (token_register tok0 new_registry).2).2.
Proof.
  apply reachable_wf. eapply reachable_register; [|reflexivity].
  eapply reachable_register; [apply reachable_new|reflexivity].
Defined.

Lemma register_get_entries_witness :
  exists nid t' r', wf_registry (new_registry (A:=token)) /\
    register (Some tok_cb) tok0 new_registry = (nid, t', r') /\
    get_entries (get_label tok0) nid r' = [t'] /\
    (forall l i, (l, i) <> (get_label tok0, nid) ->
       get_entries l i r' = get_entries l i (new_registry (A:=token))) /\
    get_first_entry (get_label tok0) r' =
      match get_first_entry (get_label tok0) (new_registry (A:=token)) with
      | (i, Some o) => (i, Some o) | _ => (nid, Some t') end /\
    (forall l, l <> get_label tok0 -> get_first_entry l r' = get_first_entry l (new_registry (A:=token))).
Proof.
  do 3 eexists. split; [apply new_registry_wf|]. split; [reflexivity|].
  eapply (register_get_entries (Some tok_cb) tok0); [apply new_registry_wf|reflexivity].
Defined.

Lemma token_register_sets_id_witness :
  exists nid t' r', token_register tok0 new_registry = (nid, t', r') /\
    t' = mk_token (t_label tok0) nid /\
    (tokens_coherent new_registry -> tokens_coherent r').
Proof.
  do 3 eexists. split; [reflexivity|].
  eapply (token_register_sets_id tok0 new_registry). reflexivity.
Defined.
