(* ===== verification/Net.v ===== *)
(** * The net: places, arcs and the firing of a transition

    [place.py], [transition.py], [pt_common.py] and [token.py] are not
    under [src/]; this file models them from the specification (sections
    3, 4.2 to 4.4 and 5).  The objects of a net live in a store, the list
    [actors] of the record [net]: an arc names its place and transition
    by their index in the store, as the Python arcs hold references to
    the same objects the registry indexes.  A place's tokens are a dict
    from labels to FIFO queues ([a_tokens]); a transition keeps no tokens.
    The token registry of the net mints the tokens a transition produces
    beyond those it consumed.

    One turn of a transition ([transition_turn]) runs without a
    suspension point: it checks every input arc ([enabled]), takes the
    arc weights one arc after the other in connection order
    ([take_inputs]), puts the tokens back in reverse order if a take
    fails ([rollback]), and otherwise fills every output arc in
    connection order, first from the consumed tokens of the arc's label
    and then with freshly minted ones ([put_outputs]). *)

From S2P Require Import Prelude Observer Registry.

Local Open Scope Z_scope.

(** ** Data *)

Inductive pt_kind := KPlace | KSpecialPlace | KTransition.

#[export] Instance pt_kind_eq_dec : EqDecision pt_kind.
Proof. solve_decision. Defined.

Section NetModel.
Context `{CS : Constants}.

(** [Arc(source, destination, weight, label)] *)
Record arc := mk_arc {
  arc_src : nat;
  arc_dst : nat;
  arc_weight : Z;
  arc_label : Z
}.

(** A [PTCommon] object: a place, a special place or a transition. *)
Record actor := mk_actor {
  a_kind : pt_kind;
  a_name : string;
  a_id : Z;
  a_label : Z;
  a_tokens : list (Z * list token);
  a_input_arcs : list arc;
  a_output_arcs : list arc;
  a_observer : option observer
}.

Record net := mk_net {
  actors : list actor;
  tokens_reg : registry token
}.

Definition set_tokens (ts : list (Z * list token)) (p : actor) : actor :=
  mk_actor (a_kind p) (a_name p) (a_id p) (a_label p) ts (a_input_arcs p)
    (a_output_arcs p) (a_observer p).

Definition set_arcs (ins outs : list arc) (p : actor) : actor :=
  mk_actor (a_kind p) (a_name p) (a_id p) (a_label p) (a_tokens p) ins outs (a_observer p).

Definition is_place (p : actor) : bool :=
  match a_kind p with KPlace | KSpecialPlace => true | KTransition => false end.

(** ** Operations of a place *)

(** The FIFO queue of [label]. *)
Definition queue (p : actor) (l : Z) : list token :=
  default [] (dict_get l (a_tokens p)).

(** [count(label)] *)
Definition count (p : actor) (l : Z) : nat := length (queue p l).

(** [tryTake(label, count)]: the [count] oldest tokens of [label], or
    nothing and no change when fewer are present. *)
Definition try_take (l : Z) (n : Z) (p : actor) : option (list token * actor) :=
  let q := queue p l in
  if n <=? Z.of_nat (length q) then
    Some (take (Z.to_nat n) q, set_tokens (dict_set l (drop (Z.to_nat n) q) (a_tokens p)) p)
  else None.

(** [put(tokens, label)]: appends at the tail of the queue. *)
Definition put (ts : list token) (l : Z) (p : actor) : actor :=
  set_tokens (dict_set l (queue p l ++ ts) (a_tokens p)) p.

(** Puts tokens taken by a failed firing back at the head of the queue
    they were taken from. *)
Definition unget (ts : list token) (l : Z) (p : actor) : actor :=
  set_tokens (dict_set l (ts ++ queue p l) (a_tokens p)) p.

(** ** Arcs and [connect] *)

(** [connect(from, to, weight, label)]: a [ConfigurationError] when the
    weight is below 1 or the arc does not join a place and a transition;
    otherwise the arc is added to the output arcs of [from] and to the
    input arcs of [to]. *)
Definition connect (src dst : nat) (weight : Z) (l : Z) (n : net) : exn + net :=
  match actors n !! src, actors n !! dst with
  | Some ps, Some pd =>
      if weight <? 1 then inl (ConfigurationError "weight")
      else if Bool.eqb (is_place ps) (is_place pd) then
        inl (ConfigurationError "direction")
      else
        let a := mk_arc src dst weight l in
        let acts := <[src := set_arcs (a_input_arcs ps) (a_output_arcs ps ++ [a]) ps]> (actors n) in
        let pd' := default pd (acts !! dst) in
        inr (mk_net (<[dst := set_arcs (a_input_arcs pd' ++ [a]) (a_output_arcs pd') pd']> acts)
               (tokens_reg n))
  | _, _ => inl (ConfigurationError "actor")
  end.

(** ** Operations of the net on the actor at an index *)

Definition update_actor (i : nat) (f : actor -> actor) (n : net) : net :=
  mk_net (alter f i (actors n)) (tokens_reg n).

(** [count] of place [i]; 0 for an index with no actor. *)
Definition count_at (n : net) (i : nat) (l : Z) : nat :=
  match actors n !! i with Some p => count p l | None => 0%nat end.

(** The [tryTake] of one input arc on its source place. *)
Definition take_at (a : arc) (n : net) : option (list token * net) :=
  match actors n !! arc_src a with
  | Some p =>
      match try_take (arc_label a) (arc_weight a) p with
      | Some (ts, p') => Some (ts, mk_net (<[arc_src a := p']> (actors n)) (tokens_reg n))
      | None => None
      end
  | None => None
  end.

Definition put_at (i : nat) (ts : list token) (l : Z) (n : net) : net :=
  update_actor i (put ts l) n.

Definition unget_at (a : arc) (ts : list token) (n : net) : net :=
  update_actor (arc_src a) (unget ts (arc_label a)) n.

(** ** Firing *)

(** Enablement: every input arc's source place holds at least the arc's
    weight of the arc's label. *)
Definition enabled (n : net) (tr : actor) : bool :=
  forallb (fun a => bool_decide (arc_weight a <= Z.of_nat (count_at n (arc_src a) (arc_label a))))
    (a_input_arcs tr).

(** Puts the tokens already taken back, the last taken first. *)
Definition rollback (taken : list (arc * list token)) (n : net) : net :=
  foldl (fun n at_ => unget_at at_.1 at_.2 n) n taken.

(** Takes every input arc in order; on the first failure rolls back and
    returns the restored net ([inl]), otherwise returns the net and the
    taken tokens, the last arc first ([inr]). *)
Fixpoint take_inputs (arcs : list arc) (n : net) (taken : list (arc * list token))
    : net + (net * list (arc * list token)) :=
  match arcs with
  | [] => inr (n, taken)
  | a :: rest =>
      match take_at a n with
      | Some (ts, n') => take_inputs rest n' ((a, ts) :: taken)
      | None => inl (rollback taken n)
      end
  end.

(** Takes up to [k] tokens of label [l] from the pool, oldest first;
    returns them and the rest of the pool. *)
Fixpoint pool_take (k : nat) (l : Z) (pool : list token) : list token * list token :=
  match pool with
  | [] => ([], [])
  | t :: ps =>
      match k with
      | O => ([], pool)
      | S k' =>
          if decide (t_label t = l) then
            let '(ts, rest) := pool_take k' l ps in (t :: ts, rest)
          else
            let '(ts, rest) := pool_take k l ps in (ts, t :: rest)
      end
  end.

(** Mints [k] tokens of label [l] through [TokenRegistry.register]. *)
Fixpoint mint (k : nat) (l : Z) (r : registry token) : list token * registry token :=
  match k with
  | O => ([], r)
  | S k' =>
      let '(_, t, r1) := token_register (mk_token l GENERIC_ID) r in
      let '(ts, r2) := mint k' l r1 in
      (t :: ts, r2)
  end.

(** Fills the output arcs in connection order: [weight] tokens of the
    arc's label go to its destination, taken from the pool of consumed
    tokens first and minted for the rest. *)
Fixpoint put_outputs (arcs : list arc) (pool : list token) (n : net) : net :=
  match arcs with
  | [] => n
  | a :: rest =>
      let w := Z.to_nat (arc_weight a) in
      let '(moved, pool') := pool_take w (arc_label a) pool in
      let '(fresh, r') := mint (w - length moved) (arc_label a) (tokens_reg n) in
      put_outputs rest pool'
        (put_at (arc_dst a) (moved ++ fresh) (arc_label a) (mk_net (actors n) r'))
  end.

(** The consumed tokens, in the order their arcs were taken. *)
Definition consumed (taken : list (arc * list token)) : list token :=
  concat (map snd (reverse taken)).

(** One turn of the transition at index [t]; the boolean says whether it
    fired. *)
Definition transition_turn (t : nat) (n : net) : net * bool :=
  match actors n !! t with
  | Some tr =>
      if (bool_decide (a_kind tr = KTransition) && enabled n tr)%bool then
        match take_inputs (a_input_arcs tr) n [] with
        | inl n' => (n', false)
        | inr (n', taken) => (put_outputs (a_output_arcs tr) (consumed taken) n', true)
        end
      else (n, false)
  | None => (n, false)
  end.

(** ** Lemmas on a place *)

Lemma set_tokens_same p : set_tokens (a_tokens p) p = p.
Proof. by destruct p. Qed.

Lemma set_tokens_twice ts ts' p : set_tokens ts (set_tokens ts' p) = set_tokens ts p.
Proof. by destruct p. Qed.

Lemma queue_set l l' q p :
  queue (set_tokens (dict_set l q (a_tokens p)) p) l' = if decide (l = l') then q else queue p l'.
Proof.
  unfold queue; simpl. case_decide; subst; [by rewrite dict_get_set_eq|].
  by rewrite dict_get_set_ne.
Qed.

Lemma try_take_spec l n p ts p' :
  try_take l n p = Some (ts, p') ->
  n <= Z.of_nat (count p l) /\ ts = take (Z.to_nat n) (queue p l) /\
  p' = set_tokens (dict_set l (drop (Z.to_nat n) (queue p l)) (a_tokens p)) p.
Proof.
  unfold try_take, count. case_ltb; [|done]. intros [= <- <-]. done.
Qed.

Lemma try_take_None l n p : try_take l n p = None <-> Z.of_nat (count p l) < n.
Proof. unfold try_take, count. case_ltb; split; (done || lia). Qed.

(** A take of at least one token followed by putting the tokens back at
    the head restores the place. *)
Lemma try_take_unget l n p ts p' :
  1 <= n -> try_take l n p = Some (ts, p') -> unget ts l p' = p.
Proof.
  intros Hn Ht. destruct (try_take_spec _ _ _ _ _ Ht) as (Hc & -> & ->).
  unfold unget. rewrite queue_set, decide_True by done.
  rewrite take_drop. simpl. rewrite dict_set_set, set_tokens_twice.
  unfold count, queue in *. destruct (dict_get l (a_tokens p)) eqn:E; simpl in *; [|lia].
  rewrite dict_set_same by done. apply set_tokens_same.
Qed.

Lemma count_try_take l n p ts p' l' :
  try_take l n p = Some (ts, p') ->
  count p' l' = if decide (l = l') then (count p l' - Z.to_nat n)%nat else count p l'.
Proof.
  intros Ht. destruct (try_take_spec _ _ _ _ _ Ht) as (_ & _ & ->).
  unfold count. rewrite queue_set. case_decide; subst; [|done].
  by rewrite length_drop.
Qed.

Lemma count_put ts l p l' :
  count (put ts l p) l' = if decide (l = l') then (count p l' + length ts)%nat else count p l'.
Proof.
  unfold count, put. rewrite queue_set. case_decide; subst; [|done].
  by rewrite length_app.
Qed.

(** ** First in, first out *)

(** The operations a place's queue of one label sees. *)
Inductive queue_op := OpPut (ts : list token) | OpTake (n : Z).

(** Runs the operations on label [l]; returns what the takes returned,
    in order. A failed take returns nothing and changes nothing. *)
Fixpoint run_queue (l : Z) (ops : list queue_op) (p : actor) : list token * actor :=
  match ops with
  | [] => ([], p)
  | OpPut ts :: ops' => run_queue l ops' (put ts l p)
  | OpTake n :: ops' =>
      match try_take l n p with
      | Some (ts, p') => let '(out, p'') := run_queue l ops' p' in (ts ++ out, p'')
      | None => run_queue l ops' p
      end
  end.

Definition puts_of (ops : list queue_op) : list token :=
  concat (map (fun o => match o with OpPut ts => ts | OpTake _ => [] end) ops).

Lemma queue_put ts l p : queue (put ts l p) l = queue p l ++ ts.
Proof. unfold put. by rewrite queue_set, decide_True. Qed.

(** First in, first out: for any sequence of [put] and [tryTake]
    calls on one label of a place, the tokens the takes return, followed
    by the tokens left in the queue, are the tokens initially queued
    followed by the tokens put, in the same order. *)
Theorem run_queue_fifo (l : Z) (ops : list queue_op) (p : actor) :
  (run_queue l ops p).1 ++ queue (run_queue l ops p).2 l = queue p l ++ puts_of ops.
Proof.
  revert p; induction ops as [|[ts|n] ops IH]; intros p; simpl.
  - by rewrite app_nil_r.
  - rewrite IH, queue_put. unfold puts_of; simpl. by rewrite app_assoc.
  - destruct (try_take l n p) as [[ts p']|] eqn:Ht; [|by rewrite IH].
    destruct (run_queue l ops p') as [out p''] eqn:Er. simpl.
    pose proof (IH p') as IHp. rewrite Er in IHp. simpl in IHp.
    rewrite <- app_assoc, IHp.
    destruct (try_take_spec _ _ _ _ _ Ht) as (_ & -> & ->).
    rewrite queue_set, decide_True by done. by rewrite app_assoc, take_drop.
Qed.

(** ** Lemmas on the net *)

(** What firing never changes: the kinds and arcs of all actors. *)
Definition shape (n : net) : list (pt_kind * list arc * list arc) :=
  map (fun p => (a_kind p, a_input_arcs p, a_output_arcs p)) (actors n).

(** Whether arc endpoint [ai] with label [al] is place [i] and label [l]. *)
Definition hit (ai : nat) (al : Z) (i : nat) (l : Z) : bool :=
  bool_decide (ai = i /\ al = l).

Lemma hit_refl i l : hit i l i l = true.
Proof. unfold hit. by apply bool_decide_eq_true_2. Qed.

Lemma hit_ne_index ai al i l : ai <> i -> hit ai al i l = false.
Proof. intros. unfold hit. apply bool_decide_eq_false_2. naive_solver. Qed.

Lemma alter_insert {A} (f : A -> A) (l : list A) i x :
  alter f i (<[i:=x]> l) = <[i:=f x]> l.
Proof.
  apply list_eq. intros j. destruct (decide (i = j)) as [<-|Hne].
  - rewrite list_lookup_alter_eq. destruct (decide (i < length l)%nat).
    + by rewrite !list_lookup_insert_eq.
    + rewrite !list_insert_ge by lia. rewrite lookup_ge_None_2 by lia. done.
  - by rewrite list_lookup_alter_ne, !list_lookup_insert_ne.
Qed.

Lemma take_at_spec a n ts n' :
  take_at a n = Some (ts, n') ->
  exists p p', actors n !! arc_src a = Some p /\
    try_take (arc_label a) (arc_weight a) p = Some (ts, p') /\
    n' = mk_net (<[arc_src a := p']> (actors n)) (tokens_reg n).
Proof.
  unfold take_at. destruct (actors n !! arc_src a) as [p|]; [|done].
  destruct (try_take _ _ p) as [[ts' p']|] eqn:T; [|done].
  intros [= <- <-]. by exists p, p'.
Qed.

Lemma take_at_None a n :
  1 <= arc_weight a ->
  take_at a n = None <-> Z.of_nat (count_at n (arc_src a) (arc_label a)) < arc_weight a.
Proof.
  intros Hw. unfold take_at, count_at. destruct (actors n !! arc_src a) as [p|]; [|simpl; split; [intros; lia|done]].
  rewrite <- try_take_None. by destruct (try_take _ _ p) as [[]|].
Qed.

Lemma count_at_take a n ts n' i l :
  take_at a n = Some (ts, n') ->
  count_at n' i l = if hit (arc_src a) (arc_label a) i l
                    then (count_at n i l - Z.to_nat (arc_weight a))%nat else count_at n i l.
Proof.
  intros Ht. destruct (take_at_spec _ _ _ _ Ht) as (p & p' & Hp & Ht' & ->).
  unfold count_at, hit; simpl. rewrite list_lookup_insert.
  destruct (decide (arc_src a = i)) as [<-|Hne].
  - rewrite decide_True by (split; [done|by eapply lookup_lt_Some]).
    rewrite Hp, (count_try_take _ _ _ _ _ _ Ht').
    case_decide; case_bool_decide; naive_solver.
  - rewrite decide_False by naive_solver. rewrite bool_decide_false by naive_solver. done.
Qed.

Lemma take_at_unget a n ts n' :
  1 <= arc_weight a -> take_at a n = Some (ts, n') -> unget_at a ts n' = n.
Proof.
  intros Hw Ht. destruct (take_at_spec _ _ _ _ Ht) as (p & p' & Hp & Ht' & ->).
  unfold unget_at, update_actor; simpl. rewrite alter_insert.
  rewrite (try_take_unget _ _ _ _ _ Hw Ht'). rewrite list_insert_id by done.
  by destruct n.
Qed.

Lemma count_at_put (i : nat) (ts : list token) (l : Z) (n : net) (j : nat) (l' : Z) :
  (i < length (actors n))%nat ->
  count_at (put_at i ts l n) j l' =
    if hit i l j l' then (count_at n j l' + length ts)%nat else count_at n j l'.
Proof.
  intros Hi. unfold count_at, put_at, update_actor, hit; simpl.
  rewrite list_lookup_alter. destruct (decide (i = j)) as [<-|Hne].
  - destruct (lookup_lt_is_Some_2 _ _ Hi) as [p Hp]. rewrite Hp; simpl.
    rewrite count_put. case_decide; case_bool_decide; naive_solver.
  - rewrite bool_decide_false by naive_solver. done.
Qed.

Lemma shape_take a n ts n' : take_at a n = Some (ts, n') -> shape n' = shape n.
Proof.
  intros Ht. destruct (take_at_spec _ _ _ _ Ht) as (p & p' & Hp & Ht' & ->).
  destruct (try_take_spec _ _ _ _ _ Ht') as (_ & _ & ->).
  unfold shape; simpl. rewrite list_fmap_insert. simpl.
  apply list_insert_id. by rewrite list_lookup_fmap, Hp.
Qed.

Lemma shape_update i f n :
  (forall p, (a_kind (f p), a_input_arcs (f p), a_output_arcs (f p)) =
             (a_kind p, a_input_arcs p, a_output_arcs p)) ->
  shape (update_actor i f n) = shape n.
Proof.
  intros Hf. unfold shape, update_actor; simpl. apply list_eq. intros j.
  rewrite !list_lookup_fmap, list_lookup_alter. case_decide; subst; [|done].
  by destruct (actors n !! j); simpl; [rewrite Hf|].
Qed.

(** ** Well-formed nets *)

(** What [connect] guarantees of every arc: weight at least 1, both ends
    in the store. *)
Definition arc_ok (len : nat) (a : arc) : Prop :=
  1 <= arc_weight a /\ (arc_src a < len)%nat /\ (arc_dst a < len)%nat.

Definition wf_shape (s : list (pt_kind * list arc * list arc)) : Prop :=
  Forall (fun x => Forall (arc_ok (length s)) (x.1.2 ++ x.2)) s.

Definition wf_net (n : net) : Prop := wf_shape (shape n).

Lemma wf_net_arcs n t tr :
  wf_net n -> actors n !! t = Some tr ->
  Forall (arc_ok (length (actors n))) (a_input_arcs tr ++ a_output_arcs tr).
Proof.
  unfold wf_net, wf_shape, shape. rewrite length_map. intros Hwf Ht.
  rewrite list.Forall_lookup in Hwf.
  apply (Hwf t (a_kind tr, a_input_arcs tr, a_output_arcs tr)).
  by rewrite list_lookup_fmap, Ht.
Qed.

(** ** Demand and supply of a transition *)

(** Total weight of the arcs whose source is place [i] and label [l]. *)
Fixpoint demand (arcs : list arc) (i : nat) (l : Z) : Z :=
  match arcs with
  | [] => 0
  | a :: r => (if hit (arc_src a) (arc_label a) i l then arc_weight a else 0) + demand r i l
  end.

(** Total weight of the arcs whose destination is place [i] and label [l]. *)
Fixpoint supply (arcs : list arc) (i : nat) (l : Z) : Z :=
  match arcs with
  | [] => 0
  | a :: r => (if hit (arc_dst a) (arc_label a) i l then arc_weight a else 0) + supply r i l
  end.

Lemma demand_nonneg arcs i l :
  Forall (fun a => 1 <= arc_weight a) arcs -> 0 <= demand arcs i l.
Proof. induction 1; simpl; [lia|]. destruct (hit _ _ _ _); lia. Qed.

Lemma take_at_le a n ts n' :
  take_at a n = Some (ts, n') ->
  arc_weight a <= Z.of_nat (count_at n (arc_src a) (arc_label a)).
Proof.
  intros Ht. destruct (take_at_spec _ _ _ _ Ht) as (p & p' & Hp & Ht' & _).
  unfold count_at. rewrite Hp. by destruct (try_take_spec _ _ _ _ _ Ht').
Qed.

(** The count after one take, in [Z]. *)
Lemma count_at_take_Z a n ts n' i l :
  0 <= arc_weight a -> take_at a n = Some (ts, n') ->
  Z.of_nat (count_at n' i l) =
    Z.of_nat (count_at n i l) - (if hit (arc_src a) (arc_label a) i l then arc_weight a else 0).
Proof.
  intros Hw Ht. pose proof (take_at_le _ _ _ _ Ht) as Hle.
  rewrite (count_at_take _ _ _ _ i l Ht). unfold hit in *.
  case_bool_decide as Hh; [destruct Hh; subst|]; lia.
Qed.

(** ** Taking the inputs *)

Lemma take_inputs_rollback arcs n taken n0 n' :
  Forall (fun a => 1 <= arc_weight a) arcs ->
  rollback taken n = n0 -> take_inputs arcs n taken = inl n' -> n' = n0.
Proof.
  intros Hw. revert n taken. induction Hw as [|a arcs Ha Hw IH]; intros n taken Hr; simpl; [done|].
  destruct (take_at a n) as [[ts n1]|] eqn:Ht; [|by intros [= <-]].
  apply IH. unfold rollback in *; simpl. by rewrite (take_at_unget _ _ _ _ Ha Ht).
Qed.

Lemma take_inputs_inr_iff arcs n taken :
  Forall (fun a => 1 <= arc_weight a) arcs ->
  (exists n' taken', take_inputs arcs n taken = inr (n', taken')) <->
  (forall i l, demand arcs i l <= Z.of_nat (count_at n i l)).
Proof.
  intros Hw. revert n taken. induction Hw as [|a arcs Ha Hw IH]; intros n taken; simpl.
  { split; [intros _ i l; lia|eauto]. }
  destruct (take_at a n) as [[ts n1]|] eqn:Ht.
  - rewrite IH. pose proof (take_at_le _ _ _ _ Ht) as Hle.
    assert (Hc : forall i l, Z.of_nat (count_at n1 i l) = Z.of_nat (count_at n i l) -
              (if hit (arc_src a) (arc_label a) i l then arc_weight a else 0)).
    { intros i l. apply (count_at_take_Z a n ts n1); [lia|done]. }
    split; intros H i l; specialize (H i l); [rewrite Hc in H|rewrite Hc];
      destruct (hit _ _ i l) eqn:Eh; try lia;
      unfold hit in Eh; apply bool_decide_eq_true in Eh as [<- <-]; lia.
  - split; [by intros (? & ? & ?)|]. intros H. exfalso.
    apply take_at_None in Ht; [|done].
    specialize (H (arc_src a) (arc_label a)). unfold hit in H.
    rewrite bool_decide_true in H by done.
    pose proof (demand_nonneg _ (arc_src a) (arc_label a) Hw). lia.
Qed.

Lemma take_inputs_inr_count arcs n taken n' taken' :
  Forall (fun a => 1 <= arc_weight a) arcs ->
  take_inputs arcs n taken = inr (n', taken') ->
  (forall i l, Z.of_nat (count_at n' i l) = Z.of_nat (count_at n i l) - demand arcs i l) /\
  shape n' = shape n.
Proof.
  intros Hw. revert n taken. induction Hw as [|a arcs Ha Hw IH]; intros n taken; simpl.
  { intros [= -> ->]. split; [intros; lia|done]. }
  destruct (take_at a n) as [[ts n1]|] eqn:Ht; [|done].
  intros Hti. destruct (IH _ _ Hti) as [Hc Hs]. split.
  - intros i l. rewrite Hc, (count_at_take_Z a _ _ _ i l ltac:(lia) Ht). lia.
  - by rewrite Hs, (shape_take _ _ _ _ Ht).
Qed.

(** ** Filling the outputs *)

Lemma pool_take_length k l pool : (length (pool_take k l pool).1 <= k)%nat.
Proof.
  revert k; induction pool as [|t ps IH]; intros [|k]; simpl; try lia.
  case_decide.
  - specialize (IH k). destruct (pool_take k l ps); simpl in *; lia.
  - specialize (IH (S k)). destruct (pool_take (S k) l ps); simpl in *; lia.
Qed.

Lemma mint_length k l r : length (mint k l r).1 = k.
Proof.
  revert r; induction k as [|k IH]; intros r; [done|]. cbn [mint].
  destruct (token_register (mk_token l GENERIC_ID) r) as [[nid t] r1].
  specialize (IH r1). destruct (mint k l r1); simpl in *; lia.
Qed.

Lemma shape_length n : length (actors n) = length (shape n).
Proof. unfold shape. by rewrite length_map. Qed.

Lemma shape_put i ts l n : shape (put_at i ts l n) = shape n.
Proof. apply shape_update. by intros []. Qed.

Lemma put_outputs_count arcs pool n :
  Forall (fun a => 1 <= arc_weight a /\ (arc_dst a < length (actors n))%nat) arcs ->
  (forall i l, Z.of_nat (count_at (put_outputs arcs pool n) i l) =
               Z.of_nat (count_at n i l) + supply arcs i l) /\
  shape (put_outputs arcs pool n) = shape n.
Proof.
  revert pool n. induction arcs as [|a arcs IH]; intros pool n Ha; simpl.
  { split; [intros; lia|done]. }
  inversion Ha as [|? ? [Hw Hd] Ha']; subst.
  pose proof (pool_take_length (Z.to_nat (arc_weight a)) (arc_label a) pool) as Hlen.
  destruct (pool_take _ _ pool) as [moved pool'].
  pose proof (mint_length (Z.to_nat (arc_weight a) - length moved) (arc_label a) (tokens_reg n)) as Hm.
  destruct (mint _ _ _) as [fresh r']. simpl in *.
  set (n1 := put_at (arc_dst a) (moved ++ fresh) (arc_label a) (mk_net (actors n) r')).
  assert (Hs1 : shape n1 = shape n) by (unfold n1; rewrite shape_put; done).
  destruct (IH pool' n1) as [Hc Hs].
  { eapply list.Forall_impl; [exact Ha'|]. intros b [? ?]. rewrite shape_length, Hs1, <- shape_length.
    split; [done|lia]. }
  split; [|by rewrite Hs, Hs1].
  intros i l. rewrite Hc. unfold n1. rewrite count_at_put by (simpl; done).
  rewrite length_app. unfold count_at; simpl.
  destruct (hit _ _ _ _); lia.
Qed.

(** ** Firing a transition *)

Lemma demand_ge_weight a arcs :
  a ∈ arcs -> Forall (fun b => 1 <= arc_weight b) arcs ->
  arc_weight a <= demand arcs (arc_src a) (arc_label a).
Proof.
  intros Hin Hw. induction Hw as [|b arcs Hb Hw IH]; [by apply elem_of_nil in Hin|].
  simpl. pose proof (demand_nonneg _ (arc_src a) (arc_label a) Hw).
  apply elem_of_cons in Hin as [->|Hin].
  - unfold hit. rewrite bool_decide_true by done. lia.
  - specialize (IH Hin). destruct (hit _ _ _ _); lia.
Qed.

Lemma demand_enabled n tr :
  Forall (fun b => 1 <= arc_weight b) (a_input_arcs tr) ->
  (forall i l, demand (a_input_arcs tr) i l <= Z.of_nat (count_at n i l)) ->
  enabled n tr = true.
Proof.
  intros Hw Hd. unfold enabled. apply forallb_forall. intros a Ha.
  apply bool_decide_eq_true. apply list_elem_of_In in Ha.
  pose proof (demand_ge_weight _ _ Ha Hw). specialize (Hd (arc_src a) (arc_label a)). lia.
Qed.

Lemma arcs_split n t tr :
  wf_net n -> actors n !! t = Some tr ->
  Forall (fun a => 1 <= arc_weight a) (a_input_arcs tr) /\
  Forall (fun a => 1 <= arc_weight a /\ (arc_dst a < length (actors n))%nat) (a_output_arcs tr).
Proof.
  intros Hwf Ht. pose proof (wf_net_arcs _ _ _ Hwf Ht) as Ha.
  apply list.Forall_app in Ha as [Hi Ho]. split.
  - eapply list.Forall_impl; [exact Hi|]. by intros a [? _].
  - eapply list.Forall_impl; [exact Ho|]. by intros a (? & _ & ?).
Qed.


(** The two ways a turn can end. *)
Lemma transition_turn_cases (t : nat) (tr : actor) (n n' : net) (fired : bool) :
  wf_net n -> actors n !! t = Some tr -> transition_turn t n = (n', fired) ->
  (fired = false /\ n' = n) \/
  (fired = true /\ shape n' = shape n /\
     forall i l, Z.of_nat (count_at n' i l) =
       Z.of_nat (count_at n i l) - demand (a_input_arcs tr) i l + supply (a_output_arcs tr) i l).
Proof.
  intros Hwf Ht. destruct (arcs_split _ _ _ Hwf Ht) as [Hin Hout].
  unfold transition_turn. rewrite Ht.
  destruct (bool_decide _ && enabled n tr)%bool; [|intros [= <- <-]; by left].
  destruct (take_inputs _ n []) as [n1|[n1 taken]] eqn:Hti.
  - intros [= <- <-]. left. split; [done|].
    by apply (take_inputs_rollback _ _ _ _ _ Hin eq_refl Hti).
  - intros [= <- <-]. right. split; [done|].
    destruct (take_inputs_inr_count _ _ _ _ _ Hin Hti) as [Hc Hs].
    destruct (put_outputs_count (a_output_arcs tr) (consumed taken) n1) as [Hc' Hs'].
    { eapply list.Forall_impl; [exact Hout|]. intros a [? ?].
      rewrite shape_length, Hs, <- shape_length. done. }
    split; [by rewrite Hs', Hs|]. intros i l. rewrite Hc', Hc. lia.
Qed.

Lemma fires_iff_demand (t : nat) (tr : actor) (n : net) :
  wf_net n -> actors n !! t = Some tr ->
  (transition_turn t n).2 = true <->
  a_kind tr = KTransition /\
  (forall i l, demand (a_input_arcs tr) i l <= Z.of_nat (count_at n i l)).
Proof.
  intros Hwf Ht. destruct (arcs_split _ _ _ Hwf Ht) as [Hin _].
  pose proof (take_inputs_inr_iff _ n [] Hin) as Hiff.
  unfold transition_turn. rewrite Ht. split.
  - destruct (bool_decide _) eqn:Hk; [|done]. apply bool_decide_eq_true in Hk.
    destruct (enabled n tr); [|done]. simpl.
    destruct (take_inputs _ n []) as [n1|[n1 taken]] eqn:Hti; [done|].
    intros _. split; [done|]. apply Hiff. eauto.
  - intros [Hk Hd]. rewrite bool_decide_true by done.
    rewrite (demand_enabled _ _ Hin Hd). simpl.
    destruct (proj2 Hiff Hd) as (n1 & taken & ->). done.
Qed.

Lemma demand_zero arcs i l :
  (i, l) ∉ map (fun a => (arc_src a, arc_label a)) arcs -> demand arcs i l = 0.
Proof.
  induction arcs as [|a arcs IH]; simpl; [done|]. intros Hn.
  rewrite elem_of_cons in Hn. unfold hit.
  rewrite bool_decide_false by (intros [Ha Hl]; apply Hn; left; by rewrite Ha, Hl).
  rewrite IH; [done|]. intros Hin; apply Hn; by right.
Qed.

(** With input arcs on distinct (place, label) pairs, the demand on a
    pair is the weight of its one arc. *)
Lemma demand_distinct arcs i l :
  NoDup (map (fun a => (arc_src a, arc_label a)) arcs) ->
  demand arcs i l = 0 \/
  exists a, a ∈ arcs /\ arc_src a = i /\ arc_label a = l /\ demand arcs i l = arc_weight a.
Proof.
  induction arcs as [|a arcs IH]; simpl; [by left|]. intros Hnd.
  apply list.NoDup_cons in Hnd as [Hn Hnd]. unfold hit. case_bool_decide as Hh.
  - destruct Hh as [<- <-]. right. exists a. rewrite demand_zero by done.
    split; [by left|]. split; [done|]. split; [done|]. lia.
  - destruct (IH Hnd) as [->|(b & Hb & ? & ? & ->)]; [by left|].
    right. exists b. split; [by right|]. done.
Qed.

Lemma enabled_spec n tr :
  enabled n tr = true <->
  forall a, a ∈ a_input_arcs tr -> arc_weight a <= Z.of_nat (count_at n (arc_src a) (arc_label a)).
Proof.
  unfold enabled. rewrite forallb_forall. split; intros H a Ha.
  - apply (bool_decide_eq_true_1 _), H. by apply list_elem_of_In.
  - apply (bool_decide_eq_true_2 _), H. by apply list_elem_of_In.
Qed.

(** ** Totals *)

Fixpoint sum_upto (f : nat -> Z) (k : nat) : Z :=
  match k with O => 0 | S k' => sum_upto f k' + f k' end.

(** The number of tokens of label [l] in the whole net. *)
Definition total (n : net) (l : Z) : Z :=
  sum_upto (fun i => Z.of_nat (count_at n i l)) (length (actors n)).

(** Total weight of the arcs of label [l]. *)
Fixpoint label_weight (arcs : list arc) (l : Z) : Z :=
  match arcs with
  | [] => 0
  | a :: r => (if bool_decide (arc_label a = l) then arc_weight a else 0) + label_weight r l
  end.

Lemma sum_upto_ext f g k : (forall i, (i < k)%nat -> f i = g i) -> sum_upto f k = sum_upto g k.
Proof.
  induction k; simpl; [done|]. intros H.
  rewrite IHk by (intros i Hi; apply H; lia). rewrite H by lia. done.
Qed.

Lemma sum_upto_lin f g h k :
  sum_upto (fun i => f i - g i + h i) k = sum_upto f k - sum_upto g k + sum_upto h k.
Proof. induction k; simpl; lia. Qed.

Lemma sum_upto_hit j al w l k :
  sum_upto (fun i => if hit j al i l then w else 0) k =
  if bool_decide ((j < k)%nat /\ al = l) then w else 0.
Proof.
  induction k as [|k IH]; cbn [sum_upto]; [by rewrite bool_decide_false by lia|].
  rewrite IH. unfold hit.
  repeat case_bool_decide; try lia; exfalso; naive_solver lia.
Qed.

Lemma sum_upto_demand arcs l k :
  Forall (fun a => (arc_src a < k)%nat) arcs ->
  sum_upto (fun i => demand arcs i l) k = label_weight arcs l.
Proof.
  induction 1 as [|a arcs Ha _ IH]; simpl; [by induction k; simpl; [|lia]|].
  rewrite <- IH.
  transitivity (sum_upto (fun i => if hit (arc_src a) (arc_label a) i l then arc_weight a else 0) k
                + sum_upto (fun i => demand arcs i l) k); [clear; induction k; simpl; lia|].
  rewrite sum_upto_hit. repeat case_bool_decide; naive_solver lia.
Qed.

Lemma sum_upto_supply arcs l k :
  Forall (fun a => (arc_dst a < k)%nat) arcs ->
  sum_upto (fun i => supply arcs i l) k = label_weight arcs l.
Proof.
  induction 1 as [|a arcs Ha _ IH]; simpl; [by induction k; simpl; [|lia]|].
  rewrite <- IH.
  transitivity (sum_upto (fun i => if hit (arc_dst a) (arc_label a) i l then arc_weight a else 0) k
                + sum_upto (fun i => supply arcs i l) k); [clear; induction k; simpl; lia|].
  rewrite sum_upto_hit. repeat case_bool_decide; naive_solver lia.
Qed.

(** ** Theorems on firing *)

(** C1. Firing is all-or-nothing.  A turn that does not fire, including
    one whose takes fail half-way and roll back, leaves the net exactly
    as it was.  A turn that fires leaves every arc in place and changes
    the count of every place and label by exactly the output weights
    minus the input weights on that place and label. *)
Theorem transition_turn_all_or_nothing (t : nat) (tr : actor) (n n' : net) (fired : bool) :
  wf_net n -> actors n !! t = Some tr -> transition_turn t n = (n', fired) ->
  (fired = false -> n' = n) /\
  (fired = true -> shape n' = shape n /\
     forall i l, Z.of_nat (count_at n' i l) =
       Z.of_nat (count_at n i l) - demand (a_input_arcs tr) i l + supply (a_output_arcs tr) i l).
Proof.
  intros Hwf Ht Hturn.
  destruct (transition_turn_cases _ _ _ _ _ Hwf Ht Hturn) as [[-> ->]|(-> & Hs & Hc)];
    split; by intros.
Qed.

(** C2. Enablement.  A transition fires in a turn exactly when every
    input place holds, for every label, at least the total weight its
    input arcs from that place and label demand.  When no two input arcs
    share a place and a label, this is the per-arc check [enabled]. *)
Theorem transition_turn_enablement (t : nat) (tr : actor) (n : net) :
  wf_net n -> actors n !! t = Some tr ->
  ((transition_turn t n).2 = true <->
     a_kind tr = KTransition /\
     (forall i l, demand (a_input_arcs tr) i l <= Z.of_nat (count_at n i l))) /\
  (NoDup (map (fun a => (arc_src a, arc_label a)) (a_input_arcs tr)) ->
   ((transition_turn t n).2 = true <-> a_kind tr = KTransition /\ enabled n tr = true)).
Proof.
  intros Hwf Ht. destruct (arcs_split _ _ _ Hwf Ht) as [Hin _].
  split; [by apply fires_iff_demand|]. intros Hnd.
  rewrite fires_iff_demand by done. split; intros [Hk H]; split; try done.
  - by apply demand_enabled.
  - intros i l. rewrite enabled_spec in H.
    destruct (demand_distinct _ i l Hnd) as [->|(a & Ha & <- & <- & ->)]; [lia|].
    by apply H.
Qed.

(** C3. Conservation.  Over the whole net, a firing changes the number
    of tokens of each label by the output weight minus the input weight
    of that label, and a turn that does not fire changes nothing; so a
    transition whose input and output weights agree on a label never
    changes how many tokens of that label the net holds. *)
Theorem transition_turn_total (t : nat) (tr : actor) (n n' : net) (fired : bool) (l : Z) :
  wf_net n -> actors n !! t = Some tr -> transition_turn t n = (n', fired) ->
  total n' l = total n l +
    (if fired then label_weight (a_output_arcs tr) l - label_weight (a_input_arcs tr) l else 0).
Proof.
  intros Hwf Ht Hturn.
  destruct (transition_turn_cases _ _ _ _ _ Hwf Ht Hturn) as [[-> ->]|(-> & Hs & Hc)]; [lia|].
  pose proof (wf_net_arcs _ _ _ Hwf Ht) as Ha. apply list.Forall_app in Ha as [Hi Ho].
  unfold total. rewrite shape_length, Hs, <- shape_length.
  rewrite (sum_upto_ext _ (fun i => Z.of_nat (count_at n i l) - demand (a_input_arcs tr) i l
                                    + supply (a_output_arcs tr) i l)) by (intros; apply Hc).
  rewrite sum_upto_lin, sum_upto_demand, sum_upto_supply; [lia| |].
  - eapply list.Forall_impl; [exact Ho|]. by intros a (_ & _ & ?).
  - eapply list.Forall_impl; [exact Hi|]. by intros a (_ & ? & _).
Qed.

(** ** Building a net *)

(** An arc that fits the net may be added to the inputs or the outputs
    of an actor whose arcs fit. *)
Lemma arcs_ok_snoc m ins outs a :
  Forall (arc_ok m) (ins ++ outs) -> arc_ok m a ->
  Forall (arc_ok m) ((ins ++ [a]) ++ outs) /\ Forall (arc_ok m) (ins ++ outs ++ [a]).
Proof. rewrite !list.Forall_app, !list.Forall_singleton. naive_solver. Qed.

Lemma wf_net_lookup n :
  wf_net n <-> forall j p, actors n !! j = Some p ->
    Forall (arc_ok (length (actors n))) (a_input_arcs p ++ a_output_arcs p).
Proof.
  unfold wf_net, wf_shape, shape. rewrite length_map, list.Forall_lookup. split.
  - intros H j p Hp. apply (H j (a_kind p, a_input_arcs p, a_output_arcs p)).
    by rewrite list_lookup_fmap, Hp.
  - intros H j x Hx. rewrite list_lookup_fmap in Hx.
    destruct (actors n !! j) as [p|] eqn:Hp; [|done]. injection Hx as <-. by apply (H j).
Qed.

Instance wf_net_dec n : Decision (wf_net n).
Proof. unfold wf_net, wf_shape. apply _. Defined.

(** The actors after a successful [connect]: the arc appended to the
    outputs of [src] and to the inputs of [dst], every other actor
    unchanged. *)
Lemma connect_actors (src dst : nat) (w l : Z) (ps pd : actor) (acts : list actor) :
  acts !! src = Some ps -> acts !! dst = Some pd -> src <> dst ->
  let a := mk_arc src dst w l in
  let acts1 := <[src := set_arcs (a_input_arcs ps) (a_output_arcs ps ++ [a]) ps]> acts in
  let pd' := default pd (acts1 !! dst) in
  let acts' := <[dst := set_arcs (a_input_arcs pd' ++ [a]) (a_output_arcs pd') pd']> acts1 in
  length acts' = length acts /\
  acts' !! src = Some (set_arcs (a_input_arcs ps) (a_output_arcs ps ++ [a]) ps) /\
  acts' !! dst = Some (set_arcs (a_input_arcs pd ++ [a]) (a_output_arcs pd) pd) /\
  (forall j, j <> src -> j <> dst -> acts' !! j = acts !! j).
Proof.
  intros Hs Hd Hne a acts1 pd' acts'.
  assert (Hpd : pd' = pd) by (unfold pd', acts1; by rewrite list_lookup_insert_ne, Hd).
  unfold acts'. rewrite Hpd. unfold acts1. split; [by rewrite !length_insert|].
  split; [by rewrite list_lookup_insert_ne, list_lookup_insert_eq by (done || by eapply lookup_lt_Some)|].
  split; [by rewrite list_lookup_insert_eq by (rewrite length_insert; by eapply lookup_lt_Some)|].
  intros j ? ?. by rewrite !list_lookup_insert_ne.
Qed.

(** [connect] fails with a [ConfigurationError] exactly when the
    weight is below 1, an end is missing, or both ends are places or
    both are transitions.  Otherwise it adds the arc at the end of the
    output arcs of its source and of the input arcs of its destination,
    moves no token, and keeps the net well formed. *)
Theorem connect_spec (src dst : nat) (w l : Z) (n : net) :
  wf_net n ->
  match connect src dst w l n with
  | inl e => (exists what, e = ConfigurationError what) /\
      (w < 1 \/ ~ exists ps pd, actors n !! src = Some ps /\ actors n !! dst = Some pd /\
                               is_place ps <> is_place pd)
  | inr n' => wf_net n' /\ 1 <= w /\ (forall i l', count_at n' i l' = count_at n i l') /\
      exists ps pd, actors n !! src = Some ps /\ actors n !! dst = Some pd /\
        actors n' !! src = Some (set_arcs (a_input_arcs ps) (a_output_arcs ps ++ [mk_arc src dst w l]) ps) /\
        actors n' !! dst = Some (set_arcs (a_input_arcs pd ++ [mk_arc src dst w l]) (a_output_arcs pd) pd)
  end.
Proof.
  intros Hwf. unfold connect.
  destruct (actors n !! src) as [ps|] eqn:Hs;
    [|split; [eauto|right; intros (? & ? & ? & _); congruence]].
  destruct (actors n !! dst) as [pd|] eqn:Hd;
    [|split; [eauto|right; intros (? & ? & ? & ? & _); congruence]].
  case_ltb; [split; [eauto|by left]|].
  destruct (Bool.eqb (is_place ps) (is_place pd)) eqn:Hk.
  { apply Bool.eqb_prop in Hk. split; [eauto|right]. intros (? & ? & ? & ? & ?); congruence. }
  assert (Hne : src <> dst) by (intros ->; rewrite Hs in Hd; injection Hd as ->;
                                by rewrite Bool.eqb_reflx in Hk).
  destruct (connect_actors src dst w l ps pd (actors n) Hs Hd Hne) as (Hlen & Hsrc & Hdst & Hoth).
  assert (Hok : arc_ok (length (actors n)) (mk_arc src dst w l))
    by (pose proof (lookup_lt_Some _ _ _ Hs); pose proof (lookup_lt_Some _ _ _ Hd); unfold arc_ok; simpl; lia).
  rewrite wf_net_lookup in Hwf. split; [|split; [lia|split]].
  - apply wf_net_lookup. simpl. rewrite Hlen. intros j p Hp.
    destruct (decide (j = src)) as [->|Hj1]; [|destruct (decide (j = dst)) as [->|Hj2]].
    + rewrite Hsrc in Hp. injection Hp as <-. exact (proj2 (arcs_ok_snoc _ _ _ _ (Hwf _ _ Hs) Hok)).
    + rewrite Hdst in Hp. injection Hp as <-. exact (proj1 (arcs_ok_snoc _ _ _ _ (Hwf _ _ Hd) Hok)).
    + rewrite Hoth in Hp by done. by apply (Hwf j).
  - intros i l'. unfold count_at. simpl.
    destruct (decide (i = src)) as [->|Hj1]; [|destruct (decide (i = dst)) as [->|Hj2]].
    + by rewrite Hsrc, Hs.
    + by rewrite Hdst, Hd.
    + by rewrite Hoth.
  - exists ps, pd. done.
Qed.

(** ** The loop of a transition *)

(** [k] turns of the transition at [t] one after the other: its loop
    when no other actor moves. *)
Fixpoint run_turns (t : nat) (k : nat) (n : net) : net :=
  match k with
  | O => n
  | S k' => run_turns t k' (transition_turn t n).1
  end.

Lemma run_turns_fixed t k n : transition_turn t n = (n, false) -> run_turns t k n = n.
Proof. intros H. induction k as [|k IH]; simpl; [done|]. by rewrite H. Qed.

Lemma run_turns_add t j k n : run_turns t (j + k) n = run_turns t k (run_turns t j n).
Proof. revert n. induction j as [|j IH]; intros n; simpl; [done|]. apply IH. Qed.

(** C19. The firing phase of a transition's loop terminates when some
    place and label lose tokens at every firing (the transition takes
    more of them than it gives back): from a net where that place holds
    [c] tokens of the label, every turn after the first [c] ones fires
    no more, and the loop only polls. *)
Theorem run_turns_terminates t n i l ins outs k :
  wf_net n -> shape n !! t = Some (KTransition, ins, outs) ->
  supply outs i l < demand ins i l ->
  (count_at n i l <= k)%nat ->
  (transition_turn t (run_turns t k n)).2 = false.
Proof.
  intros Hwf Hs Hlt. revert n Hwf Hs. induction k as [|k IH]; intros n Hwf Hs Hc.
  all: assert (Htr : exists tr, actors n !! t = Some tr /\ a_input_arcs tr = ins /\ a_output_arcs tr = outs)
         by (unfold shape in Hs; rewrite list_lookup_fmap in Hs;
             destruct (actors n !! t) as [tr|]; [injection Hs as _ ? ?; eauto|done]);
       destruct Htr as (tr & Ht & Hi & Ho).
  all: destruct (transition_turn t n) as [n' f] eqn:E;
       destruct (transition_turn_cases _ _ _ _ _ Hwf Ht E) as [[-> ->]|(-> & Hsh & Hcnt)].
  - simpl. by rewrite E.
  - specialize (Hcnt i l). rewrite Hi, Ho in Hcnt. lia.
  - simpl. rewrite E; simpl. by rewrite (run_turns_fixed _ _ _ E), E.
  - simpl. rewrite E; simpl. specialize (Hcnt i l). rewrite Hi, Ho in Hcnt. apply IH.
    + unfold wf_net. by rewrite Hsh.
    + by rewrite Hsh.
    + lia.
Qed.
End NetModel.
#[export] Existing Instance wf_net_dec.
