(* ===== verification/Ownership.v ===== *)
(** * Ownership of tokens

    Section 3 of the specification: a token is owned by exactly one
    place's queue at a time and is transferred, never copied, when a
    transition fires; new tokens come from the token registry with fresh
    ids.  This file collects the tokens of a net ([all_tokens]) and shows
    that every operation of [Net] moves them as a multiset: [tryTake]
    and [put] move tokens between a place and the caller, a failed
    firing gives back what it took, and a successful firing consumes its
    inputs, forwards part of them to its outputs and adds freshly minted
    tokens.  The invariant [tokens_owned] (the minted ids in the net are
    pairwise distinct and none exceeds the registry's counter) follows
    and is preserved by every turn of a transition. *)

From S2P Require Import Prelude Observer Registry Net.

Local Open Scope Z_scope.

Section OwnershipModel.
Context `{CS : Constants}.

(** ** The tokens of a place and of a net *)

Definition place_tokens (p : actor) : list token := concat (map snd (a_tokens p)).

Definition all_tokens (n : net) : list token := concat (map place_tokens (actors n)).

(** Tokens minted by the registry have an id above [INITIAL_ID]; tokens
    given as initial contents keep [GENERIC_ID]. *)
Definition minted_ids (ts : list token) : list Z :=
  filter (fun i => INITIAL_ID < i) (map t_id ts).

(** A batch of tokens minted while the counter went from [c] to [c']. *)
Definition fresh_between (c c' : Z) (ts : list token) : Prop :=
  c <= c' /\ NoDup (map t_id ts) /\ Forall (fun t => c < t_id t <= c') ts.

(** The ownership invariant of a net. *)
Definition tokens_owned (n : net) : Prop :=
  INITIAL_ID <= id_counter (tokens_reg n) /\
  NoDup (minted_ids (all_tokens n)) /\
  Forall (fun t => t_id t <= id_counter (tokens_reg n)) (all_tokens n).

Instance tokens_owned_dec n : Decision (tokens_owned n).
Proof. unfold tokens_owned. apply _. Defined.

(** ** Lists updated at one index *)

Section Concat.
Context {B C : Type} (g : B -> list C).

Lemma concat_map_alter (f : B -> B) (i : nat) (l : list B) (x : B) :
  l !! i = Some x -> concat (map g (alter f i l)) ++ g x ≡ₚ g (f x) ++ concat (map g l).
Proof.
  revert i. induction l as [|y l IH]; intros [|i] Hx; simplify_eq/=.
  - solve_Permutation.
  - rewrite <- app_assoc, (IH i Hx). solve_Permutation.
Qed.

Lemma concat_map_insert (i : nat) (l : list B) (x y : B) :
  l !! i = Some x -> concat (map g (<[i := y]> l)) ++ g x ≡ₚ g y ++ concat (map g l).
Proof. rewrite list_insert_alter. apply concat_map_alter. Qed.
End Concat.

(** ** A place *)

Lemma place_tokens_set l q p :
  place_tokens (set_tokens (dict_set l q (a_tokens p)) p) ++ queue p l ≡ₚ q ++ place_tokens p.
Proof. apply dict_concat_set. Qed.

Lemma try_take_tokens l k p ts p' :
  try_take l k p = Some (ts, p') -> ts ++ place_tokens p' ≡ₚ place_tokens p.
Proof.
  intros Ht. destruct (try_take_spec _ _ _ _ _ Ht) as (_ & -> & ->).
  apply (Permutation_app_inv_r (queue p l)).
  rewrite <- app_assoc, place_tokens_set.
  rewrite <- (take_drop (Z.to_nat k) (queue p l)) at 3. solve_Permutation.
Qed.

Lemma put_tokens ts l p : place_tokens (put ts l p) ≡ₚ ts ++ place_tokens p.
Proof.
  apply (Permutation_app_inv_r (queue p l)). unfold put.
  rewrite place_tokens_set. solve_Permutation.
Qed.

Lemma unget_tokens ts l p : place_tokens (unget ts l p) ≡ₚ ts ++ place_tokens p.
Proof.
  apply (Permutation_app_inv_r (queue p l)). unfold unget.
  rewrite place_tokens_set. solve_Permutation.
Qed.

(** ** The net *)

Lemma all_tokens_update i f n p :
  actors n !! i = Some p ->
  all_tokens (update_actor i f n) ++ place_tokens p ≡ₚ place_tokens (f p) ++ all_tokens n.
Proof. apply concat_map_alter. Qed.

Lemma take_at_tokens a n ts n' :
  take_at a n = Some (ts, n') -> ts ++ all_tokens n' ≡ₚ all_tokens n.
Proof.
  intros Ht. destruct (take_at_spec _ _ _ _ Ht) as (p & p' & Hp & Ht' & ->).
  apply (Permutation_app_inv_r (place_tokens p)). unfold all_tokens; simpl.
  rewrite <- app_assoc, (concat_map_insert _ _ _ _ _ Hp), <- (try_take_tokens _ _ _ _ _ Ht').
  solve_Permutation.
Qed.

Lemma put_at_tokens i ts l n :
  (i < length (actors n))%nat -> all_tokens (put_at i ts l n) ≡ₚ ts ++ all_tokens n.
Proof.
  intros Hi. destruct (lookup_lt_is_Some_2 _ _ Hi) as [p Hp].
  apply (Permutation_app_inv_r (place_tokens p)). unfold put_at.
  rewrite (all_tokens_update _ _ _ _ Hp), put_tokens. solve_Permutation.
Qed.

Lemma take_inputs_tokens arcs n taken n' taken' :
  take_inputs arcs n taken = inr (n', taken') ->
  all_tokens n' ++ concat (map snd taken') ≡ₚ all_tokens n ++ concat (map snd taken) /\
  tokens_reg n' = tokens_reg n /\ length (actors n') = length (actors n).
Proof.
  revert n taken. induction arcs as [|a arcs IH]; intros n taken; simpl.
  { by intros [= <- <-]. }
  destruct (take_at a n) as [[ts n1]|] eqn:Ht; [|done]. intros Hti.
  destruct (IH _ _ Hti) as (Hp & Hr & Hl). rewrite Hp, Hr, Hl. simpl.
  pose proof (take_at_tokens _ _ _ _ Ht) as Hp1.
  destruct (take_at_spec _ _ _ _ Ht) as (p & p' & _ & _ & ->). simpl.
  rewrite length_insert. split; [|done].
  rewrite <- Hp1. solve_Permutation.
Qed.

Lemma consumed_tokens taken : consumed taken ≡ₚ concat (map snd taken).
Proof.
  unfold consumed. induction taken as [|x taken IH]; [done|].
  rewrite reverse_cons, map_app, concat_app, IH. simpl. solve_Permutation.
Qed.

Lemma pool_take_perm k l pool :
  (pool_take k l pool).1 ++ (pool_take k l pool).2 ≡ₚ pool.
Proof.
  revert k; induction pool as [|t ps IH]; intros [|k]; simpl; try done.
  case_decide.
  - specialize (IH k). destruct (pool_take k l ps); simpl in *. by rewrite IH.
  - specialize (IH (S k)). destruct (pool_take (S k) l ps); simpl in *.
    rewrite <- IH. solve_Permutation.
Qed.

(** ** Fresh tokens *)

Lemma fresh_between_nil c : fresh_between c c [].
Proof. split; [lia|]. split; constructor. Qed.

Lemma fresh_between_app c c1 c2 ts1 ts2 :
  fresh_between c c1 ts1 -> fresh_between c1 c2 ts2 -> fresh_between c c2 (ts1 ++ ts2).
Proof.
  intros (Hc1 & Hn1 & Hf1) (Hc2 & Hn2 & Hf2). split; [lia|]. split.
  - rewrite map_app. apply list.NoDup_app. split; [done|]. split; [|done].
    intros x Hx1 Hx2. apply list_elem_of_fmap in Hx1 as (t1 & -> & Ht1).
    apply list_elem_of_fmap in Hx2 as (t2 & Heq & Ht2).
    rewrite list.Forall_forall in Hf1, Hf2.
    specialize (Hf1 _ Ht1). specialize (Hf2 _ Ht2). lia.
  - apply Forall_app. split; eapply list.Forall_impl; eauto; simpl; lia.
Qed.

Lemma mint_fresh k l r ts r' :
  mint k l r = (ts, r') ->
  id_counter r' = id_counter r + Z.of_nat k /\ fresh_between (id_counter r) (id_counter r') ts.
Proof.
  revert r ts. induction k as [|k IH]; intros r ts; cbn [mint].
  { intros [= <- <-]. split; [lia|]. apply fresh_between_nil. }
  destruct (token_register (mk_token l GENERIC_ID) r) as [[nid t] r1] eqn:Hreg.
  destruct (mint k l r1) as [ts1 r2] eqn:Hm. intros [= <- <-].
  unfold token_register in Hreg.
  destruct (register_shape _ _ _ _ _ _ Hreg) as (-> & Hc & -> & _).
  destruct (IH _ _ Hm) as [Hk Hf]. split; [lia|].
  apply (fresh_between_app _ (id_counter r1) _ [_]); [|exact Hf].
  split; [lia|]. split; [apply NoDup_singleton|]. constructor; [simpl; lia|constructor].
Qed.

Lemma put_outputs_tokens arcs pool n :
  Forall (fun a => (arc_dst a < length (actors n))%nat) arcs ->
  exists dropped fresh,
    all_tokens (put_outputs arcs pool n) ++ dropped ≡ₚ all_tokens n ++ pool ++ fresh /\
    fresh_between (id_counter (tokens_reg n)) (id_counter (tokens_reg (put_outputs arcs pool n))) fresh.
Proof.
  revert pool n. induction arcs as [|a arcs IH]; intros pool n Hd; simpl.
  { exists pool, []. split; [solve_Permutation|]. apply fresh_between_nil. }
  apply Forall_cons_iff in Hd as [Ha Hd].
  pose proof (pool_take_perm (Z.to_nat (arc_weight a)) (arc_label a) pool) as Hpool.
  destruct (pool_take _ _ pool) as [moved pool'].
  destruct (mint _ _ (tokens_reg n)) as [fresh1 r'] eqn:Hm.
  destruct (mint_fresh _ _ _ _ _ Hm) as [_ Hf1].
  set (n1 := put_at (arc_dst a) (moved ++ fresh1) (arc_label a) (mk_net (actors n) r')).
  assert (Hlen : length (actors n1) = length (actors n)) by (by unfold n1; simpl; rewrite length_alter).
  destruct (IH pool' n1) as (dropped & fresh2 & Hp & Hf2); [by rewrite Hlen|].
  exists dropped, (fresh1 ++ fresh2). split.
  - rewrite Hp. unfold n1. rewrite put_at_tokens by done. simpl in Hpool |- *.
    rewrite <- Hpool. unfold all_tokens; simpl. solve_Permutation.
  - by apply (fresh_between_app _ (id_counter r')).
Qed.

Lemma minted_ids_app l k : minted_ids (l ++ k) = minted_ids l ++ minted_ids k.
Proof. unfold minted_ids. by rewrite map_app, list.filter_app. Qed.

Lemma filter_all {A} (P : A -> Prop) `{forall x, Decision (P x)} (l : list A) :
  (forall x, x ∈ l -> P x) -> filter P l = l.
Proof.
  induction l as [|x l IH]; intros Hl; [done|].
  rewrite list.filter_cons_True by (apply Hl; by left).
  f_equal. apply IH. intros y Hy. apply Hl. by right.
Qed.

Lemma minted_ids_perm l k : l ≡ₚ k -> minted_ids l ≡ₚ minted_ids k.
Proof. unfold minted_ids. intros ->. done. Qed.

(** [n'] holds the tokens of [n] less some dropped ones, plus a batch
    minted in between. *)
Definition moves (n n' : net) : Prop :=
  exists dropped fresh,
    all_tokens n' ++ dropped ≡ₚ all_tokens n ++ fresh /\
    fresh_between (id_counter (tokens_reg n)) (id_counter (tokens_reg n')) fresh.

Lemma moves_refl n : moves n n.
Proof. exists [], []. split; [done|]. apply fresh_between_nil. Qed.

Lemma moves_trans n1 n2 n3 : moves n1 n2 -> moves n2 n3 -> moves n1 n3.
Proof.
  intros (d1 & f1 & Hp1 & Hf1) (d2 & f2 & Hp2 & Hf2).
  exists (d2 ++ d1), (f1 ++ f2). split; [|by eapply fresh_between_app].
  rewrite app_assoc, Hp2, <- app_assoc, (Permutation_app_comm f2 d1), app_assoc, Hp1.
  solve_Permutation.
Qed.

(** The invariant survives any change that moves the tokens. *)
Lemma owned_transfer n n' : moves n n' -> tokens_owned n -> tokens_owned n'.
Proof.
  intros (dropped & fresh & Hp & Hc & Hnf & Hf) (H0 & Hnd & Hb). rewrite list.Forall_forall in Hb, Hf.
  split; [lia|]. split.
  - apply (list.NoDup_app _ (minted_ids dropped)). rewrite <- minted_ids_app.
    rewrite (minted_ids_perm _ _ Hp), minted_ids_app.
    assert (Hm : minted_ids fresh = map t_id fresh).
    { unfold minted_ids. apply filter_all. intros x.
      rewrite list_elem_of_fmap. intros (t & -> & Ht). specialize (Hf t Ht). lia. }
    rewrite Hm. apply list.NoDup_app. split; [done|]. split; [|done].
    intros x Hx1 Hx2. unfold minted_ids in Hx1.
    apply list_elem_of_filter in Hx1 as [_ Hx1]. apply list_elem_of_fmap in Hx1 as (t1 & -> & Ht1).
    apply list_elem_of_fmap in Hx2 as (t2 & Heq & Ht2).
    specialize (Hb _ Ht1). specialize (Hf _ Ht2). lia.
  - rewrite list.Forall_forall. intros t Ht.
    assert (Ht' : t ∈ all_tokens n ++ fresh) by (rewrite <- Hp; apply elem_of_app; by left).
    apply elem_of_app in Ht' as [Ht'|Ht']; [specialize (Hb _ Ht')|specialize (Hf _ Ht')]; lia.
Qed.

(** ** A turn of a transition *)

(** Tokens are transferred, never copied: after a turn of a transition
    the net holds the tokens it held, less the consumed tokens the turn
    did not forward, plus tokens minted during the turn with fresh ids;
    a turn that does not fire changes nothing. *)
Lemma transition_turn_moves_tokens t n n' fired :
  wf_net n -> transition_turn t n = (n', fired) -> moves n n' /\ (fired = false -> n' = n).
Proof.
  intros Hwf. unfold transition_turn.
  destruct (actors n !! t) as [tr|] eqn:Ht; [|intros [= <- <-]; split; [apply moves_refl|done]].
  destruct (arcs_split _ _ _ Hwf Ht) as [Hin Hout].
  destruct (bool_decide _ && enabled n tr)%bool; [|intros [= <- <-]; split; [apply moves_refl|done]].
  destruct (take_inputs _ n []) as [n1|[n1 taken]] eqn:Hti.
  { rewrite (take_inputs_rollback _ _ _ _ _ Hin eq_refl Hti).
    intros [= <- <-]; split; [apply moves_refl|done]. }
  intros [= <- <-]. split; [|done].
  destruct (take_inputs_tokens _ _ _ _ _ Hti) as (Hp1 & Hr1 & Hl1).
  destruct (put_outputs_tokens (a_output_arcs tr) (consumed taken) n1) as (dropped & fresh & Hp & Hf).
  { eapply list.Forall_impl; [exact Hout|]. intros a [_ ?]. by rewrite Hl1. }
  exists dropped, fresh. rewrite Hr1 in Hf. split; [|exact Hf].
  rewrite Hp, consumed_tokens. simpl in Hp1. rewrite app_nil_r in Hp1.
  rewrite app_assoc, Hp1. done.
Qed.

(** The ownership invariant is preserved by every turn of a
    transition of a well-formed net: minted ids stay pairwise distinct
    and bounded by the token registry's counter. *)
Theorem transition_turn_tokens_owned t n :
  wf_net n -> tokens_owned n -> tokens_owned (transition_turn t n).1.
Proof.
  intros Hwf Ho. destruct (transition_turn t n) as [n' fired] eqn:Htt.
  destruct (transition_turn_moves_tokens _ _ _ _ Hwf Htt) as [Hm _].
  exact (owned_transfer _ _ Hm Ho).
Qed.
End OwnershipModel.
#[export] Existing Instance tokens_owned_dec.
