(* ===== verification/Observed.v ===== *)
(** * Observers attached to places

    The docstrings of [observer.py] say who calls an observer:
    [inc_token_count] "is called by places when a new token [is] acquired
    or sent", and [save] "is called by output transitions when they are
    enabled".  The code of the places and transitions is not under
    [src/]; this file adds those calls to the turn of a transition, as
    section 4.3 of the specification describes them: when the transition
    is enabled it asks the observer of each input place to save a record
    (its requester is the transition's name), then it fires, and every
    place it took tokens from or put tokens into reports the change of
    its count to its observer.  The observers are the ones of [Observer],
    with their lock: a call that finds the lock held suspends the turn
    ([Blocked]), and a comparative observer that finds a diverging value
    raises ([Raised]) before any token moves.  A rolled-back take is not
    reported: in the code it reports the tokens taken and then those put
    back, which leaves the same counters.  The reports of a
    [SpecialPlace]'s producer and consumer use [inc_all] too
    ([Scheduler.special_turn]).

    [erase] forgets the observers of a net; the transition turn commutes
    with it and the observer calls leave it unchanged, so an observed
    turn moves the tokens exactly as [transition_turn] does
    ([observed_turn_erase]).  [release_locks] is what a cancellation
    of the tasks does to the observers: it releases every lock. *)

From S2P Require Import Prelude Observer Registry Net Ownership.

Local Open Scope Z_scope.
Local Open Scope aio_scope.

Section ObservedModel.
Context `{CS : Constants}.

(** ** Running an observer of the net *)

Definition set_observer (o : option observer) (p : actor) : actor :=
  mk_actor (a_kind p) (a_name p) (a_id p) (a_label p) (a_tokens p) (a_input_arcs p)
    (a_output_arcs p) o.

Definition outcome_map {S S' A} (f : S -> S') (r : outcome S A) : outcome S' A :=
  match r with
  | Done a s => Done a (f s)
  | Raised e s => Raised e (f s)
  | Blocked s => Blocked (f s)
  end.

(** Runs [m] on the observer of the actor at [i]; an actor without an
    observer is left as it is. *)
Definition with_observer (i : nat) (m : aio observer bool) : aio net bool :=
  fun n =>
    match actors n !! i with
    | Some p =>
        match a_observer p with
        | Some o => outcome_map (fun o' => update_actor i (set_observer (Some o')) n) (m o)
        | None => Done false n
        end
    | None => Done false n
    end.

(** [save(requester)] on the observer of every place in [srcs], in order. *)
Fixpoint save_all (srcs : list nat) (requester : string) (now : float) : aio net unit :=
  match srcs with
  | [] => aret tt
  | i :: srcs' =>
      let* _ := with_observer i (save requester now) in save_all srcs' requester now
  end.

(** [inc_token_count(label, inc)] on the observer of each place of the
    list. *)
Fixpoint inc_all (incs : list (nat * Z * Z)) : aio net unit :=
  match incs with
  | [] => aret tt
  | (i, l, inc) :: incs' =>
      let* _ := with_observer i (let* _ := inc_token_count l inc in aret false) in inc_all incs'
  end.

(** The changes of count a firing reports: the input places lose their
    arc weights, the output places gain theirs, in connection order. *)
Definition firing_incs (tr : actor) : list (nat * Z * Z) :=
  map (fun a => (arc_src a, arc_label a, - arc_weight a)) (a_input_arcs tr) ++
  map (fun a => (arc_dst a, arc_label a, arc_weight a)) (a_output_arcs tr).

(** One turn of the transition at [t] with its observer calls, at clock
    value [now]; the result says whether it fired. *)
Definition observed_turn (now : float) (t : nat) : aio net bool :=
  fun n =>
    match actors n !! t with
    | Some tr =>
        if (bool_decide (a_kind tr = KTransition) && enabled n tr)%bool then
          (let* _ := save_all (map arc_src (a_input_arcs tr)) (a_name tr) now in
           fun n1 =>
             let '(n2, fired) := transition_turn t n1 in
             if fired then (let* _ := inc_all (firing_incs tr) in aret true) n2
             else Done false n2) n
        else Done false n
    | None => Done false n
    end.

(** One turn of the transition at [t] per clock value in [times], in
    order; the first exception or suspension stops the run. *)
Fixpoint observed_turns (t : nat) (times : list float) : aio net unit :=
  match times with
  | [] => aret tt
  | now :: times' => let* _ := observed_turn now t in observed_turns t times'
  end.

(** ** What a firing leaves alone *)

(** Everything of an actor but its tokens. *)
Definition frame (p : actor) : pt_kind * string * list arc * list arc * option observer :=
  (a_kind p, a_name p, a_input_arcs p, a_output_arcs p, a_observer p).

Definition frames (n : net) := map frame (actors n).

Lemma frames_update i f n :
  (forall p, frame (f p) = frame p) -> frames (update_actor i f n) = frames n.
Proof.
  intros Hf. unfold frames, update_actor; simpl. apply list_eq. intros j.
  rewrite !list_lookup_fmap, list_lookup_alter. case_decide; subst; [|done].
  by destruct (actors n !! j); simpl; [rewrite Hf|].
Qed.

Lemma frames_take a n ts n' : take_at a n = Some (ts, n') -> frames n' = frames n.
Proof.
  intros Ht. destruct (take_at_spec _ _ _ _ Ht) as (p & p' & Hp & Ht' & ->).
  destruct (try_take_spec _ _ _ _ _ Ht') as (_ & _ & ->).
  unfold frames; simpl. rewrite list_fmap_insert. simpl.
  apply list_insert_id. by rewrite list_lookup_fmap, Hp.
Qed.

Lemma frames_put i ts l n : frames (put_at i ts l n) = frames n.
Proof. apply frames_update. by intros []. Qed.

Lemma frames_rollback taken n : frames (rollback taken n) = frames n.
Proof.
  unfold rollback. revert n. induction taken as [|x taken IH]; intros n; [done|]. simpl.
  rewrite IH. apply frames_update. by intros [].
Qed.

Lemma frames_take_inputs arcs n taken :
  frames (match take_inputs arcs n taken with inl n' => n' | inr (n', _) => n' end) = frames n.
Proof.
  revert n taken. induction arcs as [|a arcs IH]; intros n taken; simpl; [done|].
  destruct (take_at a n) as [[ts n1]|] eqn:Ht; [|apply frames_rollback].
  rewrite IH. by eapply frames_take.
Qed.

Lemma frames_put_outputs arcs pool n : frames (put_outputs arcs pool n) = frames n.
Proof.
  revert pool n. induction arcs as [|a arcs IH]; intros pool n; simpl; [done|].
  destruct (pool_take _ _ pool) as [moved pool']. destruct (mint _ _ _) as [fresh r'].
  by rewrite IH, frames_put.
Qed.

Lemma frames_transition_turn t n : frames (transition_turn t n).1 = frames n.
Proof.
  unfold transition_turn. destruct (actors n !! t) as [tr|]; [|done].
  destruct (bool_decide _ && enabled n tr)%bool; [|done].
  pose proof (frames_take_inputs (a_input_arcs tr) n []) as H.
  destruct (take_inputs _ n []) as [n1|[n1 taken]]; simpl; [done|].
  by rewrite frames_put_outputs.
Qed.

Lemma count_at_set_observer i o n j l :
  count_at (update_actor i (set_observer o) n) j l = count_at n j l.
Proof.
  unfold count_at, update_actor; simpl. rewrite list_lookup_alter.
  case_decide; subst; [|done]. by destruct (actors n !! j).
Qed.

Lemma shape_set_observer i o n : shape (update_actor i (set_observer o) n) = shape n.
Proof. apply shape_update. by intros []. Qed.

(** ** The observer and the name of an actor *)

Definition observer_of (n : net) (i : nat) : option observer := actors n !! i ≫= a_observer.

Definition name_of (n : net) (i : nat) : option string := a_name <$> actors n !! i.

Lemma with_observer_some i m n o :
  observer_of n i = Some o ->
  with_observer i m n = outcome_map (fun o' => update_actor i (set_observer (Some o')) n) (m o).
Proof.
  unfold observer_of, with_observer. destruct (actors n !! i); simpl; [|done]. by intros ->.
Qed.

Lemma with_observer_none i m n : observer_of n i = None -> with_observer i m n = Done false n.
Proof.
  unfold observer_of, with_observer. destruct (actors n !! i); simpl; [|done]. by intros ->.
Qed.

Lemma frames_lookup n n' i :
  frames n' = frames n -> frame <$> actors n' !! i = frame <$> actors n !! i.
Proof. unfold frames. intros H. rewrite <- !list_lookup_fmap. change (fmap frame (actors n')) with (map frame (actors n')). by rewrite H. Qed.

Lemma observer_of_frames n n' i : frames n' = frames n -> observer_of n' i = observer_of n i.
Proof.
  intros H. pose proof (frames_lookup _ _ i H) as Hi. unfold observer_of.
  destruct (actors n' !! i), (actors n !! i); simpl in *; try done.
  injection Hi as _ _ _ _ Ho. by rewrite Ho.
Qed.

Lemma name_of_frames n n' i : frames n' = frames n -> name_of n' i = name_of n i.
Proof.
  intros H. pose proof (frames_lookup _ _ i H) as Hi. unfold name_of.
  destruct (actors n' !! i), (actors n !! i); simpl in *; try done.
  injection Hi as _ Hn. by rewrite Hn.
Qed.

Lemma observer_of_set i o n j :
  is_Some (actors n !! i) ->
  observer_of (update_actor i (set_observer (Some o)) n) j =
    if decide (j = i) then Some o else observer_of n j.
Proof.
  intros [p Hp]. unfold observer_of, update_actor; simpl.
  destruct (decide (j = i)) as [->|Hne].
  - rewrite list_lookup_alter, Hp, decide_True by done. reflexivity.
  - by rewrite list_lookup_alter_ne by done.
Qed.

Lemma name_of_set i o n j : name_of (update_actor i (set_observer o) n) j = name_of n j.
Proof.
  unfold name_of, update_actor; simpl. rewrite list_lookup_alter.
  case_decide; subst; [|done]. by destruct (actors n !! j).
Qed.

Lemma observer_of_is_Some n i o : observer_of n i = Some o -> is_Some (actors n !! i).
Proof. unfold observer_of. destruct (actors n !! i); by simpl. Qed.

Lemma set_observer_twice i o o' n :
  update_actor i (set_observer o') (update_actor i (set_observer o) n) = update_actor i (set_observer o') n.
Proof. unfold update_actor; simpl. rewrite list_alter_alter_eq. f_equal. Qed.

(** A call that completes on the observer of [i]. *)
Lemma with_observer_done i (m : aio observer bool) n o a o' :
  observer_of n i = Some o -> m o = Done a o' ->
  with_observer i m n = Done a (update_actor i (set_observer (Some o')) n).
Proof. intros Ho Hm. by rewrite (with_observer_some _ _ _ _ Ho), Hm. Qed.

(** ** Observer calls do not move tokens *)

(** Two nets with the same structure and the same token counts. *)
Definition same_marking (n n' : net) : Prop :=
  shape n' = shape n /\ forall i l, count_at n' i l = count_at n i l.

Instance same_marking_equiv : Equivalence same_marking.
Proof.
  split.
  - by intros n.
  - intros n n' [Hs Hc]. split; [done|]. intros i l. by rewrite Hc.
  - intros n1 n2 n3 [Hs1 Hc1] [Hs2 Hc2]. split; [congruence|]. intros i l. by rewrite Hc2, Hc1.
Qed.

Instance count_at_proper : Proper (same_marking ==> eq ==> eq ==> eq) count_at.
Proof. intros n n' [_ Hc] i ? <- l ? <-. by rewrite Hc. Qed.

Instance shape_proper : Proper (same_marking ==> eq) shape.
Proof. by intros n n' [Hs _]. Qed.

Lemma same_marking_set_observer i o n : same_marking n (update_actor i (set_observer o) n).
Proof. split; [apply shape_set_observer|intros; apply count_at_set_observer]. Qed.

Lemma with_observer_same i m : preserves same_marking (with_observer i m).
Proof.
  intros n. unfold with_observer. destruct (actors n !! i); [|done].
  destruct (a_observer a) as [o|]; [|done].
  destruct (m o); apply same_marking_set_observer.
Qed.

Lemma save_all_same srcs requester now : preserves same_marking (save_all srcs requester now).
Proof.
  induction srcs as [|i srcs IH]; [by intros n|].
  apply abind_preserves; [apply _|apply with_observer_same|by intros _].
Qed.

Lemma inc_all_same incs : preserves same_marking (inc_all incs).
Proof.
  induction incs as [|[[i l] inc] incs IH]; [by intros n|].
  apply abind_preserves; [apply _|apply with_observer_same|by intros _].
Qed.

Lemma with_observer_never_raises i m : never_raises m -> never_raises (with_observer i m).
Proof.
  intros Hm n e n'. unfold with_observer. destruct (actors n !! i); [|done].
  destruct (a_observer a) as [o|]; [|done]. specialize (Hm o e).
  destruct (m o); simpl; [done| |done]. intros [= -> _]. by apply (Hm s).
Qed.

Lemma inc_token_count_never_raises l inc : never_raises (inc_token_count l inc).
Proof. intros o e o'. unfold inc_token_count, with_lock. by destruct (o_locked o). Qed.

(** Reporting a change of count never raises. *)
Lemma inc_all_never_raises incs : never_raises (inc_all incs).
Proof.
  induction incs as [|[[i l] inc] incs IH]; [apply aret_never_raises|].
  apply abind_never_raises; [|by intros _].
  apply with_observer_never_raises, abind_never_raises;
    [apply inc_token_count_never_raises|intros; apply aret_never_raises].
Qed.



(** ** A net without its observers *)

(** The net with every observer removed: what [Net] reads and writes. *)
Definition erase (n : net) : net := mk_net (map (set_observer None) (actors n)) (tokens_reg n).

Lemma erase_lookup n i : actors (erase n) !! i = set_observer None <$> actors n !! i.
Proof. apply list_lookup_fmap. Qed.

(** Updating the actors commutes with removing the observers when the
    update does. *)
Lemma erase_update i f g n :
  (forall p, set_observer None (f p) = g (set_observer None p)) ->
  erase (update_actor i f n) = update_actor i g (erase n).
Proof.
  intros Hfg. unfold erase, update_actor; simpl. f_equal. apply list_eq. intros j.
  destruct (decide (j = i)) as [->|Hne].
  - rewrite list_lookup_fmap, !list_lookup_alter, ?decide_True, list_lookup_fmap by done.
    destruct (actors n !! i); simpl; [by rewrite Hfg|done].
  - by rewrite list_lookup_fmap, !list_lookup_alter_ne, list_lookup_fmap by done.
Qed.

Lemma erase_set_observer i o n : erase (update_actor i (set_observer o) n) = erase n.
Proof.
  rewrite (erase_update _ _ id) by (by intros []). unfold update_actor, erase; simpl.
  by rewrite list_alter_id.
Qed.

Lemma count_at_erase n i l : count_at (erase n) i l = count_at n i l.
Proof. unfold count_at. rewrite erase_lookup. by destruct (actors n !! i). Qed.

Lemma enabled_erase n tr : enabled (erase n) tr = enabled n tr.
Proof.
  unfold enabled. induction (a_input_arcs tr) as [|a l IH]; simpl; [done|].
  by rewrite count_at_erase, IH.
Qed.

Lemma try_take_set_observer l w o p :
  try_take l w (set_observer o p) = prod_map id (set_observer o) <$> try_take l w p.
Proof. unfold try_take. by destruct (w <=? _). Qed.

Lemma take_at_erase a n : take_at a (erase n) = prod_map id erase <$> take_at a n.
Proof.
  unfold take_at. rewrite erase_lookup. destruct (actors n !! arc_src a) as [p|]; [|done]. simpl.
  rewrite try_take_set_observer. destruct (try_take _ _ p) as [[ts p']|]; [|done]. simpl.
  unfold erase; simpl. by rewrite list_fmap_insert.
Qed.

Lemma put_at_erase i ts l n : put_at i ts l (erase n) = erase (put_at i ts l n).
Proof. unfold put_at. symmetry. apply erase_update. by intros []. Qed.

Lemma rollback_erase taken n : rollback taken (erase n) = erase (rollback taken n).
Proof.
  unfold rollback. revert n. induction taken as [|x taken IH]; intros n; [done|]. simpl.
  rewrite <- IH. f_equal. unfold unget_at. symmetry. apply erase_update. by intros [].
Qed.

Lemma take_inputs_erase arcs n taken :
  take_inputs arcs (erase n) taken = sum_map erase (prod_map erase id) (take_inputs arcs n taken).
Proof.
  revert n taken. induction arcs as [|a arcs IH]; intros n taken; [done|]. simpl.
  rewrite take_at_erase. destruct (take_at a n) as [[ts n1]|]; simpl; [apply IH|].
  by rewrite rollback_erase.
Qed.

Lemma put_outputs_erase arcs pool n : put_outputs arcs pool (erase n) = erase (put_outputs arcs pool n).
Proof.
  revert pool n. induction arcs as [|a arcs IH]; intros pool n; [done|]. simpl.
  destruct (pool_take _ _ pool) as [moved pool']. destruct (mint _ _ (tokens_reg n)) as [fresh r'].
  rewrite <- IH, <- put_at_erase. done.
Qed.

(** A turn of a transition does not read the observers. *)
Lemma transition_turn_erase t n : transition_turn t (erase n) = prod_map erase id (transition_turn t n).
Proof.
  unfold transition_turn. rewrite erase_lookup. destruct (actors n !! t) as [tr|]; [|done]. simpl.
  assert (He : enabled (erase n) (set_observer None tr) = enabled n tr)
    by (rewrite enabled_erase; by destruct tr).
  rewrite He. replace (a_kind (set_observer None tr)) with (a_kind tr) by by destruct tr.
  destruct (bool_decide _ && enabled n tr)%bool; [|done].
  replace (a_input_arcs (set_observer None tr)) with (a_input_arcs tr) by by destruct tr.
  replace (a_output_arcs (set_observer None tr)) with (a_output_arcs tr) by by destruct tr.
  rewrite take_inputs_erase. destruct (take_inputs _ n []) as [n1|[n1 taken]]; simpl; [done|].
  by rewrite put_outputs_erase.
Qed.

Lemma all_tokens_erase n : all_tokens (erase n) = all_tokens n.
Proof. unfold all_tokens, erase; simpl. rewrite map_map. reflexivity. Qed.

Lemma shape_erase n : shape (erase n) = shape n.
Proof. unfold shape, erase; simpl. rewrite map_map. apply map_ext. by intros []. Qed.

(** Nets equal but for their observers have the same tokens. *)
Lemma moves_erase n n1 n2 : erase n1 = erase n2 -> moves n n1 -> moves n n2.
Proof.
  intros He (dropped & fresh & Hp & Hf). exists dropped, fresh.
  rewrite <- (all_tokens_erase n2), <- He, all_tokens_erase.
  replace (tokens_reg n2) with (tokens_reg (erase n2)) by done. rewrite <- He. done.
Qed.

Lemma same_marking_erase n1 n2 : erase n1 = erase n2 -> same_marking n1 n2.
Proof.
  intros He. split.
  - by rewrite <- (shape_erase n2), <- He, shape_erase.
  - intros i l. by rewrite <- (count_at_erase n2), <- He, count_at_erase.
Qed.

(** The calls on observers change nothing but observers. *)
Definition same_erasure (n n' : net) : Prop := erase n' = erase n.

Instance same_erasure_equiv : Equivalence same_erasure.
Proof.
  unfold same_erasure. split; [by intros ?|by intros ?? ->|intros n1 n2 n3 H1 H2; congruence].
Qed.

Lemma with_observer_erase i m : preserves same_erasure (with_observer i m).
Proof.
  intros n. unfold with_observer, same_erasure. destruct (actors n !! i); [|done].
  destruct (a_observer a) as [o|]; [|done]. destruct (m o); apply erase_set_observer.
Qed.

Lemma save_all_erase srcs requester now : preserves same_erasure (save_all srcs requester now).
Proof.
  induction srcs as [|i srcs IH]; [by intros n|].
  apply abind_preserves; [apply _|apply with_observer_erase|by intros _].
Qed.

Lemma inc_all_erase incs : preserves same_erasure (inc_all incs).
Proof.
  induction incs as [|[[i l] inc] incs IH]; [by intros n|].
  apply abind_preserves; [apply _|apply with_observer_erase|by intros _].
Qed.

(** An observed turn moves the tokens the plain turn moves: when it
    completes it leaves the net of [transition_turn] up to observers and
    reports its firing; an exception leaves the net it started from up
    to observers; a suspension leaves one or the other. *)
Lemma observed_turn_erase now t n :
  match observed_turn now t n with
  | Done fired n' => erase n' = erase (transition_turn t n).1 /\ fired = (transition_turn t n).2
  | Raised _ n' => erase n' = erase n
  | Blocked n' => erase n' = erase n \/ erase n' = erase (transition_turn t n).1
  end.
Proof.
  unfold observed_turn. destruct (actors n !! t) as [tr|] eqn:Ht.
  2: { unfold transition_turn. by rewrite Ht. }
  destruct (bool_decide _ && enabled n tr)%bool eqn:Hg.
  2: { unfold transition_turn. by rewrite Ht, Hg. }
  unfold abind at 1. pose proof (save_all_erase (map arc_src (a_input_arcs tr)) (a_name tr) now n) as Hsv.
  destruct (save_all _ _ _ n) as [[] n1|e n1|n1]; simpl in Hsv; [|done|by left].
  assert (Htt : prod_map erase id (transition_turn t n1) = prod_map erase id (transition_turn t n))
    by (by rewrite <- !transition_turn_erase, Hsv).
  destruct (transition_turn t n1) as [n2 fired], (transition_turn t n) as [n' f].
  pose proof (f_equal fst Htt) as Hn2. pose proof (f_equal snd Htt) as Hf.
  cbn [fst snd prod_map id] in Hn2, Hf. subst f. simpl. destruct fired; [|done].
  pose proof (inc_all_erase (firing_incs tr) n2) as Hi. pose proof (inc_all_never_raises (firing_incs tr) n2) as Hr.
  unfold abind. destruct (inc_all _ n2) as [[] n3|e n3|n3]; simpl in Hi.
  - split; [|done]. unfold same_erasure in Hi. congruence.
  - by destruct (Hr e n3).
  - right. unfold same_erasure in Hi. congruence.
Qed.


(** ** Releasing the locks of cancelled tasks *)

(** A task suspended inside [async with self._lock] ([with_lock]) holds
    the lock; when it is cancelled, [CancelledError] leaves the block and
    the lock is released.  The cancellations of a run ([terminate()],
    [_int_handler], [asyncio.run] after an exception) cancel every task,
    and a lock is held only by a suspended task, so each of them
    releases every lock of the net. *)
Definition unlock_observer (p : actor) : actor :=
  set_observer (set_locked false <$> a_observer p) p.

Definition release_locks (n : net) : net :=
  mk_net (map unlock_observer (actors n)) (tokens_reg n).

Lemma erase_release_locks n : erase (release_locks n) = erase n.
Proof. unfold erase, release_locks; simpl. by rewrite map_map. Qed.

Lemma release_locks_twice n : release_locks (release_locks n) = release_locks n.
Proof.
  unfold release_locks; simpl. rewrite map_map. f_equal. apply map_ext. intros p.
  unfold unlock_observer. by destruct (a_observer p).
Qed.

Lemma observer_of_release_locks n i :
  observer_of (release_locks n) i = set_locked false <$> observer_of n i.
Proof.
  unfold observer_of, release_locks; simpl. rewrite list_lookup_fmap.
  by destruct (actors n !! i).
Qed.

(** ** Invariants of the observers *)

(** Each observer of [n'] is related by [R] to the observer of the same
    actor in [n], and the actors without an observer are the same. *)
Definition obs_rel (R : relation observer) (n n' : net) : Prop :=
  forall i, option_Forall2 R (observer_of n i) (observer_of n' i).

Instance obs_rel_preorder R `{!PreOrder R} : PreOrder (obs_rel R).
Proof. split; [intros n i; reflexivity|intros n1 n2 n3 H1 H2 i; etrans; [apply H1|apply H2]]. Qed.

Lemma obs_rel_frames R `{!Reflexive R} n n' : frames n' = frames n -> obs_rel R n n'.
Proof. intros Hf i. rewrite (observer_of_frames _ _ _ Hf). reflexivity. Qed.

Lemma obs_rel_release_locks (R : relation observer) n :
  (forall o, R o (set_locked false o)) -> obs_rel R n (release_locks n).
Proof. intros H i. rewrite observer_of_release_locks. destruct (observer_of n i); constructor; apply H. Qed.

Lemma outcome_state_map {S S' A} (f : S -> S') (r : outcome S A) :
  outcome_state (outcome_map f r) = f (outcome_state r).
Proof. by destruct r. Qed.

Section ObsRel.
Context (R : relation observer) `{!PreOrder R}.

Lemma with_observer_obs_rel i m : preserves R m -> preserves (obs_rel R) (with_observer i m).
Proof.
  intros Hm n j. unfold with_observer.
  destruct (actors n !! i) as [p|] eqn:Hp; [|reflexivity].
  destruct (a_observer p) as [o|] eqn:Ho; [|reflexivity].
  assert (Hi : is_Some (actors n !! i)) by (rewrite Hp; eauto).
  rewrite outcome_state_map, observer_of_set by done. case_decide as Hj; [|reflexivity].
  subst j. unfold observer_of. rewrite Hp. simpl. rewrite Ho. constructor. apply Hm.
Qed.

Lemma save_all_obs_rel srcs requester now :
  preserves R (save requester now) -> preserves (obs_rel R) (save_all srcs requester now).
Proof.
  intros Hs. induction srcs as [|i srcs IH]; [apply aret_preserves; apply _|].
  apply abind_preserves; [apply _| |by intros _]. by apply with_observer_obs_rel.
Qed.

Lemma inc_all_obs_rel incs :
  (forall l inc, preserves R (inc_token_count l inc)) -> preserves (obs_rel R) (inc_all incs).
Proof.
  intros Hi. induction incs as [|[[i l] inc] incs IH]; [apply aret_preserves; apply _|].
  apply abind_preserves; [apply _| |by intros _]. apply with_observer_obs_rel.
  apply abind_preserves; [apply _|apply Hi|intros; apply aret_preserves; apply _].
Qed.

(** A turn changes each observer as its calls do. *)
Lemma observed_turn_obs_rel now t :
  (forall requester, preserves R (save requester now)) ->
  (forall l inc, preserves R (inc_token_count l inc)) ->
  preserves (obs_rel R) (observed_turn now t).
Proof.
  intros Hs Hi n. unfold observed_turn. destruct (actors n !! t) as [tr|]; [|reflexivity].
  destruct (_ && _)%bool; [|reflexivity].
  pose proof (save_all_obs_rel (map arc_src (a_input_arcs tr)) (a_name tr) now (Hs _) n) as H1.
  unfold abind at 1. destruct (save_all _ _ _ n) as [[] n1|e n1|n1]; simpl in H1 |- *; [|done|done].
  pose proof (obs_rel_frames R n1 _ (frames_transition_turn t n1)) as H2.
  destruct (transition_turn t n1) as [n2 []]; simpl in H2 |- *; [|by etrans].
  etrans; [exact H1|]. etrans; [exact H2|].
  apply (abind_preserves _ _ _ (inc_all_obs_rel _ Hi) (fun _ => aret_preserves _ true)).
Qed.

(** The same for the calls that complete or raise: a suspended call may
    leave an observer in a state [R] does not relate to the first. *)
Lemma with_observer_completes i m : completes R m -> completes (obs_rel R) (with_observer i m).
Proof.
  intros Hm n. unfold with_observer.
  destruct (actors n !! i) as [p|] eqn:Hp; [|reflexivity].
  destruct (a_observer p) as [o|] eqn:Ho; [|reflexivity].
  assert (Hi : is_Some (actors n !! i)) by (rewrite Hp; eauto).
  specialize (Hm o). destruct (m o) as [a o'|e o'|o']; simpl in *; try done;
    intros j; rewrite observer_of_set by done; case_decide as Hj; try reflexivity;
    subst j; unfold observer_of; rewrite Hp; simpl; rewrite Ho; by constructor.
Qed.

Lemma save_all_completes srcs requester now :
  completes R (save requester now) -> completes (obs_rel R) (save_all srcs requester now).
Proof.
  intros Hs. induction srcs as [|i srcs IH]; [apply aret_completes; apply _|].
  apply abind_completes; [apply _| |by intros _]. by apply with_observer_completes.
Qed.

Lemma inc_all_completes incs :
  (forall l inc, completes R (inc_token_count l inc)) -> completes (obs_rel R) (inc_all incs).
Proof.
  intros Hi. induction incs as [|[[i l] inc] incs IH]; [apply aret_completes; apply _|].
  apply abind_completes; [apply _| |by intros _]. apply with_observer_completes.
  apply abind_completes; [apply _|apply Hi|intros; apply aret_completes; apply _].
Qed.

Lemma observed_turn_completes now t :
  (forall requester, completes R (save requester now)) ->
  (forall l inc, completes R (inc_token_count l inc)) ->
  completes (obs_rel R) (observed_turn now t).
Proof.
  intros Hs Hi n. unfold observed_turn. destruct (actors n !! t) as [tr|]; [|reflexivity].
  destruct (_ && _)%bool; [|reflexivity].
  pose proof (save_all_completes (map arc_src (a_input_arcs tr)) (a_name tr) now (Hs _) n) as H1.
  unfold abind at 1. destruct (save_all _ _ _ n) as [[] n1|e n1|n1]; simpl in H1 |- *; [|done|done].
  pose proof (obs_rel_frames R n1 _ (frames_transition_turn t n1)) as H2.
  destruct (transition_turn t n1) as [n2 []]; simpl in H2 |- *; [|by etrans].
  pose proof (inc_all_completes (firing_incs tr) Hi n2) as H3. unfold abind.
  destruct (inc_all _ n2); simpl in H3 |- *; try done; (etrans; [exact H1|]; etrans; [exact H2|exact H3]).
Qed.
End ObsRel.

(** ** A lock left held *)

(** The observer of the actor at [j] holds its lock. *)
Definition lock_held (j : nat) (n : net) : Prop :=
  exists o, observer_of n j = Some o /\ o_locked o = true.

(** A call on an observer whose lock is held changes nothing. *)
Definition lock_kept (o o' : observer) : Prop := o_locked o = true -> o' = o.

Instance lock_kept_preorder : PreOrder lock_kept.
Proof.
  split; [by intros o _|]. intros o1 o2 o3 H1 H2 Hl. specialize (H1 Hl). subst o2. by apply H2.
Qed.

Lemma save_lock_kept requester now : preserves lock_kept (save requester now).
Proof. intros o Hl. unfold save. by rewrite with_lock_held. Qed.

Lemma inc_token_count_lock_kept l inc : preserves lock_kept (inc_token_count l inc).
Proof. intros o Hl. unfold inc_token_count. by rewrite with_lock_held. Qed.

Lemma lock_held_obs_rel j n n' : obs_rel lock_kept n n' -> lock_held j n -> lock_held j n'.
Proof.
  intros H (o & Ho & Hl). specialize (H j). rewrite Ho in H.
  destruct (observer_of n' j) as [o'|] eqn:Ho'; inversion H as [? ? Hk|]; subst.
  exists o'. split; [done|]. by rewrite (Hk Hl).
Qed.

(** No turn releases a lock another turn left held. *)
Lemma observed_turn_lock_held j now t n :
  lock_held j n -> lock_held j (outcome_state (observed_turn now t n)).
Proof.
  apply lock_held_obs_rel, observed_turn_obs_rel; [apply _|intros; apply save_lock_kept|].
  intros; apply inc_token_count_lock_kept.
Qed.

(** The first save a transition asks for, on a plain observer with a
    record limit, suspends the turn before any token moves and leaves
    the observer's lock held. *)
Lemma observed_turn_record_limit now t n tr j srcs o :
  actors n !! t = Some tr -> a_kind tr = KTransition -> enabled n tr = true ->
  map arc_src (a_input_arcs tr) = j :: srcs ->
  observer_of n j = Some o -> o_class o = PlainObserver -> o_locked o = false -> 0 < o_record_limit o ->
  exists n', observed_turn now t n = Blocked n' /\ same_marking n n' /\ lock_held j n'.
Proof.
  intros Ht Hk Hen Hsrc Ho Hc Hl Hlim.
  destruct (save_limit_blocked o (a_name tr) now Hc Hl Hlim) as (o' & Hs & Hl' & _).
  exists (update_actor j (set_observer (Some o')) n). split; [|split].
  - unfold observed_turn. rewrite Ht, Hk, Hen, bool_decide_true by done. cbn [andb].
    apply abind_Blocked. rewrite Hsrc. cbn [save_all].
    apply abind_Blocked. by rewrite (with_observer_some _ _ _ _ Ho), Hs.
  - apply same_marking_set_observer.
  - exists o'. split; [|done]. rewrite observer_of_set, decide_True by (done || exact (observer_of_is_Some _ _ _ Ho)). done.
Qed.
(** Releasing the locks keeps the places, the tokens and the names. *)
Lemma release_locks_same n :
  shape (release_locks n) = shape n /\ (forall i l, count_at (release_locks n) i l = count_at n i l) /\
  (forall i, name_of (release_locks n) i = name_of n i).
Proof.
  split; [by rewrite <- shape_erase, erase_release_locks, shape_erase|]. split.
  - intros i l. by rewrite <- count_at_erase, erase_release_locks, count_at_erase.
  - intros i. unfold name_of, release_locks; simpl. rewrite list_lookup_fmap. by destruct (actors n !! i).
Qed.

End ObservedModel.
#[export] Existing Instance same_marking_equiv.
#[export] Existing Instance count_at_proper.
#[export] Existing Instance shape_proper.
#[export] Existing Instance same_erasure_equiv.
#[export] Existing Instance obs_rel_preorder.
#[export] Existing Instance lock_kept_preorder.
