(* ===== verification/PTRegistry.v ===== *)
(** * The registry of places and transitions ([src/soyutnet/registry.py],
    class [PTRegistry])

    The registry holds references to the actors of the net's store, so
    its entries are [(id, index)] pairs and the label of an entry is read
    from the store ([pt_labelled]).  The post-register callback of
    [PTRegistry.register] mutates the registered object: the model
    applies it to the actor in the store ([pt_post_register]).
    [get_loops] yields one loop per entry, in directory order, and
    [get_merged_records] concatenates the observers' records in that
    order. *)

From S2P Require Import Prelude Observer Registry Net.
From stdpp Require Import pretty.

Local Open Scope Z_scope.

Section PTRegistryModel.
Context `{CS : Constants}.

(** ** Operations *)

(** [obj.get_label()] of the object a reference points to. *)
Definition pt_labelled (n : net) : Labelled nat :=
  fun i => match actors n !! i with Some p => a_label p | None => GENERIC_LABEL end.

Definition set_id (nid : Z) (p : actor) : actor :=
  mk_actor (a_kind p) (a_name p) nid (a_label p) (a_tokens p) (a_input_arcs p)
    (a_output_arcs p) (a_observer p).

Definition set_name (name : string) (p : actor) : actor :=
  mk_actor (a_kind p) name (a_id p) (a_label p) (a_tokens p) (a_input_arcs p)
    (a_output_arcs p) (a_observer p).

(** [f"p{pt._id}"] for a [Place] (a [SpecialPlace] is one),
    [f"t{pt._id}"] for a [Transition]. *)
Definition default_name (k : pt_kind) (nid : Z) : string :=
  match k with
  | KPlace | KSpecialPlace => String.append "p" (pretty nid)
  | KTransition => String.append "t" (pretty nid)
  end.

(** The callback of [PTRegistry.register]: sets [pt._id], and the
    default name when [pt._name] is empty. *)
Definition pt_post_register (nid : Z) (p : actor) : actor :=
  let p1 := set_id nid p in
  if String.eqb (a_name p1) "" then set_name (default_name (a_kind p1) nid) p1 else p1.

(** [PTRegistry.register(pt)] for the actor at index [i] of the store. *)
Definition pt_register (i : nat) (n : net) (reg : registry nat) : Z * net * registry nat :=
  let '(nid, _, reg') := @register nat (pt_labelled n) None i reg in
  (nid, update_actor i (pt_post_register nid) n, reg').

(** Registers the actors at the given indices, in order. *)
Fixpoint pt_register_all (idxs : list nat) (n : net) (reg : registry nat) : net * registry nat :=
  match idxs with
  | [] => (n, reg)
  | i :: idxs' =>
      let '(_, n', reg') := pt_register i n reg in pt_register_all idxs' n' reg'
  end.

(** [get_loops()]: the actor of each loop [_loop(entry[1])] it yields. *)
Definition get_loops (reg : registry nat) : list nat := map snd (entries None reg).

Definition is_special (p : actor) : bool :=
  match a_kind p with KSpecialPlace => true | _ => false end.

(** [get_merged_records(ignore_special_places)] *)
Definition get_merged_records (ignore_special_places : bool) (reg : registry nat) (n : net)
    : list (string * record) :=
  concat (map (fun e =>
    match actors n !! e.2 with
    | Some p =>
        if (ignore_special_places && is_special p)%bool then []
        else match a_observer p with
             | None => []
             | Some o => map (fun r => (a_name p, r)) (o_records o)
             end
    | None => []
    end) (entries None reg)).

(** Two unnamed places, each with an observer holding one record at
    time [t]. *)
Definition observed_place (t : float) : actor :=
  mk_actor KPlace "" 0 0 [] [] []
    (Some (set_records [mk_record t [] "p"] (observer_init 10 (9, 11) false "p"))).

Definition observed_net : net :=
  mk_net [observed_place 2%float; observed_place 1%float] (new_registry (A:=token)).

(** ** Lemmas *)

Lemma default_name_inj k1 k2 n1 n2 :
  default_name k1 n1 = default_name k2 n2 -> n1 = n2.
Proof.
  destruct k1, k2; simpl; intros H; injection H as H; try (by apply (inj pretty));
    discriminate.
Qed.

Lemma pt_register_spec i n reg nid n' reg' :
  pt_register i n reg = (nid, n', reg') ->
  nid = id_counter reg + 1 /\ id_counter reg' = nid /\
  actors n' = alter (pt_post_register nid) i (actors n) /\ tokens_reg n' = tokens_reg n /\
  entries None reg' ≡ₚ (nid, i) :: entries None reg.
Proof.
  unfold pt_register. destruct (@register nat (pt_labelled n) None i reg) as [[nid0 o] r0] eqn:Hr.
  intros [= <- <- <-].
  destruct (@register_shape nat (pt_labelled n) _ _ _ _ _ _ Hr) as (-> & Hc & -> & _).
  split; [done|]. split; [done|]. split; [done|]. split; [done|].
  by apply (@register_all_entries nat (pt_labelled n) None i reg).
Qed.

Lemma pt_post_register_fields nid p :
  a_id (pt_post_register nid p) = nid /\
  a_name (pt_post_register nid p) =
    (if String.eqb (a_name p) "" then default_name (a_kind p) nid else a_name p) /\
  a_kind (pt_post_register nid p) = a_kind p /\
  a_tokens (pt_post_register nid p) = a_tokens p /\
  a_input_arcs (pt_post_register nid p) = a_input_arcs p /\
  a_output_arcs (pt_post_register nid p) = a_output_arcs p.
Proof. unfold pt_post_register; simpl. by destruct (String.eqb (a_name p) ""). Qed.

(** What registering the actors at [idxs] in order does: the [k]-th gets
    the id [counter + k + 1] through the callback, the others are left
    alone, the counter advances by the number of registrations, and every
    registration adds one loop. *)
Lemma pt_register_all_spec idxs n reg :
  NoDup idxs -> Forall (fun i => (i < length (actors n))%nat) idxs ->
  let '(n', reg') := pt_register_all idxs n reg in
  get_loops reg' ≡ₚ rev idxs ++ get_loops reg /\
  id_counter reg' = id_counter reg + Z.of_nat (length idxs) /\
  (forall k i, idxs !! k = Some i -> exists p, actors n !! i = Some p /\
     actors n' !! i = Some (pt_post_register (id_counter reg + Z.of_nat k + 1) p)) /\
  (forall j, j ∉ idxs -> actors n' !! j = actors n !! j).
Proof.
  revert n reg. induction idxs as [|i idxs IH]; intros n reg Hnd Hin.
  { simpl. split; [done|]. split; [lia|]. split; [by intros k i Hk|done]. }
  apply list.NoDup_cons in Hnd as [Hni Hnd]. inversion Hin as [|? ? Hi Hin']; subst.
  cbn [pt_register_all].
  destruct (pt_register i n reg) as [[nid n1] reg1] eqn:Hr.
  destruct (pt_register_spec _ _ _ _ _ _ Hr) as (Hnid & Hc1 & Ha1 & _ & Hp1).
  assert (Hlen : length (actors n1) = length (actors n)) by (by rewrite Ha1, length_alter).
  assert (Hfr : Forall (fun i => (i < length (actors n1))%nat) idxs) by (by rewrite Hlen).
  specialize (IH n1 reg1 Hnd Hfr).
  destruct (pt_register_all idxs n1 reg1) as [n' reg'].
  destruct IH as (Hl & Hc & Hk & Hj).
  assert (Hother : forall j, j <> i -> actors n1 !! j = actors n !! j)
    by (intros j Hji; rewrite Ha1; by apply list_lookup_alter_ne).
  split; [|split; [|split]].
  - unfold get_loops in *. rewrite Hl, Hp1. simpl.
    by rewrite <- app_assoc.
  - rewrite Hc, Hc1, Hnid. simpl. lia.
  - intros [|k] j Hkj; simpl in Hkj.
    + injection Hkj as <-. destruct (lookup_lt_is_Some_2 _ _ Hi) as [p Hp].
      exists p. split; [done|]. rewrite Hj by done. rewrite Ha1, list_lookup_alter_eq, Hp.
      simpl. do 2 f_equal. lia.
    + destruct (Hk k j Hkj) as (p & Hp & Hp').
      assert (j <> i) by (intros ->; apply Hni; by eapply list_elem_of_lookup_2).
      exists p. rewrite <- Hother by done. split; [done|]. rewrite Hp'. do 2 f_equal. lia.
  - intros j Hj'. rewrite elem_of_cons in Hj'.
    rewrite Hj by naive_solver. apply Hother. naive_solver.
Qed.

(** The membership of a flattened map, in stdpp's [∈]. *)
Lemma elem_of_concat_map {B C} (f : B -> list C) (l : list B) y :
  y ∈ concat (map f l) <-> exists x, x ∈ l /\ y ∈ f x.
Proof.
  rewrite <- flat_map_concat_map, list_elem_of_In, in_flat_map.
  by setoid_rewrite list_elem_of_In.
Qed.

(** ** Theorems *)

(** C16. Registering the actors at distinct valid indices [idxs] in a fresh
    [PTRegistry]: [get_loops] yields one loop per registered actor, each
    exactly once; the counter ends at [INITIAL_ID + length idxs]; and
    the [k]-th registered actor is the store's actor as the callback
    leaves it with the id [INITIAL_ID + k + 1]. *)
Theorem pt_register_all_fresh idxs n :
  NoDup idxs -> Forall (fun i => (i < length (actors n))%nat) idxs ->
  let '(n', reg') := pt_register_all idxs n new_registry in
  get_loops reg' ≡ₚ idxs /\ id_counter reg' = INITIAL_ID + Z.of_nat (length idxs) /\
  (forall k i, idxs !! k = Some i -> exists p, actors n !! i = Some p /\
     actors n' !! i = Some (pt_post_register (INITIAL_ID + Z.of_nat k + 1) p)).
Proof.
  intros Hnd Hin. pose proof (pt_register_all_spec idxs n new_registry Hnd Hin) as H.
  destruct (pt_register_all idxs n new_registry) as [n' reg'].
  destruct H as (Hl & Hc & Hk & _). simpl in Hc, Hk.
  rewrite Hl. split; [|split; [done|exact Hk]].
  unfold get_loops, entries; simpl. rewrite app_nil_r. symmetry. apply Permutation_rev.
Qed.

(** Two different actors registered in a fresh [PTRegistry] get
    different ids, and different default names when neither had a name. *)
Theorem pt_register_all_names_distinct idxs n n' reg' i j p q p' q' :
  NoDup idxs -> Forall (fun i => (i < length (actors n))%nat) idxs ->
  pt_register_all idxs n new_registry = (n', reg') ->
  i ∈ idxs -> j ∈ idxs -> i <> j ->
  actors n !! i = Some p -> actors n !! j = Some q ->
  actors n' !! i = Some p' -> actors n' !! j = Some q' ->
  a_id p' <> a_id q' /\ (a_name p = "" -> a_name q = "" -> a_name p' <> a_name q').
Proof.
  intros Hnd Hin Hr Hi Hj Hij Hp Hq Hp' Hq'.
  pose proof (pt_register_all_fresh idxs n Hnd Hin) as H. rewrite Hr in H.
  destruct H as (_ & _ & Hk).
  apply list_elem_of_lookup in Hi as [ki Hki], Hj as [kj Hkj].
  assert (ki <> kj) by (intros ->; congruence).
  destruct (Hk _ _ Hki) as (p0 & Hp0 & Hp0'), (Hk _ _ Hkj) as (q0 & Hq0 & Hq0').
  rewrite Hp in Hp0; rewrite Hq in Hq0; injection Hp0 as <-; injection Hq0 as <-.
  rewrite Hp' in Hp0'; rewrite Hq' in Hq0'; injection Hp0' as ->; injection Hq0' as ->.
  destruct (pt_post_register_fields (INITIAL_ID + Z.of_nat ki + 1) p) as (Hidp & Hnp & _).
  destruct (pt_post_register_fields (INITIAL_ID + Z.of_nat kj + 1) q) as (Hidq & Hnq & _).
  split; [rewrite Hidp, Hidq; lia|].
  intros Hep Heq. rewrite Hnp, Hnq, Hep, Heq. simpl.
  intros Hd%default_name_inj. lia.
Qed.

(** C26. [get_merged_records] holds exactly the pairs [(name, record)] of
    the records of the observers of the registered actors, skipping the
    special places when asked to. *)
Theorem get_merged_records_spec ign reg n nm r :
  (nm, r) ∈ get_merged_records ign reg n <->
  exists nid i p o, (nid, i) ∈ entries None reg /\ actors n !! i = Some p /\
    (ign && is_special p)%bool = false /\ a_observer p = Some o /\
    r ∈ o_records o /\ nm = a_name p.
Proof.
  unfold get_merged_records. rewrite elem_of_concat_map. split.
  - intros ([nid i] & He & Hx); simpl in Hx.
    destruct (actors n !! i) as [p|] eqn:Hp; [|by apply elem_of_nil in Hx].
    destruct (ign && is_special p)%bool eqn:Hs; [by apply elem_of_nil in Hx|].
    destruct (a_observer p) as [o|] eqn:Ho; [|by apply elem_of_nil in Hx].
    apply list_elem_of_fmap in Hx as (r' & [= -> ->] & Hr).
    by exists nid, i, p, o.
  - intros (nid & i & p & o & He & Hp & Hs & Ho & Hr & ->).
    exists (nid, i). split; [done|]. simpl. rewrite Hp, Hs, Ho.
    apply list_elem_of_fmap. by exists r.
Qed.

End PTRegistryModel.

(** ** Witnesses *)

#[local] Existing Instance example_constants.

Lemma pt_register_all_fresh_witness :
  NoDup [0%nat; 1%nat] /\ Forall (fun i => (i < length (actors observed_net))%nat) [0%nat; 1%nat] /\
  let '(n', reg') := pt_register_all [0%nat; 1%nat] observed_net new_registry in
  get_loops reg' ≡ₚ [0%nat; 1%nat] /\ id_counter reg' = INITIAL_ID + 2 /\
  (forall k i, [0%nat; 1%nat] !! k = Some i -> exists p, actors observed_net !! i = Some p /\
     actors n' !! i = Some (pt_post_register (INITIAL_ID + Z.of_nat k + 1) p)).
Proof.
  assert (Hnd : NoDup [0%nat; 1%nat]) by (apply (bool_decide_unpack _); vm_compute; reflexivity).
  assert (Hin : Forall (fun i => (i < length (actors observed_net))%nat) [0%nat; 1%nat])
    by (repeat constructor; simpl; lia).
  split; [exact Hnd|]. split; [exact Hin|].
  exact (pt_register_all_fresh [0%nat; 1%nat] observed_net Hnd Hin).
Defined.

Lemma pt_register_all_names_distinct_witness :
  a_id (pt_post_register 1 (observed_place 2%float)) <> a_id (pt_post_register 2 (observed_place 1%float)) /\
  a_name (pt_post_register 1 (observed_place 2%float)) <> a_name (pt_post_register 2 (observed_place 1%float)).
Proof.
  assert (Hnd : NoDup [0%nat; 1%nat]) by (apply (bool_decide_unpack _); vm_compute; reflexivity).
  assert (Hin : Forall (fun i => (i < length (actors observed_net))%nat) [0%nat; 1%nat])
    by (repeat constructor; simpl; lia).
  destruct (pt_register_all_names_distinct [0%nat; 1%nat] observed_net
    (fst (pt_register_all [0%nat; 1%nat] observed_net new_registry))
    (snd (pt_register_all [0%nat; 1%nat] observed_net new_registry))
    0 1 (observed_place 2%float) (observed_place 1%float)
    (pt_post_register 1 (observed_place 2%float)) (pt_post_register 2 (observed_place 1%float))
    Hnd Hin ltac:(reflexivity) ltac:(left) ltac:(right; left) ltac:(lia)
    ltac:(reflexivity) ltac:(reflexivity) ltac:(vm_compute; reflexivity)
    ltac:(vm_compute; reflexivity)) as [Hid Hnm].
  split; [exact Hid|]. exact (Hnm eq_refl eq_refl).
Defined.
