(* ===== verification/Graphviz.v ===== *)
(** * The Graphviz export of [PTRegistry] ([src/soyutnet/registry.py])

    [PTRegistry._get_graphviz_node_definition] formats one node with
    [str.format]; [PTRegistry.generate_graph] writes a [digraph] with one
    node per registered place or transition and one edge per input arc,
    each on its own line.  [str.format] is modelled on the ["{}"] fields
    and the ["{{"]/["}}"] escapes the code uses ([py_format]); the line
    separator [os.linesep] is the POSIX one.  [Arc.get_graphviz_definition]
    belongs to [pt_common.py], which is not under [src/]: the export is
    defined for any rendering [arc_def] of an arc that writes one line. *)

From S2P Require Import Prelude Observer Registry Net PTRegistry.
From stdpp Require Import pretty.
From Stdlib Require Import Ascii.

Local Open Scope string_scope.

(** ** Characters and [str.format] *)

Definition dq : string := String (ascii_of_nat 34) EmptyString.
Definition eol : string := String (ascii_of_nat 10) EmptyString.
Definition indent : string := String (ascii_of_nat 9) EmptyString.

(** [fmt.format(arg0, arg1, ...)] for a template whose fields are all ["{}"]:
    [None] is the [IndexError] of a missing argument or the [ValueError]
    of an unmatched brace; extra arguments are ignored. *)
Fixpoint py_format (fmt : string) (args : list string) : option string :=
  match fmt with
  | EmptyString => Some EmptyString
  | String "{" (String "}" rest) =>
      match args with
      | a :: args' => option_map (String.append a) (py_format rest args')
      | [] => None
      end
  | String "{" (String "{" rest) => option_map (String "{") (py_format rest args)
  | String "}" (String "}" rest) => option_map (String "}") (py_format rest args)
  | String "{" _ | String "}" _ => None
  | String c rest => option_map (String c) (py_format rest args)
  end.

(** ** Nodes *)

(** [node_fmt] of [_get_graphviz_node_definition]. *)
Definition node_fmt : string :=
  "{}_{} [shape=" ++ dq ++ "{}" ++ dq ++ ",fontsize=" ++ dq ++ "{}" ++ dq ++
  ",style=" ++ dq ++ "filled" ++ dq ++ ",color=" ++ dq ++ "{}" ++ dq ++
  ",fillcolor=" ++ dq ++ "{}" ++ dq ++ ",label=" ++ dq ++ dq ++
  ",xlabel=" ++ dq ++ "{}" ++ dq ++ ",height=" ++ dq ++ "{}" ++ dq ++
  ",width=" ++ dq ++ "{}" ++ dq ++ ",penwidth={}];".

Definition is_transition (p : actor) : bool :=
  match a_kind p with KTransition => true | _ => false end.

(** The arguments of [node_fmt.format(...)]: the name, [t], the shape,
    the font size, the colours, the name again, the height, the width
    and the pen width, as [str] renders them. *)
Definition node_args (p : actor) (t : Z) : list string :=
  let tr := is_transition p in
  [a_name p; pretty t; if tr then "box" else "circle"; "20";
   if tr then "#cccccc" else "#000000"; if tr then "#000000" else "#dddddd";
   a_name p; if tr then "0.25" else "1"; if tr then "1.25" else "1"; "3"].

(** [_get_graphviz_node_definition(pt, t)] *)
Definition graphviz_node_definition (p : actor) (t : Z) : string :=
  default EmptyString (py_format node_fmt (node_args p t)).

(** ** The graph *)

Section Graph.
Variable arc_def : arc -> Z -> string.

(** The body of the loop of [generate_graph] for one registry entry. *)
Definition graph_entry (n : net) (acc : string * string) (e : Z * nat) : string * string :=
  let '(gv_nodes, gv_arcs) := acc in
  match actors n !! e.2 with
  | Some p =>
      (gv_nodes ++ indent ++ indent ++ graphviz_node_definition p 0 ++ eol,
       foldl (fun gv_arcs a => gv_arcs ++ indent ++ indent ++ arc_def a 0 ++ eol)
         gv_arcs (a_input_arcs p))
  | None => acc
  end.

(** [generate_graph(net_name)] *)
Definition generate_graph (net_name : string) (reg : registry nat) (n : net) : string :=
  let '(gv_nodes, gv_arcs) := foldl (graph_entry n) (EmptyString, EmptyString) (entries None reg) in
  "digraph " ++ net_name ++ " {" ++ eol ++
  indent ++ "subgraph cluster_0 {" ++ eol ++
  indent ++ indent ++ "penwidth=3;" ++ eol ++
  gv_nodes ++ gv_arcs ++
  indent ++ "}" ++ eol ++
  indent ++ "clusterrank=none;" ++ eol ++
  "}" ++ eol.
End Graph.

(** ** The graph in closed form *)

(** The actors the registry entries point to, in directory order. *)
Definition graph_actors (reg : registry nat) (n : net) : list actor :=
  omap (fun e => actors n !! e.2) (entries None reg).

(** What the export reads of an actor: its kind, name and input arcs. *)
Definition graph_view (p : actor) : pt_kind * string * list arc :=
  (a_kind p, a_name p, a_input_arcs p).


(** The number of line separators in a string. *)
Fixpoint count_eol (s : string) : nat :=
  match s with
  | EmptyString => 0
  | String c s' => (if Ascii.eqb c (ascii_of_nat 10) then 1 else 0) + count_eol s'
  end.

Section GraphProofs.
Variable arc_def : arc -> Z -> string.

Definition node_line (p : actor) : string := indent ++ indent ++ graphviz_node_definition p 0 ++ eol.
Definition arc_line (a : arc) : string := indent ++ indent ++ arc_def a 0 ++ eol.
Definition arc_lines (p : actor) : string := str_concat (map arc_line (a_input_arcs p)).

Lemma foldl_arc_lines acc arcs :
  foldl (fun gv_arcs a => gv_arcs ++ indent ++ indent ++ arc_def a 0 ++ eol) acc arcs =
  acc ++ str_concat (map arc_line arcs).
Proof.
  revert acc. induction arcs as [|a arcs IH]; intros acc; simpl; [by rewrite str_app_nil_r|].
  rewrite IH, str_app_assoc. done.
Qed.

Lemma foldl_graph_entry n es acc_n acc_a :
  foldl (graph_entry arc_def n) (acc_n, acc_a) es =
  (acc_n ++ str_concat (map node_line (omap (fun e => actors n !! e.2) es)),
   acc_a ++ str_concat (map arc_lines (omap (fun e => actors n !! e.2) es))).
Proof.
  revert acc_n acc_a. induction es as [|e es IH]; intros acc_n acc_a; simpl.
  { by rewrite !str_app_nil_r. }
  destruct (actors n !! e.2) as [p|]; simpl; rewrite IH; [|done].
  rewrite foldl_arc_lines. unfold str_concat, node_line, arc_lines; simpl.
  rewrite !str_app_assoc. done.
Qed.

(** The node definition, field by field: [py_format] fills the ten
    fields of [node_fmt] in order. *)
Lemma graphviz_node_definition_eq p t :
  graphviz_node_definition p t =
  a_name p ++ "_" ++ pretty t ++ " [shape=" ++ dq ++ (if is_transition p then "box" else "circle") ++
  dq ++ ",fontsize=" ++ dq ++ "20" ++ dq ++ ",style=" ++ dq ++ "filled" ++ dq ++ ",color=" ++ dq ++
  (if is_transition p then "#cccccc" else "#000000") ++ dq ++ ",fillcolor=" ++ dq ++
  (if is_transition p then "#000000" else "#dddddd") ++ dq ++ ",label=" ++ dq ++ dq ++
  ",xlabel=" ++ dq ++ a_name p ++ dq ++ ",height=" ++ dq ++ (if is_transition p then "0.25" else "1") ++
  dq ++ ",width=" ++ dq ++ (if is_transition p then "1.25" else "1") ++ dq ++ ",penwidth=3];".
Proof. unfold graphviz_node_definition, node_args. destruct (is_transition p); reflexivity. Qed.

Lemma count_eol_app s1 s2 : count_eol (s1 ++ s2) = (count_eol s1 + count_eol s2)%nat.
Proof. induction s1 as [|c s1 IH]; [done|]. simpl. rewrite IH. lia. Qed.

Lemma count_eol_concat_map {A} (f : A -> string) (k : A -> nat) (l : list A) :
  (forall x, x ∈ l -> count_eol (f x) = k x) ->
  count_eol (str_concat (map f l)) = foldr (fun x acc => (k x + acc)%nat) 0%nat l.
Proof.
  induction l as [|x l IH]; intros Hk; [done|]. unfold str_concat in *. simpl.
  rewrite count_eol_app, Hk, IH; [done| |by left]. intros y Hy. apply Hk. by right.
Qed.

Lemma count_eol_node_line p : count_eol (a_name p) = 0%nat -> count_eol (node_line p) = 1%nat.
Proof.
  intros Hn. unfold node_line. rewrite graphviz_node_definition_eq, !count_eol_app, Hn.
  destruct (is_transition p); reflexivity.
Qed.

Lemma count_eol_arc_lines p :
  (forall a, count_eol (arc_def a 0) = 0%nat) -> count_eol (arc_lines p) = length (a_input_arcs p).
Proof.
  intros Ha. unfold arc_lines. rewrite (count_eol_concat_map _ (fun _ => 1%nat)).
  - induction (a_input_arcs p) as [|a arcs IH]; [done|]. simpl in *. lia.
  - intros a _. unfold arc_line. rewrite !count_eol_app, Ha. done.
Qed.

(** The node line and the arc lines of an actor depend only on what
    [graph_view] reads of it. *)
Definition view_actor (v : pt_kind * string * list arc) : actor :=
  mk_actor v.1.1 v.1.2 0 0 [] v.2 [] None.

Lemma node_line_view p : node_line p = node_line (view_actor (graph_view p)).
Proof. by destruct p. Qed.

Lemma arc_lines_view p : arc_lines p = arc_lines (view_actor (graph_view p)).
Proof. by destruct p. Qed.

Lemma map_graph_actors {B} (g : pt_kind * string * list arc -> B) reg n :
  map (fun p => g (graph_view p)) (graph_actors reg n) =
  map g (omap (fun e => map graph_view (actors n) !! e.2) (entries None reg)).
Proof.
  unfold graph_actors. induction (entries None reg) as [|e es IH]; [done|]. csimpl.
  rewrite list_lookup_fmap. destruct (actors n !! e.2); csimpl; by rewrite IH.
Qed.
Lemma generate_graph_eq name reg n :
  generate_graph arc_def name reg n =
  "digraph " ++ name ++ " {" ++ eol ++ indent ++ "subgraph cluster_0 {" ++ eol ++
  indent ++ indent ++ "penwidth=3;" ++ eol ++
  str_concat (map node_line (graph_actors reg n)) ++ str_concat (map arc_lines (graph_actors reg n)) ++
  indent ++ "}" ++ eol ++ indent ++ "clusterrank=none;" ++ eol ++ "}" ++ eol.
Proof. unfold generate_graph, graph_actors. rewrite foldl_graph_entry. reflexivity. Qed.

Lemma foldr_one {A} (l : list A) : foldr (fun _ acc => (1 + acc)%nat) 0%nat l = length l.
Proof. induction l as [|x l IH]; [done|]. exact (f_equal S IH). Qed.

(** The exported graph has exactly one line per registered place or
    transition, one per input arc, and six lines of frame, when no name
    and no arc rendering contains a line separator. *)
Theorem generate_graph_lines name reg n :
  count_eol name = 0%nat ->
  Forall (fun p => count_eol (a_name p) = 0%nat) (graph_actors reg n) ->
  (forall a, count_eol (arc_def a 0) = 0%nat) ->
  count_eol (generate_graph arc_def name reg n) =
    (6 + length (graph_actors reg n) +
     foldr (fun p acc => length (a_input_arcs p) + acc) 0 (graph_actors reg n))%nat.
Proof.
  intros Hname Hps Ha. rewrite list.Forall_forall in Hps.
  rewrite generate_graph_eq, !count_eol_app, Hname.
  rewrite (count_eol_concat_map _ (fun _ => 1%nat)) by (intros p Hp; by apply count_eol_node_line, Hps).
  rewrite (count_eol_concat_map _ (fun p => length (a_input_arcs p)))
    by (intros p _; by apply count_eol_arc_lines).
  rewrite foldr_one. simpl. lia.
Qed.

(** The export is a function of the topology only: two nets whose
    actors have the same kinds, names and input arcs give the same graph,
    whatever tokens they hold. *)
Theorem generate_graph_topology name reg n1 n2 :
  map graph_view (actors n1) = map graph_view (actors n2) ->
  generate_graph arc_def name reg n1 = generate_graph arc_def name reg n2.
Proof.
  intros Hv. rewrite !generate_graph_eq.
  rewrite !(map_ext node_line (fun p => node_line (view_actor (graph_view p)))) by apply node_line_view.
  rewrite !(map_ext arc_lines (fun p => arc_lines (view_actor (graph_view p)))) by apply arc_lines_view.
  rewrite !(map_graph_actors (fun v => node_line (view_actor v))).
  rewrite !(map_graph_actors (fun v => arc_lines (view_actor v))). by rewrite Hv.
Qed.
End GraphProofs.

(** ** Names given by the registry can collide *)

Section Collision.
Context `{CS : Constants}.

(** An unnamed place registered first and a place the user named
    ["p<INITIAL_ID + 1>"] (["p1"] when [INITIAL_ID] is 0). *)
Definition colliding_net : net :=
  mk_net [mk_actor KPlace "" 0 0 [] [] [] None;
          mk_actor KPlace (default_name KPlace (INITIAL_ID + 1)) 0 0 [] [] [] None]
    (new_registry (A:=token)).

(** The name registration gives an actor: the default name of its id
    when it had none, its own name otherwise; its kind is kept. *)
Lemma registered_name nid p :
  a_name (pt_post_register nid p) = (if String.eqb (a_name p) "" then default_name (a_kind p) nid else a_name p) /\
  is_transition (pt_post_register nid p) = is_transition p.
Proof.
  destruct (pt_post_register_fields nid p) as (_ & Hn & Hk & _).
  split; [exact Hn|]. unfold is_transition. by rewrite Hk.
Qed.

Lemma default_name_nonempty k nid : String.eqb (default_name k nid) "" = false.
Proof. by destruct k. Qed.

(** C27. [PTRegistry.register] does not keep names unique: when the
    registration of distinct actors gives an unnamed actor, the [k]-th
    registered, the default name of its id [INITIAL_ID + k + 1], and
    another actor of the same shape (place or transition) already bears
    that name, the two registered actors have the same name and the
    export writes the same node statement for both, which Graphviz
    merges into one node. *)
Theorem default_name_may_collide idxs n n' reg' k i j p q :
  NoDup idxs -> Forall (fun i => (i < length (actors n))%nat) idxs ->
  pt_register_all idxs n new_registry = (n', reg') ->
  idxs !! k = Some i -> actors n !! i = Some p -> a_name p = "" ->
  actors n !! j = Some q -> a_name q = default_name (a_kind p) (INITIAL_ID + Z.of_nat k + 1) ->
  is_transition q = is_transition p -> i <> j ->
  exists p' q', actors n' !! i = Some p' /\ actors n' !! j = Some q' /\
    a_name p' = a_name q' /\ graphviz_node_definition p' 0 = graphviz_node_definition q' 0.
Proof.
  intros Hnd Hin Hr Hki Hp Hpn Hq Hqn Ht Hij.
  pose proof (pt_register_all_spec idxs n new_registry Hnd Hin) as H. rewrite Hr in H.
  destruct H as (_ & _ & Hk & Hout). cbn [id_counter new_registry] in Hk.
  destruct (Hk k i Hki) as (p0 & Hp0 & Hpi). rewrite Hp in Hp0. injection Hp0 as <-.
  assert (Hq' : exists q', actors n' !! j = Some q' /\ a_name q' = a_name q /\ is_transition q' = is_transition q).
  { destruct (decide (j ∈ idxs)) as [Hj|Hj].
    - apply list_elem_of_lookup in Hj as (kj & Hkj).
      destruct (Hk kj j Hkj) as (q0 & Hq0 & Hqj). rewrite Hq in Hq0. injection Hq0 as <-.
      eexists. split; [exact Hqj|]. destruct (registered_name (INITIAL_ID + Z.of_nat kj + 1) q) as [-> ->].
      by rewrite Hqn, default_name_nonempty.
    - exists q. by rewrite Hout by exact Hj. }
  destruct Hq' as (q' & Hqj & Hn & Htq).
  destruct (registered_name (INITIAL_ID + Z.of_nat k + 1) p) as [Hpn' Htp].
  rewrite Hpn in Hpn'. simpl in Hpn'.
  assert (Hname : a_name (pt_post_register (INITIAL_ID + Z.of_nat k + 1) p) = a_name q') by congruence.
  exists (pt_post_register (INITIAL_ID + Z.of_nat k + 1) p), q'. split; [exact Hpi|]. split; [exact Hqj|].
  split; [exact Hname|]. rewrite !graphviz_node_definition_eq, Hname, Htp, Htq, Ht. reflexivity.
Qed.
End Collision.

(** ** Witnesses *)

#[local] Existing Instance example_constants.

Lemma default_name_may_collide_witness :
  exists p' q', actors (pt_register_all [0%nat; 1%nat] colliding_net new_registry).1 !! 0%nat = Some p' /\
    actors (pt_register_all [0%nat; 1%nat] colliding_net new_registry).1 !! 1%nat = Some q' /\
    a_name p' = a_name q' /\ graphviz_node_definition p' 0 = graphviz_node_definition q' 0.
Proof.
  apply (default_name_may_collide [0%nat; 1%nat] colliding_net (pt_register_all [0%nat; 1%nat] colliding_net new_registry).1 (pt_register_all [0%nat; 1%nat] colliding_net new_registry).2 0 0 1
           (mk_actor KPlace "" 0 0 [] [] [] None) (mk_actor KPlace (default_name KPlace (INITIAL_ID + 1)) 0 0 [] [] [] None));
    try (vm_compute; reflexivity).
  - apply (bool_decide_unpack _); vm_compute; reflexivity.
  - repeat constructor; simpl; lia.
  - lia.
Defined.
