(* ===== verification/Scheduler.v ===== *)
(** * The actor loops, the run entry point and termination

    [src/soyutnet/__init__.py]: [main(pt_registry)] creates one asyncio
    task per loop that [PTRegistry.get_loops] yields and awaits
    [asyncio.gather] of them; [terminate()] cancels every task of the
    event loop ([_cancel_all_tasks]), the task running [main] included;
    the handler of [SIGINT] and [SIGTERM] ([_int_handler]), which
    [main] installs first ([_add_int_handlers]), stops the event loop.

    The state of a run is a [world]: the net, the state [D] of the
    driver's callbacks, the tasks (the actor each one runs and its
    state: pending, suspended on an observer's lock, cancelled or
    failed), the state of [main], and the clock [loop.time()] that
    [SoyutNet.time()] reads.  One turn of an actor loop ([actor_turn];
    [pt_common.py], not under [src/], modelled from section 4 of the
    specification) is one atomic step, and the loop suspends only
    between turns: a transition runs [observed_turn] (its input places'
    observers save a record stamped with the clock, the firing, then
    the count changes reported to the observers), which may raise or
    find an observer's lock held, the task then being suspended for
    good ([TaskBlocked], since no other task releases a lock a turn
    left held); a place does nothing; a [SpecialPlace] calls its
    producer, mints and puts the token it asks for, then pops one token
    for its consumer, each change of count reported to its observer
    ([inc_token_count], which suspends the turn when the observer's
    lock is held).  The callbacks are the driver's code
    ([special_callbacks]): they may raise, and a consumer may call
    [terminate()].

    [sched_step] lets any pending task take its turn at any time, the
    environment call [terminate()], deliver a signal main installed a
    handler for, wake [main] up, and advance the clock: every
    interleaving.  [round] is the order asyncio runs them: tasks were
    created in [get_loops] order and each one re-enters the FIFO ready
    queue when it suspends, so one round is one turn of every pending
    task in creation order.  A cancellation releases the observer
    locks the suspended tasks held ([release_locks]). *)

From S2P Require Import Prelude Observer Registry Net Ownership Observed PTRegistry.
From stdpp Require Import relations.

Local Open Scope Z_scope.

Section SchedulerModel.
Context `{CS : Constants}.

(** ** Tasks and worlds *)

(** An actor loop never returns: its task is pending until it is
    cancelled or raises, or blocked for good on an observer's lock that
    nothing releases (it can still be cancelled). *)
Inductive task_state := TaskPending | TaskBlocked | TaskCancelled | TaskFailed (e : exn).

(** How one turn of a loop ends: normally, saying whether it called
    [terminate()]; with an exception; or suspended on a lock. *)
Inductive turn_result := TurnDone (stop : bool) | TurnRaised (e : exn) | TurnBlocked.

(** [main]: awaiting [gather]; awaiting it after a task raised [e],
    which [gather] will propagate once the event loop wakes [main] up;
    ended with an exception (which [asyncio.run] re-raises); or
    interrupted by [loop.stop()] (on which [asyncio.run] raises
    [RuntimeError]); or returned, [gather] of no task being done at
    once. *)
Inductive main_state :=
  MainAwaiting | MainFailing (e : exn) | MainRaised (e : exn) | LoopStopped | MainReturned.

(** [main] has not ended yet. *)
Definition main_running (m : main_state) : bool :=
  match m with MainAwaiting | MainFailing _ => true | _ => false end.

Section Loops.
Context {D : Type}.

(** The [producer] and [consumer] a [SpecialPlace] is constructed with.
    A producer returns the label of a token to mint, or nothing; a
    consumer names the label it pops, receives the popped token (if
    any), and returns its new state and whether it called
    [terminate()]. *)
Record special_callbacks := mk_callbacks {
  sp_producer : option (D -> exn + (option Z * D));
  sp_consumer : option (Z * (option token -> D -> exn + (D * bool)))
}.

Variable callbacks : nat -> special_callbacks.

(** [w_time] is what [loop.time()] returns: [net.time()], the clock an
    observer copies into its records. *)
Record world := mk_world {
  w_net : net;
  w_driver : D;
  w_tasks : list (nat * task_state);
  w_main : main_state;
  w_time : float
}.

(** ** One turn of an actor *)

(** [get_token(label)] of the place at [i]: its oldest token of the
    label, removed, if there is one. *)
Definition pop_at (i : nat) (l : Z) (n : net) : option token * net :=
  match take_at (mk_arc i i 1 l) n with
  | Some ([t], n') => (Some t, n')
  | _ => (None, n)
  end.

(** The producer's part of a [SpecialPlace] turn: the token the
    producer asks for is minted and put into the place; the result also
    lists the change of count the place reports to its observer. *)
Definition produce (i : nat) (d : D) (n : net) : exn + (net * D * list (nat * Z * Z)) :=
  match sp_producer (callbacks i) with
  | None => inr (n, d, [])
  | Some f =>
      match f d with
      | inl e => inl e
      | inr (None, d') => inr (n, d', [])
      | inr (Some l, d') =>
          let '(ts, r') := mint 1 l (tokens_reg n) in
          inr (put_at i ts l (mk_net (actors n) r'), d', [(i, l, 1)])
      end
  end.

(** The consumer's part: a token is popped and the place reports the
    change of count to its observer before the consumer runs, so the
    token is gone even when the consumer raises; a report that finds
    the observer's lock held suspends the turn. *)
Definition consume (i : nat) (d : D) (n : net) : net * D * turn_result :=
  match sp_consumer (callbacks i) with
  | None => (n, d, TurnDone false)
  | Some (l, f) =>
      let '(ot, n1) := pop_at i l n in
      match inc_all (match ot with Some _ => [(i, l, -1)] | None => [] end) n1 with
      | Done _ n2 =>
          match f ot d with
          | inl e => (n2, d, TurnRaised e)
          | inr (d', stop) => (n2, d', TurnDone stop)
          end
      | Raised e n2 => (n2, d, TurnRaised e)
      | Blocked n2 => (n2, d, TurnBlocked)
      end
  end.

(** One turn of a [SpecialPlace]: the producer's part, the report of
    the minted token, then the consumer's part. *)
Definition special_turn (i : nat) (d : D) (n : net) : net * D * turn_result :=
  match produce i d n with
  | inl e => (n, d, TurnRaised e)
  | inr (n1, d1, incs) =>
      match inc_all incs n1 with
      | Done _ n2 => consume i d1 n2
      | Raised e n2 => (n2, d1, TurnRaised e)
      | Blocked n2 => (n2, d1, TurnBlocked)
      end
  end.

(** One turn of the loop of the actor at [i] at clock value [now]: the
    new net, the driver's state, and how the turn ended.  A transition
    runs its turn with the observer calls ([observed_turn]). *)
Definition actor_turn (now : float) (i : nat) (d : D) (n : net) : net * D * turn_result :=
  match actors n !! i with
  | Some p =>
      match a_kind p with
      | KTransition =>
          match observed_turn now i n with
          | Done _ n' => (n', d, TurnDone false)
          | Raised e n' => (n', d, TurnRaised e)
          | Blocked n' => (n', d, TurnBlocked)
          end
      | KPlace => (n, d, TurnDone false)
      | KSpecialPlace =>
          special_turn i d n
      end
  | None => (n, d, TurnDone false)
  end.

(** ** The entry point and the cancellation *)

(** [main(pt_registry)]: one pending task per loop, in [get_loops]
    order, then awaits [asyncio.gather] of the tasks, which returns at once
    when there is no task. *)
Definition main (reg : registry nat) (n : net) (d : D) : world :=
  let loops := get_loops reg in
  mk_world n d (map (fun i => (i, TaskPending)) loops)
    (match loops with [] => MainReturned | _ => MainAwaiting end) 0%float.

Definition cancel_task (t : nat * task_state) : nat * task_state :=
  match t.2 with TaskPending | TaskBlocked => (t.1, TaskCancelled) | _ => t end.

(** [terminate()]: [task.cancel()] on every task; the task running
    [main] is one of them, and [main] ends with [CancelledError]; the
    suspended tasks release the locks they hold ([release_locks]). *)
Definition terminate (w : world) : world :=
  mk_world (release_locks (w_net w)) (w_driver w) (map cancel_task (w_tasks w))
    (if main_running (w_main w) then MainRaised CancelledError else w_main w) (w_time w).

(** [_int_handler(signame, loop, pt_registry)]: prints, and for
    [SIGINT] or [SIGTERM] calls [loop.stop()]; [asyncio.run] then
    cancels the tasks left and raises. *)
Definition int_handler (signame : string) (w : world) : world :=
  if (String.eqb signame "SIGINT" || String.eqb signame "SIGTERM")%bool then
    mk_world (release_locks (w_net w)) (w_driver w) (map cancel_task (w_tasks w))
      (if main_running (w_main w) then LoopStopped else w_main w) (w_time w)
  else w.

(** [_add_int_handlers(pt_registry)], which [main] calls first:
    [loop.add_signal_handler] for each name of [{"SIGINT", "SIGTERM"}],
    the handler being [_int_handler] with that name bound.  The table
    maps a signal to the handler the loop runs when it is delivered; the
    two names differ, so the iteration order of the set does not
    matter. *)
Definition add_int_handlers : list (string * (world -> world)) :=
  map (fun signame => (signame, int_handler signame)) ["SIGINT"; "SIGTERM"].

(** [SoyutNet.time()]: [asyncio.get_running_loop().time()], the clock
    of the event loop. *)
Definition time (w : world) : float := w_time w.

(** The task at position [k] can take a turn. *)
Definition runnable (k : nat) (w : world) : bool :=
  main_running (w_main w) &&
  match w_tasks w !! k with Some (_, TaskPending) => true | _ => false end.

(** The turn of the task at position [k].  An exception ends the task
    and [gather] keeps the first one for [main]; the other tasks go on
    until the event loop wakes [main] up ([settle]). *)
Definition run_task (k : nat) (w : world) : world :=
  match w_tasks w !! k with
  | Some (i, TaskPending) =>
      if runnable k w then
        let '(n', d', r) := actor_turn (time w) i (w_driver w) (w_net w) in
        match r with
        | TurnRaised e =>
            mk_world n' d' (<[k := (i, TaskFailed e)]> (w_tasks w))
              (match w_main w with MainAwaiting => MainFailing e | m => m end) (w_time w)
        | TurnBlocked => mk_world n' d' (<[k := (i, TaskBlocked)]> (w_tasks w)) (w_main w) (w_time w)
        | TurnDone stop =>
            let w' := mk_world n' d' (w_tasks w) (w_main w) (w_time w) in
            if stop then terminate w' else w'
        end
      else w
  | _ => w
  end.

(** [main] raises the exception [gather] kept, and [asyncio.run]
    cancels the tasks left. *)
Definition settle (w : world) : world :=
  match w_main w with
  | MainFailing e =>
      mk_world (release_locks (w_net w)) (w_driver w) (map cancel_task (w_tasks w)) (MainRaised e) (w_time w)
  | _ => w
  end.

(** The clock advances. *)
Definition set_time (t : float) (w : world) : world :=
  mk_world (w_net w) (w_driver w) (w_tasks w) (w_main w) t.

(** Every interleaving of turns, [terminate()], the delivery of a signal
    that has a handler, the wake-up of [main] and the passing of time. *)
Inductive sched_step : world -> world -> Prop :=
  | step_task k w : runnable k w = true -> sched_step w (run_task k w)
  | step_terminate w : sched_step w (terminate w)
  | step_signal sig h w : (sig, h) ∈ add_int_handlers -> sched_step w (h w)
  | step_settle w : sched_step w (settle w)
  | step_tick t w : time_le (w_time w) t -> sched_step w (set_time t w).

(** One round of the asyncio event loop: every task in creation order;
    [main] is woken up after the round in which a task raised. *)
Definition round (w : world) : world :=
  settle (foldl (fun w k => run_task k w) w (seq 0 (length (w_tasks w)))).

Fixpoint run_rounds (fuel : nat) (w : world) : world :=
  match fuel with
  | O => w
  | S f => run_rounds f (round w)
  end.

End Loops.

Arguments world : clear implicits.
Arguments special_callbacks : clear implicits.

(** ** Lemmas *)

Section SchedulerProofs.
Context {D : Type} (cbs : nat -> special_callbacks D).

(** The handlers [main] installs are [_int_handler] for [SIGINT] and
    [SIGTERM]. *)
Lemma installed_handler sig (h : world D -> world D) :
  (sig, h) ∈ add_int_handlers -> h = int_handler sig /\ (sig = "SIGINT" \/ sig = "SIGTERM")%string.
Proof.
  unfold add_int_handlers. intros (s & Hs & Hin)%list_elem_of_fmap. injection Hs as -> ->.
  split; [done|]. rewrite !elem_of_cons, elem_of_nil in Hin. tauto.
Qed.

(** What a change of the net keeps: its tokens move, and its places,
    transitions and arcs stay. *)
Definition net_step (n n' : net) : Prop := moves n n' /\ shape n' = shape n.

Lemma net_step_refl n : net_step n n.
Proof. split; [apply moves_refl|done]. Qed.

Lemma net_step_trans n1 n2 n3 : net_step n1 n2 -> net_step n2 n3 -> net_step n1 n3.
Proof. intros [H1 S1] [H2 S2]. split; [by eapply moves_trans|congruence]. Qed.

Lemma wf_net_step n n' : net_step n n' -> wf_net n -> wf_net n'.
Proof. intros [_ Hs]. unfold wf_net. by rewrite Hs. Qed.

Lemma pop_at_step i l n : net_step n (pop_at i l n).2.
Proof.
  unfold pop_at. destruct (take_at _ n) as [[ts n']|] eqn:Ht; [|apply net_step_refl].
  destruct ts as [|t [|]]; try apply net_step_refl. simpl. split; [|by eapply shape_take].
  exists [t], []. split; [rewrite app_nil_r, <- (take_at_tokens _ _ _ _ Ht); solve_Permutation|].
  destruct (take_at_spec _ _ _ _ Ht) as (p & p' & _ & _ & ->). apply fresh_between_nil.
Qed.

(** A place holding a token of the label gives its oldest one. *)
Lemma pop_at_some i l n :
  (1 <= count_at n i l)%nat ->
  exists t, (pop_at i l n).1 = Some t /\ shape (pop_at i l n).2 = shape n /\
    forall j l', count_at (pop_at i l n).2 j l' =
      if hit i l j l' then (count_at n j l' - 1)%nat else count_at n j l'.
Proof.
  intros Hc. unfold pop_at.
  destruct (take_at (mk_arc i i 1 l) n) as [[ts n']|] eqn:Ht.
  2: { apply (take_at_None (mk_arc i i 1 l) n (Z.le_refl 1)) in Ht. simpl in Ht. lia. }
  pose proof (fun j l' => count_at_take _ _ _ _ j l' Ht) as Hcnt. simpl in Hcnt.
  destruct (take_at_spec _ _ _ _ Ht) as (p & p' & Hp & Ht' & _).
  destruct (try_take_spec _ _ _ _ _ Ht') as (_ & -> & _). simpl in Hp.
  unfold count_at in Hc. rewrite Hp in Hc. unfold count in Hc.
  cbn [arc_label arc_src arc_weight]. destruct (queue p l) as [|t q]; simpl in Hc; [lia|]. cbn.
  exists t. split; [done|]. split; [by eapply shape_take|]. exact Hcnt.
Qed.

Lemma produce_step i p d n n' d' incs :
  actors n !! i = Some p -> produce cbs i d n = inr (n', d', incs) -> net_step n n'.
Proof.
  unfold produce. intros Hp. destruct (sp_producer (cbs i)) as [f|]; [|by intros [= <- _ _]; apply net_step_refl].
  destruct (f d) as [|[[l|] d1]]; [done| |by intros [= <- _ _]; apply net_step_refl].
  destruct (mint 1 l (tokens_reg n)) as [ts r'] eqn:Hm. intros [= <- _ _].
  destruct (mint_fresh _ _ _ _ _ Hm) as [_ Hf].
  split; [|by rewrite shape_put].
  exists [], ts. split; [|exact Hf]. rewrite app_nil_r, put_at_tokens.
  - unfold all_tokens; simpl. solve_Permutation.
  - simpl. by eapply lookup_lt_Some.
Qed.

Lemma transition_turn_step t n : wf_net n -> net_step n (transition_turn t n).1.
Proof.
  intros Hwf. destruct (transition_turn t n) as [n' fired] eqn:Htt. simpl.
  destruct (transition_turn_moves_tokens _ _ _ _ Hwf Htt) as [Hm _]. split; [done|].
  destruct (actors n !! t) as [tr|] eqn:Ht.
  - destruct (transition_turn_cases _ _ _ _ _ Hwf Ht Htt) as [[_ ->]|(_ & Hs & _)]; done.
  - unfold transition_turn in Htt. rewrite Ht in Htt. by injection Htt as <-.
Qed.

(** A net equal to the result of a step up to its observers is a
    result of that step too. *)
Lemma net_step_erase n n1 n2 : erase n1 = erase n2 -> net_step n n1 -> net_step n n2.
Proof.
  intros He [Hm Hs]. split; [exact (moves_erase _ _ _ He Hm)|].
  by rewrite <- (shape_erase n2), <- He, shape_erase.
Qed.

(** The reports to the observers leave the tokens where they are. *)
Lemma inc_all_step incs n : net_step n (outcome_state (inc_all incs n)).
Proof. apply (net_step_erase n n); [exact (eq_sym (inc_all_erase incs n))|apply net_step_refl]. Qed.

Lemma consume_step i d n : net_step n (consume cbs i d n).1.1.
Proof.
  unfold consume. destruct (sp_consumer (cbs i)) as [[l f]|]; [|apply net_step_refl].
  pose proof (pop_at_step i l n) as Hs. destruct (pop_at i l n) as [ot n1]. simpl in Hs.
  match goal with |- context [inc_all ?incs n1] => pose proof (inc_all_step incs n1) as Hi end.
  destruct (inc_all _ n1) as [? n2|? n2|n2]; [destruct (f ot d) as [|[]]| |];
    exact (net_step_trans _ _ _ Hs Hi).
Qed.

Lemma special_turn_step i p d n : actors n !! i = Some p -> net_step n (special_turn cbs i d n).1.1.
Proof.
  intros Hp. unfold special_turn.
  destruct (produce cbs i d n) as [e|[[n1 d1] incs]] eqn:Hpr; [apply net_step_refl|].
  pose proof (produce_step _ _ _ _ _ _ _ Hp Hpr) as H1. pose proof (inc_all_step incs n1) as H2.
  pose proof (net_step_trans _ _ _ H1 H2) as H12.
  destruct (inc_all incs n1) as [? n2|? n2|n2]; [|exact H12|exact H12].
  exact (net_step_trans _ _ _ H12 (consume_step i d1 n2)).
Qed.

Lemma observed_turn_step now t n : wf_net n -> net_step n (outcome_state (observed_turn now t n)).
Proof.
  intros Hwf. pose proof (observed_turn_erase now t n) as H.
  pose proof (transition_turn_step t n Hwf) as Hs.
  destruct (observed_turn now t n) as [b n'|e n'|n']; simpl.
  - destruct H as [H _]. exact (net_step_erase _ _ _ (eq_sym H) Hs).
  - exact (net_step_erase _ _ _ (eq_sym H) (net_step_refl n)).
  - destruct H as [H|H]; [exact (net_step_erase _ _ _ (eq_sym H) (net_step_refl n))|].
    exact (net_step_erase _ _ _ (eq_sym H) Hs).
Qed.

Lemma actor_turn_step now i d n : wf_net n -> net_step n (actor_turn cbs now i d n).1.1.
Proof.
  intros Hwf. unfold actor_turn. destruct (actors n !! i) as [p|] eqn:Hp; [|apply net_step_refl].
  destruct (a_kind p); [apply net_step_refl|by eapply special_turn_step|].
  - pose proof (observed_turn_step now i n Hwf) as Hs. by destruct (observed_turn now i n).
Qed.

#[local] Instance net_step_preorder : PreOrder net_step.
Proof. split; [exact net_step_refl|exact net_step_trans]. Qed.

Lemma net_step_release n : net_step n (release_locks n).
Proof. exact (net_step_erase n n _ (eq_sym (erase_release_locks n)) (net_step_refl n)). Qed.

(** What a step does to the net is what a turn of an actor does. *)
(** What a step does to the net is what a turn of an actor does,
    followed by the release of the locks when it cancels the tasks. *)
Lemma run_task_net_by (R : net -> net -> Prop) `{!PreOrder R} k w :
  (forall n, R n (release_locks n)) ->
  (forall i d, R (w_net w) (actor_turn cbs (w_time w) i d (w_net w)).1.1) ->
  R (w_net w) (w_net (run_task cbs k w)).
Proof.
  intros Hrel Ha. unfold run_task.
  destruct (w_tasks w !! k) as [[i []]|]; try reflexivity.
  destruct (runnable k w); try reflexivity.
  all: pose proof (Ha i (w_driver w)) as Hs.
  all: destruct (actor_turn cbs _ i _ _) as [[n' d'] [[]|e|]]; simpl in Hs |- *; try done.
  etrans; [exact Hs|apply Hrel].
Qed.

Lemma sched_step_net_by (R : net -> net -> Prop) `{!PreOrder R} w w' :
  (forall n, R n (release_locks n)) ->
  (forall i d, R (w_net w) (actor_turn cbs (w_time w) i d (w_net w)).1.1) ->
  sched_step cbs w w' -> R (w_net w) (w_net w').
Proof.
  intros Hrel Ha Hs. destruct Hs as [k w Hr|w|sig h w Hh|w|t w Ht]; [| |destruct (installed_handler _ _ Hh) as [-> _]| |].
  - by apply run_task_net_by.
  - apply Hrel.
  - unfold int_handler. destruct (_ || _)%bool; [apply Hrel|reflexivity].
  - unfold settle. destruct (w_main w); try reflexivity. apply Hrel.
  - reflexivity.
Qed.

Lemma sched_step_net w w' :
  sched_step cbs w w' -> wf_net (w_net w) -> net_step (w_net w) (w_net w').
Proof.
  intros Hs Hwf. apply (sched_step_net_by _ w w'); [exact net_step_release| |exact Hs].
  intros. by apply actor_turn_step.
Qed.

Lemma frames_pop_at i l n : frames (pop_at i l n).2 = frames n.
Proof.
  unfold pop_at. destruct (take_at _ n) as [[[|t [|]] n']|] eqn:Ht; try done.
  simpl. by eapply frames_take.
Qed.

Lemma produce_frames i d n n' d' incs : produce cbs i d n = inr (n', d', incs) -> frames n' = frames n.
Proof.
  unfold produce. destruct (sp_producer (cbs i)) as [f|]; [|by intros [= <- _ _]].
  destruct (f d) as [|[[l|] d1]]; [done| |by intros [= <- _ _]].
  destruct (mint 1 l (tokens_reg n)) as [ts r']. intros [= <- _ _]. by rewrite frames_put.
Qed.

Section SpecialObsRel.
Context (R : relation observer) `{!PreOrder R}.
Hypothesis Hinc : forall l inc, preserves R (inc_token_count l inc).

Lemma consume_obs_rel i d n : obs_rel R n (consume cbs i d n).1.1.
Proof.
  unfold consume. destruct (sp_consumer (cbs i)) as [[l f]|]; [|reflexivity].
  pose proof (frames_pop_at i l n) as Hp. destruct (pop_at i l n) as [ot n1]. simpl in Hp.
  match goal with |- context [inc_all ?incs n1] => pose proof (inc_all_obs_rel R incs Hinc n1) as H end.
  assert (H1 : obs_rel R n n1) by exact (obs_rel_frames R _ _ Hp).
  destruct (inc_all _ n1) as [? n2|? n2|n2]; [destruct (f ot d) as [|[]]| |]; simpl in *; by etransitivity.
Qed.

(** A [SpecialPlace] turn changes its observer only by the reports. *)
Lemma special_turn_obs_rel i d n : obs_rel R n (special_turn cbs i d n).1.1.
Proof.
  unfold special_turn. destruct (produce cbs i d n) as [e|[[n1 d1] incs]] eqn:Hpr; [reflexivity|].
  assert (H1 : obs_rel R n n1) by exact (obs_rel_frames R _ _ (produce_frames _ _ _ _ _ _ Hpr)).
  pose proof (inc_all_obs_rel R incs Hinc n1) as H2.
  destruct (inc_all incs n1) as [? n2|? n2|n2]; simpl in H2 |- *; [|by etransitivity|by etransitivity].
  etransitivity; [exact H1|]. etransitivity; [exact H2|]. apply consume_obs_rel.
Qed.
End SpecialObsRel.

(** A turn changes each observer as its calls do. *)
Lemma actor_turn_obs_rel (R : relation observer) `{!PreOrder R} now i d n :
  (forall requester, preserves R (save requester now)) ->
  (forall l inc, preserves R (inc_token_count l inc)) ->
  obs_rel R n (actor_turn cbs now i d n).1.1.
Proof.
  intros Hs Hi. unfold actor_turn. destruct (actors n !! i) as [p|]; [|reflexivity].
  destruct (a_kind p); [reflexivity|by apply special_turn_obs_rel|].
  - pose proof (observed_turn_obs_rel R now i Hs Hi n) as H. by destruct (observed_turn now i n).
Qed.

(** How a turn that completes or raises changes the observers: each
    one related by [R] to the one before; a suspended turn is left
    out. *)
Definition turn_rel (R : relation observer) (n : net) (res : net * D * turn_result) : Prop :=
  match res with (_, _, TurnBlocked) => True | (n', _, _) => obs_rel R n n' end.

Section TurnCompletes.
Context (R : relation observer) `{!PreOrder R}.
Hypothesis Hinc : forall l inc, completes R (inc_token_count l inc).

Lemma consume_completes i d n : turn_rel R n (consume cbs i d n).
Proof.
  unfold consume, turn_rel. destruct (sp_consumer (cbs i)) as [[l f]|]; [|reflexivity].
  pose proof (frames_pop_at i l n) as Hp. destruct (pop_at i l n) as [ot n1]. simpl in Hp.
  assert (H1 : obs_rel R n n1) by exact (obs_rel_frames R _ _ Hp).
  match goal with |- context [inc_all ?incs n1] => pose proof (inc_all_completes R incs Hinc n1) as H end.
  destruct (inc_all _ n1) as [? n2|? n2|n2]; [destruct (f ot d) as [|[]]| |]; simpl in *; try done; by etrans.
Qed.

Lemma special_turn_completes i d n : turn_rel R n (special_turn cbs i d n).
Proof.
  unfold special_turn. destruct (produce cbs i d n) as [e|[[n1 d1] incs]] eqn:Hpr; [simpl; reflexivity|].
  assert (H1 : obs_rel R n n1) by exact (obs_rel_frames R _ _ (produce_frames _ _ _ _ _ _ Hpr)).
  pose proof (inc_all_completes R incs Hinc n1) as H2.
  destruct (inc_all incs n1) as [? n2|? n2|n2]; simpl in H2 |- *; [|by etrans|done].
  pose proof (consume_completes i d1 n2) as H3. unfold turn_rel in *.
  destruct (consume cbs i d1 n2) as [[n3 d3] []]; try done; by do 2 (etrans; [eassumption|]).
Qed.

Lemma actor_turn_completes now i d n :
  (forall requester, completes R (save requester now)) -> turn_rel R n (actor_turn cbs now i d n).
Proof.
  intros Hs. unfold actor_turn. destruct (actors n !! i) as [p|]; [|simpl; reflexivity].
  destruct (a_kind p); [simpl; reflexivity|apply special_turn_completes|].
  pose proof (observed_turn_completes R now i Hs Hinc n) as H. unfold turn_rel.
  by destruct (observed_turn now i n).
Qed.
End TurnCompletes.

(** ** The topology of the net *)

(** What an actor is apart from its tokens and its observer: its kind,
    name and arcs. *)
Definition topology (n : net) : list (pt_kind * string * list arc * list arc) :=
  map (fun p => (a_kind p, a_name p, a_input_arcs p, a_output_arcs p)) (actors n).

Lemma topology_frames n n' : frames n' = frames n -> topology n' = topology n.
Proof.
  assert (E : forall m, topology m = map fst (frames m)) by (intros; unfold topology, frames; by rewrite map_map).
  intros H. by rewrite !E, H.
Qed.

Lemma topology_erase n n' : erase n' = erase n -> topology n' = topology n.
Proof.
  assert (E : forall m, topology (erase m) = topology m) by (intros; unfold topology, erase; simpl; by rewrite map_map).
  intros H. by rewrite <- (E n'), H, E.
Qed.

Lemma inc_all_topology incs n : topology (outcome_state (inc_all incs n)) = topology n.
Proof. apply topology_erase, (inc_all_erase incs n). Qed.

Lemma consume_topology i d n : topology (consume cbs i d n).1.1 = topology n.
Proof.
  unfold consume. destruct (sp_consumer (cbs i)) as [[l f]|]; [|done].
  pose proof (topology_frames _ _ (frames_pop_at i l n)) as H1. destruct (pop_at i l n) as [ot n1].
  simpl in H1. match goal with |- context [inc_all ?incs n1] => pose proof (inc_all_topology incs n1) as H2 end.
  destruct (inc_all _ n1) as [? n2|? n2|n2]; [destruct (f ot d) as [|[]]| |]; simpl in *; congruence.
Qed.

(** No turn of an actor changes the kinds, names or arcs of the net. *)
Lemma actor_turn_topology now i d n : topology (actor_turn cbs now i d n).1.1 = topology n.
Proof.
  unfold actor_turn. destruct (actors n !! i) as [p|]; [|done]. destruct (a_kind p); [done| |].
  - unfold special_turn. destruct (produce cbs i d n) as [e|[[n1 d1] incs]] eqn:Hpr; [done|].
    pose proof (topology_frames _ _ (produce_frames _ _ _ _ _ _ Hpr)) as H1.
    pose proof (inc_all_topology incs n1) as H2.
    destruct (inc_all incs n1) as [? n2|? n2|n2]; simpl in *; [|congruence..].
    rewrite consume_topology. congruence.
  - pose proof (observed_turn_erase now i n) as H.
    pose proof (topology_frames _ _ (frames_transition_turn i n)) as Ht.
    destruct (observed_turn now i n) as [b n'|e n'|n']; simpl.
    + rewrite (topology_erase _ _ (proj1 H)). exact Ht.
    + exact (topology_erase _ _ H).
    + destruct H as [H|H]; rewrite (topology_erase _ _ H); [done|exact Ht].
Qed.

(** A [SpecialPlace] whose producer asks for a token of [l] puts one
    more token of [l] into the place and reports it to the place's
    observer with [inc_token_count(l, 1)]: the turn completes when the
    observer's lock is free and suspends for good, the token already
    put, when it is held. *)
Theorem special_turn_reports_produced i p o f d d' n l :
  actors n !! i = Some p -> a_observer p = Some o ->
  sp_producer (cbs i) = Some f -> f d = inr (Some l, d') -> sp_consumer (cbs i) = None ->
  let '(n', d'', r) := special_turn cbs i d n in
  count_at n' i l = S (count_at n i l) /\ d'' = d' /\
  r = (if o_locked o then TurnBlocked else TurnDone false) /\
  observer_of n' i = Some (outcome_state (inc_token_count l 1 o)).
Proof.
  intros Hp Ho Hf Hfd Hc. unfold special_turn, produce. rewrite Hf, Hfd.
  pose proof (mint_length 1 l (tokens_reg n)) as Hlen.
  destruct (mint 1 l (tokens_reg n)) as [ts r'] eqn:Hm. simpl in Hlen.
  set (n1 := put_at i ts l (mk_net (actors n) r')).
  assert (Hi : (i < length (actors (mk_net (actors n) r')))%nat) by (simpl; by eapply lookup_lt_Some).
  assert (Hc1 : count_at n1 i l = S (count_at n i l)).
  { unfold n1. rewrite count_at_put by exact Hi. unfold hit. rewrite bool_decide_true by done.
    rewrite Hlen. unfold count_at; simpl. lia. }
  assert (Ho1 : observer_of n1 i = Some o).
  { unfold n1. rewrite (observer_of_frames _ _ _ (frames_put _ _ _ _)).
    unfold observer_of; simpl. by rewrite Hp. }
  assert (Hs1 : is_Some (actors n1 !! i)) by (unfold observer_of in Ho1; destruct (actors n1 !! i); [eauto|done]).
  cbn [inc_all]. unfold abind at 1. rewrite (with_observer_some _ _ _ _ Ho1).
  destruct (inc_token_count_outcome l 1 o) as [o' Hinc]. unfold abind at 1. rewrite Hinc.
  destruct (o_locked o); cbn.
  - rewrite count_at_set_observer, observer_of_set, decide_True by done. by repeat split.
  - unfold consume. rewrite Hc. cbn.
    rewrite count_at_set_observer, observer_of_set, decide_True by done. by repeat split.
Qed.

End SchedulerProofs.

Section SchedulerTheorems.
Context {D : Type} (cbs : nat -> special_callbacks D).

Lemma rtc_invariant (I : world D -> Prop) w w' :
  (forall w1 w2, sched_step cbs w1 w2 -> I w1 -> I w2) ->
  rtc (sched_step cbs) w w' -> I w -> I w'.
Proof. intros Hstep Hr. induction Hr; eauto. Qed.

Lemma cancel_task_twice t : cancel_task (cancel_task t) = cancel_task t.
Proof. destruct t as [i []]; done. Qed.

Lemma cancel_task_not_pending t : (cancel_task t).2 <> TaskPending /\ (cancel_task t).2 <> TaskBlocked.
Proof. destruct t as [i []]; done. Qed.

(** The task at [k], which runs the actor [i], is suspended for good
    or cancelled. *)
Definition task_stuck (k i : nat) (ts : list (nat * task_state)) : Prop :=
  ts !! k = Some (i, TaskBlocked) \/ ts !! k = Some (i, TaskCancelled).

Lemma cancel_stuck k i ts : task_stuck k i ts -> map cancel_task ts !! k = Some (i, TaskCancelled).
Proof. unfold task_stuck. rewrite list_lookup_fmap. by intros [-> | ->]. Qed.

(** The task at [k] is suspended in a turn that left the lock of the
    observer of [j] held, or it has been cancelled (which released the
    lock). *)
Definition held_until_cancel (k i j : nat) (w : world D) : Prop :=
  (w_tasks w !! k = Some (i, TaskBlocked) /\ lock_held j (w_net w)) \/
  w_tasks w !! k = Some (i, TaskCancelled).

Lemma held_stuck k i j w : held_until_cancel k i j w -> task_stuck k i (w_tasks w).
Proof. intros [[H _]|H]; [left|right]; exact H. Qed.

Lemma run_task_held k i j k' w : held_until_cancel k i j w -> held_until_cancel k i j (run_task cbs k' w).
Proof.
  intros H. pose proof (cancel_stuck _ _ _ (held_stuck _ _ _ _ H)) as Hc.
  unfold run_task. destruct (w_tasks w !! k') as [[i' []]|] eqn:Hk'; try exact H.
  destruct (runnable k' w); [|exact H].
  assert (Hne : k' <> k) by (intros ->; destruct H as [[H _]|H]; congruence).
  assert (Ho : obs_rel lock_kept (w_net w) (actor_turn cbs (time w) i' (w_driver w) (w_net w)).1.1)
    by (apply (actor_turn_obs_rel cbs lock_kept); intros; [apply save_lock_kept|apply inc_token_count_lock_kept]).
  destruct (actor_turn cbs _ i' _ _) as [[n' d'] [[]|e|]]; simpl in Ho; [right; exact Hc| | |];
    (destruct H as [[Hb Hl]|Hb]; [left; split; [|exact (lock_held_obs_rel j _ _ Ho Hl)]|right]);
    simpl; rewrite ?list_lookup_insert_ne by done; exact Hb.
Qed.

(** No step wakes a suspended task up: the lock it waits for is held by
    itself or by another suspended task, and only a cancellation ends
    it. *)
Lemma sched_step_held k i j w w' :
  sched_step cbs w w' -> held_until_cancel k i j w -> held_until_cancel k i j w'.
Proof.
  intros Hs H. pose proof (cancel_stuck _ _ _ (held_stuck _ _ _ _ H)) as Hc.
  destruct Hs as [k' w Hr|w|sig h w Hh|w|t w Ht]; [| |destruct (installed_handler _ _ Hh) as [-> _]| |].
  - by apply run_task_held.
  - right; exact Hc.
  - unfold int_handler. destruct (_ || _)%bool; [right; exact Hc|exact H].
  - unfold settle. destruct (w_main w); try exact H. right; exact Hc.
  - exact H.
Qed.

(** Every observer's records are in time order, none later than [now]. *)
Definition observers_upto (now : float) (n : net) : Prop :=
  forall i o, observer_of n i = Some o -> records_upto now o.

Lemma observers_upto_obs_rel now n n' :
  obs_rel (inv_rel (records_upto now)) n n' -> observers_upto now n -> observers_upto now n'.
Proof.
  intros H Hn i o' Ho'. specialize (H i). rewrite Ho' in H.
  destruct (observer_of n i) as [o|] eqn:Ho; inversion H as [? ? Hk|]; subst. exact (Hk (Hn i o Ho)).
Qed.

Lemma run_task_time k w : w_time (run_task cbs k w) = w_time w.
Proof.
  unfold run_task. destruct (w_tasks w !! k) as [[i []]|]; try done. destruct (runnable k w); [|done].
  by destruct (actor_turn cbs _ i _ _) as [[n' d'] [[]|e|]].
Qed.

(** A step keeps the records of every observer in time order and not
    later than the clock: a save stamps its record with the clock, and
    the clock never goes back. *)
Lemma sched_step_upto w w' :
  sched_step cbs w w' -> observers_upto (w_time w) (w_net w) -> observers_upto (w_time w') (w_net w').
Proof.
  assert (Hrel : forall now n, obs_rel (inv_rel (records_upto now)) n (release_locks n))
    by (intros; apply obs_rel_release_locks; by intros o Ho).
  intros Hs. destruct Hs as [k w Hr|w|sig h w Hh|w|t w Ht]; [| |destruct (installed_handler _ _ Hh) as [-> _]| |].
  - rewrite run_task_time. apply observers_upto_obs_rel.
    apply (run_task_net_by cbs (obs_rel (inv_rel (records_upto (w_time w))))); [apply Hrel|]. intros i d.
    apply (actor_turn_obs_rel cbs); [apply _|intros; apply save_upto|intros; apply inc_token_count_upto].
  - apply observers_upto_obs_rel, Hrel.
  - unfold int_handler. destruct (_ || _)%bool; [apply observers_upto_obs_rel, Hrel|done].
  - unfold settle. destruct (w_main w); try done. apply observers_upto_obs_rel, Hrel.
  - simpl. intros H i o Ho. apply (records_upto_mono (w_time w)); [exact Ht|exact (H i o Ho)].
Qed.

(** C4. In every world reachable from [main] on a well-formed net whose
    tokens satisfy the ownership invariant, the places, transitions and
    arcs are those of the start, the net is well formed, and the
    ownership invariant holds: no token is ever copied, and minted ids
    stay distinct. *)
Theorem reachable_tokens_owned reg n d w :
  wf_net n -> tokens_owned n -> rtc (sched_step cbs) (main reg n d) w ->
  shape (w_net w) = shape n /\ wf_net (w_net w) /\ tokens_owned (w_net w).
Proof.
  intros Hwf Ho Hr.
  assert (Hs : net_step n (w_net w)).
  { refine (rtc_invariant (fun w => net_step n (w_net w)) _ _ _ Hr (net_step_refl n)).
    intros w1 w2 Hst H1. eapply net_step_trans; [exact H1|].
    apply (sched_step_net _ _ _ Hst). by eapply wf_net_step. }
  split; [apply Hs|]. split; [by eapply wf_net_step|]. exact (owned_transfer _ _ (proj1 Hs) Ho).
Qed.

(** C13. [terminate()] cancels every task that is pending or
    suspended and leaves the tasks that ended as they are; the net keeps
    its tokens and observers, whose locks are released; [main], if it
    was running, ends with [CancelledError].  Afterwards no task takes a
    turn, and a second [terminate()] changes nothing. *)
Theorem terminate_idempotent (w : world D) :
  terminate (terminate w) = terminate w /\
  (forall k, runnable k (terminate w) = false) /\
  length (w_tasks (terminate w)) = length (w_tasks w) /\
  (forall k i, task_stuck k i (w_tasks w) \/ w_tasks w !! k = Some (i, TaskPending) ->
     w_tasks (terminate w) !! k = Some (i, TaskCancelled)) /\
  (forall k t, w_tasks w !! k = Some t -> t.2 <> TaskPending -> t.2 <> TaskBlocked ->
     w_tasks (terminate w) !! k = Some t) /\
  erase (w_net (terminate w)) = erase (w_net w) /\
  (forall j, observer_of (w_net (terminate w)) j = set_locked false <$> observer_of (w_net w) j) /\
  w_main (terminate w) = (if main_running (w_main w) then MainRaised CancelledError else w_main w).
Proof.
  unfold terminate, runnable; simpl.
  assert (Hm : main_running (if main_running (w_main w) then MainRaised CancelledError else w_main w) = false)
    by (destruct (main_running (w_main w)) eqn:E; simpl; [done|exact E]).
  rewrite Hm, map_map, release_locks_twice, length_map. split; [|split; [done|split; [done|split]]].
  - f_equal. apply map_ext, cancel_task_twice.
  - intros k i [Hs|Hp]; [by apply cancel_stuck|]. by rewrite list_lookup_fmap, Hp.
  - split; [intros k [i s] Ht Hp Hb; rewrite list_lookup_fmap, Ht; simpl in *; by destruct s|].
    split; [apply erase_release_locks|]. split; [apply observer_of_release_locks|done].
Qed.

(** C12. [gather] propagates the exception of a loop: when the turn of a
    task raises [e] while [main] awaits, the task fails with [e], [main]
    ends with [e] once woken up, and every other task is cancelled,
    releasing the locks it held; the net is the one the turn left. *)
Theorem task_exception_ends_main k i (w : world D) n' d' e :
  w_main w = MainAwaiting -> w_tasks w !! k = Some (i, TaskPending) ->
  actor_turn cbs (time w) i (w_driver w) (w_net w) = (n', d', TurnRaised e) ->
  let w' := settle (run_task cbs k w) in
  w_main w' = MainRaised e /\ w_net w' = release_locks n' /\
  w_tasks w' !! k = Some (i, TaskFailed e) /\
  Forall (fun t => t.2 <> TaskPending /\ t.2 <> TaskBlocked) (w_tasks w').
Proof.
  intros Hm Hk Ht. unfold run_task, runnable. rewrite Hk, Hm. simpl. rewrite Ht.
  unfold settle; simpl. split; [done|]. split; [done|]. split.
  - rewrite list_lookup_fmap, list_lookup_insert_eq; [done|]. by eapply lookup_lt_Some.
  - apply list.Forall_forall. intros t Ht'. apply list_elem_of_fmap in Ht' as (t0 & -> & _).
    apply cancel_task_not_pending.
Qed.
(** C7. [Observer.save] with a record limit stalls the transition that
    calls it, and with it every transition sharing the place: when an
    enabled transition whose first input place has a plain observer with
    [record_limit > 0] takes its turn, the turn suspends in
    [_clean_records] before any token moves, and from then on, whatever
    the interleaving, its task stays suspended with the observer's lock
    held, so that every later [save] and [inc_token_count] on that
    observer suspends as well, until the task is cancelled. *)
Theorem record_limit_stalls_transition k i (w : world D) tr j srcs o :
  w_main w = MainAwaiting -> w_tasks w !! k = Some (i, TaskPending) ->
  actors (w_net w) !! i = Some tr -> a_kind tr = KTransition -> enabled (w_net w) tr = true ->
  map arc_src (a_input_arcs tr) = j :: srcs ->
  observer_of (w_net w) j = Some o -> o_class o = PlainObserver -> o_locked o = false ->
  0 < o_record_limit o ->
  same_marking (w_net w) (w_net (run_task cbs k w)) /\
  forall w', rtc (sched_step cbs) (run_task cbs k w) w' ->
    w_tasks w' !! k = Some (i, TaskCancelled) \/
    (w_tasks w' !! k = Some (i, TaskBlocked) /\
     exists o', observer_of (w_net w') j = Some o' /\
       (forall l inc, inc_token_count l inc o' = Blocked o') /\
       (forall req t, save req t o' = Blocked o')).
Proof.
  intros Hm Hk Htr Hkind Hen Hsrc Ho Hc Hl Hlim.
  destruct (observed_turn_record_limit (w_time w) i (w_net w) tr j srcs o Htr Hkind Hen Hsrc Ho Hc Hl Hlim)
    as (n' & Hb & Hsm & Hheld).
  assert (Hr : run_task cbs k w =
    mk_world n' (w_driver w) (<[k := (i, TaskBlocked)]> (w_tasks w)) (w_main w) (w_time w)).
  { unfold run_task, runnable, time. rewrite Hk, Hm. simpl. unfold actor_turn. by rewrite Htr, Hkind, Hb. }
  rewrite Hr. split; [exact Hsm|]. intros w' Hrtc.
  assert (Hinv : held_until_cancel k i j w').
  { refine (rtc_invariant (held_until_cancel k i j) _ _ _ Hrtc _); [intros; by eapply sched_step_held|].
    left. split; [|exact Hheld]. simpl. apply list_lookup_insert_eq. by eapply lookup_lt_Some. }
  destruct Hinv as [[Ht (o' & Ho' & Hlk)]|Ht]; [right|by left]. split; [exact Ht|].
  exists o'. split; [exact Ho'|]. split; intros; by apply with_lock_held.
Qed.

(** C14. In every world reachable from [main] on a net whose observers
    have no records yet, whatever the interleaving and however the clock
    [loop.time()] advances, the records of every observer are in time
    order and none is later than the clock: [save] stamps its record
    with the clock and appends it, and no method reorders the records.
    ([get_merged_records] concatenates these sorted lists, which is not
    sorted as a whole.) *)
Theorem reachable_records_time_ordered reg n (d : D) w :
  (forall i o, observer_of n i = Some o -> o_records o = []) ->
  rtc (sched_step cbs) (main reg n d) w ->
  forall i o, observer_of (w_net w) i = Some o ->
    time_ordered (o_records o) /\ Forall (fun r => time_le (r_time r) (w_time w)) (o_records o).
Proof.
  intros H0 Hr i o Ho.
  enough (Hu : observers_upto (w_time w) (w_net w)) by (destruct (Hu i o Ho) as (_ & ? & ?); by split).
  refine (rtc_invariant (fun w => observers_upto (w_time w) (w_net w)) _ _ _ Hr _).
  - intros w1 w2 Hs. exact (sched_step_upto _ _ Hs).
  - intros i' o' Ho'. unfold records_upto. rewrite (H0 i' o' Ho').
    split; [by eexists|]. split; [intros ? ? ? ? ? Hi; by rewrite lookup_nil in Hi|constructor].
Qed.

(** Every lock held belongs to a suspended task. *)
Definition locks_held_by_suspended (w : world D) : Prop :=
  forall j, lock_held j (w_net w) -> exists k i, w_tasks w !! k = Some (i, TaskBlocked).

Lemma no_lock_held_released j n : ~ lock_held j (release_locks n).
Proof.
  intros (o & Ho & Hl). rewrite observer_of_release_locks in Ho.
  destruct (observer_of n j); [|done]. injection Ho as <-. simpl in Hl. discriminate.
Qed.

Lemma lock_held_back j n n' : obs_rel lock_released n n' -> lock_held j n' -> lock_held j n.
Proof.
  intros Hr (o' & Ho' & Hl). specialize (Hr j). rewrite Ho' in Hr.
  destruct (observer_of n j) as [o|] eqn:Ho; inversion Hr as [? ? Hoo|]; subst. exists o. split; [done|]. by apply Hoo.
Qed.

Lemma run_task_holders k w : locks_held_by_suspended w -> locks_held_by_suspended (run_task cbs k w).
Proof.
  intros H. unfold run_task. destruct (w_tasks w !! k) as [[i []]|] eqn:Hk; try exact H.
  destruct (runnable k w); [|exact H].
  pose proof (actor_turn_completes cbs lock_released (fun l inc => with_lock_completes _) (time w) i
                (w_driver w) (w_net w) (fun r => with_lock_completes _)) as Ht.
  unfold turn_rel in Ht. destruct (actor_turn cbs _ i _ _) as [[n' d'] [[]|e|]]; intros j Hj; simpl in Hj |- *.
  - by apply no_lock_held_released in Hj.
  - exact (H j (lock_held_back j _ _ Ht Hj)).
  - destruct (H j (lock_held_back j _ _ Ht Hj)) as (k0 & i0 & Hk0).
    exists k0, i0. rewrite list_lookup_insert_ne; [exact Hk0|]. intros ->. congruence.
  - exists k, i. apply list_lookup_insert_eq. by eapply lookup_lt_Some.
Qed.

Lemma sched_step_holders w w' :
  sched_step cbs w w' -> locks_held_by_suspended w -> locks_held_by_suspended w'.
Proof.
  intros Hs H. destruct Hs as [k w Hr|w|sig h w Hh|w|t w Ht]; [| |destruct (installed_handler _ _ Hh) as [-> _]| |].
  - by apply run_task_holders.
  - intros j Hj. by apply no_lock_held_released in Hj.
  - unfold int_handler. destruct (_ || _)%bool; [intros j Hj; by apply no_lock_held_released in Hj|exact H].
  - unfold settle. destruct (w_main w); try exact H. intros j Hj. by apply no_lock_held_released in Hj.
  - exact H.
Qed.

(** C8. No lock leaks: in every world reachable from [main] on a net
    whose observers start unlocked, an observer's lock is held only
    while some task is suspended.  A turn that completes or raises
    leaves every [async with self._lock] block it entered, releasing
    the lock, and a cancellation ([terminate()], a signal, [asyncio.run]
    after an exception) releases the locks of the suspended tasks. *)
Theorem reachable_locks_held_by_suspended reg n (d : D) w :
  (forall j o, observer_of n j = Some o -> o_locked o = false) ->
  rtc (sched_step cbs) (main reg n d) w ->
  forall j, lock_held j (w_net w) -> exists k i, w_tasks w !! k = Some (i, TaskBlocked).
Proof.
  intros H0 Hr. refine (rtc_invariant locks_held_by_suspended _ _ _ Hr _).
  - intros. by eapply sched_step_holders.
  - intros j (o & Ho & Hl). rewrite (H0 j o Ho) in Hl. discriminate.
Qed.

(** ** Rounds *)

Definition same_topology (n n' : net) : Prop := topology n' = topology n.

#[local] Instance same_topology_preorder : PreOrder same_topology.
Proof. unfold same_topology. split; [by intros ?|intros ??? H1 H2; congruence]. Qed.

Lemma release_locks_topology n : topology (release_locks n) = topology n.
Proof. apply topology_erase, erase_release_locks. Qed.

Lemma run_task_topology k w : topology (w_net (run_task cbs k w)) = topology (w_net w).
Proof.
  apply (run_task_net_by cbs same_topology); [intros; apply release_locks_topology|].
  intros i d. apply actor_turn_topology.
Qed.

Lemma round_topology w : topology (w_net (round cbs w)) = topology (w_net w).
Proof.
  unfold round. assert (H : forall ks w, topology (w_net (foldl (fun w k => run_task cbs k w) w ks)) = topology (w_net w)).
  { induction ks as [|k ks IH]; intros w'; [done|]. simpl. by rewrite IH, run_task_topology. }
  rewrite <- (H (seq 0 (length (w_tasks w))) w). unfold settle.
  destruct (w_main _); try done. apply release_locks_topology.
Qed.

(** Once [main] has ended no round changes the world. *)
Lemma round_ended w : main_running (w_main w) = false -> round cbs w = w.
Proof.
  intros Hm. unfold round.
  assert (H : forall ks, foldl (fun w k => run_task cbs k w) w ks = w).
  { induction ks as [|k ks IH]; [done|]. simpl.
    replace (run_task cbs k w) with w; [exact IH|].
    unfold run_task, runnable. rewrite Hm. by destruct (w_tasks w !! k) as [[i []]|]. }
  rewrite H. unfold settle. destruct (w_main w); done.
Qed.

Lemma run_rounds_ended fuel w : main_running (w_main w) = false -> run_rounds cbs fuel w = w.
Proof. revert w. induction fuel as [|f IH]; intros w Hm; [done|]. simpl. rewrite round_ended by done. by apply IH. Qed.

Lemma run_rounds_add a b w : run_rounds cbs (a + b) w = run_rounds cbs b (run_rounds cbs a w).
Proof. revert w. induction a as [|a IH]; intros w; [done|]. apply IH. Qed.

Lemma run_rounds_topology fuel w : topology (w_net (run_rounds cbs fuel w)) = topology (w_net w).
Proof. revert w. induction fuel as [|f IH]; intros w; [done|]. simpl. by rewrite IH, round_topology. Qed.

End SchedulerTheorems.
End SchedulerModel.

Arguments world : clear implicits.
Arguments special_callbacks : clear implicits.
