(* ===== verification/PetriNet.v ===== *)
(** * The run refines a place/transition net

    The abstract contract of the engine (sections 4.3 to 4.5 and 8 of the
    specification) is the firing rule of a PT net: a marking gives the
    number of tokens of each label at each place, a transition fires when
    every input place holds the weights it demands and replaces them by
    the weights it supplies, and the boundary of the net (a
    [SpecialPlace]) may gain or lose one token.  [pt_step] is that rule
    over the structure [shape n] of the net; [sched_step_marking] shows
    that every step of a run is a sequence of [pt_step]s of the markings,
    so every marking a run reaches ([reachable_marking]) is reachable in
    the PT net.  A marking reads the net with its observers erased, so
    the observed transition turns the scheduler runs are firings of the
    PT net or no move at all. *)

From S2P Require Import Prelude Observer Registry Net Ownership Observed PTRegistry Scheduler.
From stdpp Require Import relations.

Local Open Scope Z_scope.

Section PetriNetModel.
Context `{CS : Constants}.

(** ** The abstract net *)

(** A marking: the number of tokens of each label at each place. *)
Definition marking := nat -> Z -> nat.

(** The counts of the places; observers are not part of a marking. *)
Definition marking_of (n : net) : marking := fun i l => count_at (erase n) i l.

Lemma marking_of_count n i l : marking_of n i l = count_at n i l.
Proof. apply count_at_erase. Qed.

Lemma marking_of_erase n1 n2 : erase n1 = erase n2 -> marking_of n1 = marking_of n2.
Proof. unfold marking_of. by intros ->. Qed.

Inductive pt_step (s : list (pt_kind * list arc * list arc)) (M M' : marking) : Prop :=
  | pt_fire t ins outs :
      s !! t = Some (KTransition, ins, outs) ->
      (forall i l, demand ins i l <= Z.of_nat (M i l)) ->
      (forall i l, Z.of_nat (M' i l) = Z.of_nat (M i l) - demand ins i l + supply outs i l) ->
      pt_step s M M'
  | pt_produce i ins outs l :
      s !! i = Some (KSpecialPlace, ins, outs) ->
      (forall j l', M' j l' = if hit i l j l' then S (M j l') else M j l') ->
      pt_step s M M'
  | pt_consume i ins outs l :
      s !! i = Some (KSpecialPlace, ins, outs) -> (1 <= M i l)%nat ->
      (forall j l', M' j l' = if hit i l j l' then (M j l' - 1)%nat else M j l') ->
      pt_step s M M'.

(** ** Each part of a turn is a PT step or no change *)

Section Refinement.
Context {D : Type} (cbs : nat -> special_callbacks D).

Lemma shape_kind n i p :
  actors n !! i = Some p -> shape n !! i = Some (a_kind p, a_input_arcs p, a_output_arcs p).
Proof. intros Hp. unfold shape. by rewrite list_lookup_fmap, Hp. Qed.

Lemma transition_turn_marking t n :
  wf_net n -> rtc (pt_step (shape n)) (marking_of n) (marking_of (transition_turn t n).1).
Proof.
  intros Hwf. destruct (transition_turn t n) as [n' fired] eqn:Htt. simpl.
  destruct (actors n !! t) as [tr|] eqn:Ht.
  2: { unfold transition_turn in Htt. rewrite Ht in Htt. injection Htt as <-. apply rtc_refl. }
  destruct (transition_turn_cases _ _ _ _ _ Hwf Ht Htt) as [[_ ->]|(-> & _ & Hc)]; [apply rtc_refl|].
  pose proof (fires_iff_demand _ _ _ Hwf Ht) as Hiff. rewrite Htt in Hiff.
  destruct (proj1 Hiff eq_refl) as [Hk Hd].
  apply rtc_once. eapply (pt_fire _ _ _ t).
  - rewrite (shape_kind _ _ _ Ht), Hk. done.
  - intros i l. rewrite marking_of_count. apply Hd.
  - intros i l. rewrite !marking_of_count. apply Hc.
Qed.

Lemma pop_at_none i l n : count_at n i l = 0%nat -> pop_at i l n = (None, n).
Proof.
  intros Hc. unfold pop_at.
  destruct (take_at (mk_arc i i 1 l) n) as [[ts n']|] eqn:Ht; [|done].
  apply take_at_le in Ht. simpl in Ht. lia.
Qed.

Lemma pop_at_marking i ins outs l n :
  shape n !! i = Some (KSpecialPlace, ins, outs) ->
  rtc (pt_step (shape n)) (marking_of n) (marking_of (pop_at i l n).2).
Proof.
  intros Hs. destruct (count_at n i l) as [|c] eqn:Hc.
  { rewrite pop_at_none by done. apply rtc_refl. }
  destruct (pop_at_some i l n) as (t & _ & _ & Hc'); [lia|].
  apply rtc_once. eapply (pt_consume _ _ _ i _ _ l); [exact Hs| |].
  - rewrite marking_of_count. lia.
  - intros j l'. rewrite !marking_of_count. apply Hc'.
Qed.

Lemma produce_marking i ins outs d n n' d' incs :
  shape n !! i = Some (KSpecialPlace, ins, outs) -> produce cbs i d n = inr (n', d', incs) ->
  rtc (pt_step (shape n)) (marking_of n) (marking_of n').
Proof.
  intros Hs. unfold produce.
  destruct (sp_producer (cbs i)) as [f|]; [|intros [= <- _ _]; apply rtc_refl].
  destruct (f d) as [|[[l|] d1]]; [done| |intros [= <- _ _]; apply rtc_refl].
  destruct (mint 1 l (tokens_reg n)) as [ts r'] eqn:Hm. intros [= <- _ _].
  pose proof (mint_length 1 l (tokens_reg n)) as Hlen. rewrite Hm in Hlen. simpl in Hlen.
  apply rtc_once. eapply (pt_produce _ _ _ i _ _ l); [exact Hs|].
  intros j l'. rewrite !marking_of_count, count_at_put.
  - rewrite Hlen. unfold count_at; simpl. destruct (hit i l j l'); lia.
  - simpl. rewrite shape_length. by eapply lookup_lt_Some.
Qed.

(** The reports to the observers leave the marking as it is. *)
Lemma inc_all_marking incs n : marking_of (outcome_state (inc_all incs n)) = marking_of n.
Proof. apply marking_of_erase, (inc_all_erase incs n). Qed.

Lemma consume_marking i ins outs d n :
  shape n !! i = Some (KSpecialPlace, ins, outs) ->
  rtc (pt_step (shape n)) (marking_of n) (marking_of (consume cbs i d n).1.1).
Proof.
  intros Hs. unfold consume. destruct (sp_consumer (cbs i)) as [[l f]|]; [|apply rtc_refl].
  pose proof (pop_at_marking i ins outs l n Hs) as Hm. destruct (pop_at i l n) as [ot n1].
  match goal with |- context [inc_all ?incs n1] => pose proof (inc_all_marking incs n1) as Hi end.
  destruct (inc_all _ n1) as [? n2|? n2|n2]; [destruct (f ot d) as [|[]]| |]; simpl in *; by rewrite Hi.
Qed.

Lemma special_turn_marking i p d n :
  actors n !! i = Some p -> a_kind p = KSpecialPlace ->
  rtc (pt_step (shape n)) (marking_of n) (marking_of (special_turn cbs i d n).1.1).
Proof.
  intros Hp Hk. pose proof (shape_kind _ _ _ Hp) as Hs. rewrite Hk in Hs.
  unfold special_turn. destruct (produce cbs i d n) as [e|[[n1 d1] incs]] eqn:Hpr; [apply rtc_refl|].
  pose proof (produce_marking _ _ _ _ _ _ _ _ Hs Hpr) as H1.
  pose proof (produce_step cbs i p d n n1 d1 incs Hp Hpr) as [_ Hsh].
  pose proof (inc_all_marking incs n1) as H2. pose proof (inc_all_step incs n1) as [_ Hsh2].
  destruct (inc_all incs n1) as [? n2|? n2|n2]; simpl in H2, Hsh2 |- *; rewrite ?H2; [|exact H1|exact H1].
  eapply rtc_trans; [exact H1|]. rewrite <- H2, <- Hsh, <- Hsh2.
  apply (consume_marking i (a_input_arcs p) (a_output_arcs p)). by rewrite Hsh2, Hsh.
Qed.

Lemma observed_turn_marking_rtc now t n :
  wf_net n -> rtc (pt_step (shape n)) (marking_of n) (marking_of (outcome_state (observed_turn now t n))).
Proof.
  intros Hwf. pose proof (observed_turn_erase now t n) as H.
  pose proof (transition_turn_marking t n Hwf) as Hm.
  destruct (observed_turn now t n) as [b n'|e n'|n']; simpl.
  - destruct H as [H _]. by rewrite (marking_of_erase _ _ H).
  - rewrite (marking_of_erase _ _ H). apply rtc_refl.
  - destruct H as [H|H]; rewrite (marking_of_erase _ _ H); [apply rtc_refl|exact Hm].
Qed.

Lemma actor_turn_marking now i d n :
  wf_net n -> rtc (pt_step (shape n)) (marking_of n) (marking_of (actor_turn cbs now i d n).1.1).
Proof.
  intros Hwf. unfold actor_turn. destruct (actors n !! i) as [p|] eqn:Hp; [|apply rtc_refl].
  pose proof (shape_kind _ _ _ Hp) as Hs.
  destruct (a_kind p) eqn:Hk; [apply rtc_refl| |].
  - by eapply special_turn_marking.
  - pose proof (observed_turn_marking_rtc now i n Hwf) as Hm. by destruct (observed_turn now i n).
Qed.

Lemma marking_of_release_locks n : marking_of (release_locks n) = marking_of n.
Proof. apply marking_of_erase, erase_release_locks. Qed.

Lemma sched_step_marking w w' :
  sched_step cbs w w' -> wf_net (w_net w) ->
  rtc (pt_step (shape (w_net w))) (marking_of (w_net w)) (marking_of (w_net w')).
Proof.
  intros Hst Hwf. destruct Hst as [k w Hr|w|sig h w Hh|w|t w Ht]; [| |destruct (installed_handler _ _ Hh) as [-> _]| |].
  - unfold run_task. destruct (w_tasks w !! k) as [[i []]|]; try apply rtc_refl.
    destruct (runnable k w); [|apply rtc_refl].
    pose proof (actor_turn_marking (w_time w) i (w_driver w) _ Hwf) as Hm.
    destruct (actor_turn cbs _ i _ _) as [[n' d'] [[]|e|]]; simpl; rewrite ?marking_of_release_locks; done.
  - simpl. rewrite marking_of_release_locks. apply rtc_refl.
  - unfold int_handler. destruct (_ || _)%bool; simpl; rewrite ?marking_of_release_locks; apply rtc_refl.
  - unfold settle. destruct (w_main w); simpl; rewrite ?marking_of_release_locks; apply rtc_refl.
  - apply rtc_refl.
Qed.
(** C5. The run refines the PT net: every marking reached from [main]
    by any interleaving of turns, [terminate()], signals and wake-ups is
    reachable from the initial marking by the firing rule of the PT net
    with the structure of the start net, its [SpecialPlace]s gaining or
    losing one token at a time. *)
Theorem reachable_marking reg n d w :
  wf_net n -> rtc (sched_step cbs) (main reg n d) w ->
  rtc (pt_step (shape n)) (marking_of n) (marking_of (w_net w)).
Proof.
  intros Hwf Hr.
  enough (H : net_step n (w_net w) /\ rtc (pt_step (shape n)) (marking_of n) (marking_of (w_net w)))
    by apply H.
  refine (rtc_invariant cbs (fun w => net_step n (w_net w) /\
            rtc (pt_step (shape n)) (marking_of n) (marking_of (w_net w))) _ _ _ Hr _).
  - intros w1 w2 Hst [Hs1 Hm1].
    assert (Hwf1 : wf_net (w_net w1)) by (by eapply wf_net_step).
    split; [exact (net_step_trans _ _ _ Hs1 (sched_step_net cbs _ _ Hst Hwf1))|].
    eapply rtc_trans; [exact Hm1|]. rewrite <- (proj2 Hs1).
    exact (sched_step_marking _ _ Hst Hwf1).
  - split; [apply net_step_refl|apply rtc_refl].
Qed.
End Refinement.
End PetriNetModel.
