(* ===== verification/Scenarios.v ===== *)
(** * Nets of the specification's scenarios and of the test drivers

    The nets are built the way the drivers build them: actors first,
    then [connect] calls in the drivers' order, and run by [run_turns]
    of [Net] when one transition moves alone.  The run of [tests/n_tester.py] is the
    asyncio run of [Scheduler] with the driver's consumer, every turn
    of [t1] calling the comparative observer [o1] of [p1].  The nets of the
    specification's scenarios are run with the values of
    [example_constants] (Section [SpecScenarios]); the driver's net and
    every theorem about it are generic in the constants (Section
    [NTester]).  The witnesses of the theorems with hypotheses close the
    file. *)

From S2P Require Import Prelude Observer Registry Net Ownership PTRegistry Graphviz Scheduler PetriNet Observed.
From stdpp Require relations.

Local Open Scope Z_scope.

Section ScenariosModel.
Context `{CS : Constants}.

(** ** Building and running *)

Definition tk (i : Z) : token := mk_token GENERIC_LABEL i.

(** A place named [name] holding generic tokens with the given ids. *)
Definition place_with (name : string) (ids : list Z) : actor :=
  mk_actor KPlace name 0 GENERIC_LABEL
    (match ids with [] => [] | _ => [(GENERIC_LABEL, map tk ids)] end) [] [] None.

Definition transition_named (name : string) : actor :=
  mk_actor KTransition name 0 GENERIC_LABEL [] [] [] None.

(** Applies [connect(src, dst, weight, GENERIC_LABEL)] calls in order; the
    first error stops the construction. *)
Fixpoint connect_all (cs : list (nat * nat * Z)) (n : net) : exn + net :=
  match cs with
  | [] => inr n
  | (src, dst, w) :: cs' =>
      match connect src dst w GENERIC_LABEL n with
      | inl e => inl e
      | inr n' => connect_all cs' n'
      end
  end.

Definition build (acts : list actor) (next_id : Z) (cs : list (nat * nat * Z)) : net :=
  match connect_all cs (mk_net acts (mk_registry next_id [])) with
  | inr n => n
  | inl _ => mk_net [] new_registry
  end.

End ScenariosModel.

(** The scenarios of the specification are run with the values of
    [example_constants]. *)
Section SpecScenarios.
#[local] Existing Instance example_constants.
#[local] Opaque example_constants.

(** ** A source of four tokens drained two at a time *)

(** [p0] holds four generic tokens; [t1] takes two per firing and puts one
    into the sink [p2]. *)
Definition drain_net : net :=
  build [place_with "p0" [1; 2; 3; 4]; transition_named "t1"; place_with "p2" []] 5
    [(0%nat, 1%nat, 2); (1%nat, 2%nat, 1)].

(** The specification's first scenario: after all possible
    firings (any number of turns from the second on) the source holds 0
    tokens and the sink 2, and no further turn fires. *)
Theorem drain_net_final (k : nat) :
  (2 <= k)%nat ->
  count_at (run_turns 1 k drain_net) 0 GENERIC_LABEL = 0%nat /\
  count_at (run_turns 1 k drain_net) 2 GENERIC_LABEL = 2%nat /\
  (transition_turn 1 (run_turns 1 k drain_net)).2 = false.
Proof.
  intros Hk. replace k with (2 + (k - 2))%nat by lia.
  rewrite run_turns_add, run_turns_fixed by (vm_compute; reflexivity).
  vm_compute. split; [|split]; reflexivity.
Qed.

(** ** Two input places with weights 2 and 3 *)

(** [p0] holds 5 tokens, [p1] holds 2; [t2] needs 2 from [p0] and 3
    from [p1] and puts one token into [p3]. *)
Definition two_inputs_net : net :=
  build [place_with "p0" [1; 2; 3; 4; 5]; place_with "p1" [6; 7];
         transition_named "t2"; place_with "p3" []] 8
    [(0%nat, 2%nat, 2); (1%nat, 2%nat, 3); (2%nat, 3%nat, 1)].

(** The specification's second scenario: the transition never fires
    while [p1] holds 2 tokens, however many turns it runs, and fires as
    soon as a third token arrives in [p1]. *)
Theorem two_inputs_waits_for_third_token (k : nat) :
  run_turns 2 k two_inputs_net = two_inputs_net /\
  (transition_turn 2 two_inputs_net).2 = false /\
  (transition_turn 2 (put_at 1 [tk 8] GENERIC_LABEL two_inputs_net)).2 = true.
Proof.
  split; [apply run_turns_fixed; vm_compute; reflexivity|].
  split; vm_compute; reflexivity.
Qed.

(** ** Two arcs from the same place *)

(** [t1] has two input arcs from [p0], of weights 2 and 3, and [p0]
    holds 4 tokens: each arc alone is satisfied. *)
Definition shared_input_net : net :=
  build [place_with "p0" [1; 2; 3; 4]; transition_named "t1"; place_with "p2" []] 5
    [(0%nat, 1%nat, 2); (0%nat, 1%nat, 3); (1%nat, 2%nat, 1)].

(** The per-arc enablement check is not enough when two input arcs
    share a place: here it passes, the first take succeeds, the second
    fails, and the rollback puts the two tokens back at the head of the
    queue, so the turn ends with the net exactly as before. *)
Theorem shared_input_rolls_back :
  (exists tr, actors shared_input_net !! 1%nat = Some tr /\ enabled shared_input_net tr = true) /\
  transition_turn 1 shared_input_net = (shared_input_net, false).
Proof.
  split; [eexists; split; vm_compute; reflexivity|]. vm_compute. reflexivity.
Qed.

End SpecScenarios.

Section NTester.
Context `{CS : Constants}.

(** ** The net of [tests/n_tester.py] *)

(** [expected={1: [((GENERIC_LABEL, i),) for i in range(2 * n, n - 1, -1)]}]:
    column 1 of the records, the token counts, is to read [2n], [2n - 1],
    ..., [n]. *)
Definition n_tester_column (n : nat) : list value :=
  map (fun j => VCounts [(GENERIC_LABEL, Z.of_nat (2 * n - j))]) (seq 0 (S n)).

Definition n_tester_expected (n : nat) : list (Z * list value) := [(1, n_tester_column n)].

(** [o1 = net.ComparativeObserver(expected=..., verbose=True)], once
    [p1] has reported its [2n] initial tokens. *)
Definition n_tester_o1_init (n : nat) : observer :=
  set_class (Comparative (mk_comparison (n_tester_expected n) 0 true false))
    (observer_init 0 (0, 0) true "").

Definition n_tester_o1 (n : nat) : observer :=
  set_counters [(GENERIC_LABEL, Z.of_nat (2 * n))] (n_tester_o1_init n).

(** [p1 = net.Place("p1", initial_tokens={GENERIC_LABEL: [GENERIC_ID] * (2 * n)}, observer=o1)] *)
Definition n_tester_p1 (n : nat) : actor :=
  mk_actor KPlace "p1" 0 GENERIC_LABEL [(GENERIC_LABEL, map tk (repeat GENERIC_ID (2 * n)))] [] []
    (Some (n_tester_o1 n)).

(** [p1] starts with [2n] generic tokens; [t1] takes [n] from [p1] and
    puts one into [p2] and [n - 1] back into [p1]:
    [p1.connect(t1, weight=n).connect(p2, weight=1)] and
    [t1.connect(p1, weight=n - 1)]. *)
Definition n_tester_net (n : nat) : net :=
  build [n_tester_p1 n; transition_named "";
         mk_actor KSpecialPlace "p2" 0 GENERIC_LABEL [] [] [] None]
    INITIAL_ID
    [(0%nat, 1%nat, Z.of_nat n); (1%nat, 2%nat, 1); (1%nat, 0%nat, Z.of_nat n - 1)].

Definition n_tester_in (n : nat) : arc := mk_arc 0 1 (Z.of_nat n) GENERIC_LABEL.
Definition n_tester_out (n : nat) : list arc :=
  [mk_arc 1 2 1 GENERIC_LABEL; mk_arc 1 0 (Z.of_nat n - 1) GENERIC_LABEL].

Definition n_tester_shape (n : nat) : list (pt_kind * list arc * list arc) :=
  [(KPlace, [mk_arc 1 0 (Z.of_nat n - 1) GENERIC_LABEL], [n_tester_in n]);
   (KTransition, [n_tester_in n], n_tester_out n);
   (KSpecialPlace, [mk_arc 1 2 1 GENERIC_LABEL], [])].

Lemma n_tester_net_shape n :
  (2 <= n)%nat ->
  shape (n_tester_net n) = n_tester_shape n /\
  count_at (n_tester_net n) 0 GENERIC_LABEL = (2 * n)%nat /\
  count_at (n_tester_net n) 2 GENERIC_LABEL = 0%nat.
Proof.
  intros Hn. destruct n as [|m]; [lia|].
  unfold n_tester_net, build, connect_all, connect; simpl.
  case_ltb; try lia. simpl. case_ltb; try lia. simpl.
  split; [reflexivity|]. unfold count_at, count, queue; simpl. decide_refl. simpl.
  rewrite !length_map, repeat_length. split; [lia|reflexivity].
Qed.

Lemma n_tester_shape_wf n : (2 <= n)%nat -> wf_shape (n_tester_shape n).
Proof.
  intros Hn. unfold wf_shape, n_tester_shape, n_tester_in, n_tester_out, arc_ok; simpl.
  repeat constructor; simpl; lia.
Qed.

Lemma shape_lookup s i x :
  shape s !! i = Some x ->
  exists p, actors s !! i = Some p /\ x = (a_kind p, a_input_arcs p, a_output_arcs p).
Proof.
  unfold shape. rewrite list_lookup_fmap.
  destruct (actors s !! i) as [p|]; simpl; [|done]. intros [= <-]. eauto.
Qed.

(** Evaluates the closed [hit] tests in a hypothesis. *)
Ltac eval_hits H :=
  repeat match type of H with
    | context [hit ?a ?b ?a ?b] => rewrite (hit_refl a b) in H
    | context [hit ?a ?b ?c ?d] => rewrite (hit_ne_index a b c d) in H by lia
    end.

(** One turn of [t1] on a state of the [n_tester] net: it fires exactly
    when [p1] holds [n] tokens. *)
Lemma n_tester_step n s c1 c2 :
  (2 <= n)%nat -> shape s = n_tester_shape n ->
  count_at s 0 GENERIC_LABEL = c1 -> count_at s 2 GENERIC_LABEL = c2 ->
  let s' := (transition_turn 1 s).1 in
  shape s' = n_tester_shape n /\ (transition_turn 1 s).2 = (n <=? c1)%nat /\
  (if (n <=? c1)%nat
   then count_at s' 0 GENERIC_LABEL = (c1 - 1)%nat /\ count_at s' 2 GENERIC_LABEL = S c2
   else s' = s).
Proof.
  intros Hn Hs H1 H2. simpl.
  assert (Hwf : wf_net s) by (unfold wf_net; rewrite Hs; by apply n_tester_shape_wf).
  assert (Hl : shape s !! 1%nat = Some (KTransition, [n_tester_in n], n_tester_out n))
    by (rewrite Hs; reflexivity).
  destruct (shape_lookup _ _ _ Hl) as (tr & Ht & Htr). injection Htr as Hk Hi Ho.
  destruct (transition_turn 1 s) as [s' fired] eqn:Hturn. simpl.
  pose proof (fires_iff_demand _ _ _ Hwf Ht) as Hiff. rewrite Hturn in Hiff. simpl in Hiff.
  rewrite <- Hi in Hiff.
  destruct (transition_turn_cases _ _ _ _ _ Hwf Ht Hturn) as [[-> ->]|(-> & Hs' & Hc)].
  - destruct (Nat.leb_spec n c1); [exfalso|done].
    assert (false = true); [|done]. apply Hiff. split; [done|].
    intros i l. unfold n_tester_in; simpl. unfold hit.
    case_bool_decide as Hh; [destruct Hh as [<- <-]; lia|]. lia.
  - rewrite <- Hi, <- Ho in Hc.
    pose proof (Hc 0%nat GENERIC_LABEL) as C0. pose proof (Hc 2%nat GENERIC_LABEL) as C2.
    destruct (proj1 Hiff eq_refl) as [_ Hd]. specialize (Hd 0%nat GENERIC_LABEL).
    cbn [demand supply n_tester_in n_tester_out arc_src arc_dst arc_label arc_weight] in C0, C2, Hd.
    eval_hits C0. eval_hits C2. eval_hits Hd.
    destruct (Nat.leb_spec n c1); [|lia]. split; [by rewrite Hs'|]. split; [done|]. lia.
Qed.

(** C17. The net of [tests/n_tester.py] for any [n >= 2]: run alone,
    [t1] fires exactly [n + 1] times; after [k] turns [p1] holds
    [2n - min k (n+1)] tokens and [p2] has received [min k (n+1)], so the
    counts of [p1] after each firing are [2n - 1, ..., n - 1] and the
    consumer of [p2] sees exactly the [n + 1] tokens it waits for. *)
Theorem n_tester_fires_n_plus_one_times (n k : nat) :
  (2 <= n)%nat ->
  count_at (run_turns 1 k (n_tester_net n)) 0 GENERIC_LABEL = (2 * n - Nat.min k (S n))%nat /\
  count_at (run_turns 1 k (n_tester_net n)) 2 GENERIC_LABEL = Nat.min k (S n).
Proof.
  intros Hn. destruct (n_tester_net_shape n Hn) as (Hs0 & H10 & H20).
  cut (shape (run_turns 1 k (n_tester_net n)) = n_tester_shape n /\
       count_at (run_turns 1 k (n_tester_net n)) 0 GENERIC_LABEL = (2 * n - Nat.min k (S n))%nat /\
       count_at (run_turns 1 k (n_tester_net n)) 2 GENERIC_LABEL = Nat.min k (S n)); [tauto|].
  induction k as [|k (Hs & H1 & H2)]; [simpl; rewrite H10, H20; split; [done|lia]|].
  replace (S k) with (k + 1)%nat by lia. rewrite run_turns_add. simpl.
  destruct (n_tester_step n _ _ _ Hn Hs H1 H2) as (Hs' & _ & Hc). split; [done|].
  destruct (Nat.leb_spec n (2 * n - Nat.min k (S n))) as [Hle|Hlt].
  - destruct Hc as [-> ->]. lia.
  - rewrite Hc, H1, H2. lia.
Qed.

(** The actors of [n_tester_net n] once connected, for [n >= 2]. *)
Definition n_tester_actors (n : nat) : list actor :=
  [mk_actor KPlace "p1" 0 GENERIC_LABEL [(GENERIC_LABEL, map tk (repeat GENERIC_ID (2 * n)))]
     [mk_arc 1 0 (Z.of_nat n - 1) GENERIC_LABEL] [n_tester_in n] (Some (n_tester_o1 n));
   mk_actor KTransition "" 0 GENERIC_LABEL [] [n_tester_in n] (n_tester_out n) None;
   mk_actor KSpecialPlace "p2" 0 GENERIC_LABEL [] [mk_arc 1 2 1 GENERIC_LABEL] [] None].

Lemma n_tester_net_eq n : (2 <= n)%nat -> n_tester_net n = mk_net (n_tester_actors n) (mk_registry INITIAL_ID []).
Proof.
  intros Hn. destruct n as [|[|m]]; try lia.
  unfold n_tester_net, build, connect_all, connect; simpl.
  case_ltb; try lia. simpl. case_ltb; try lia. simpl. reflexivity.
Qed.

(** ** The observer of [p1] in [tests/n_tester.py] *)

(** The record [o1] saves at the [j]-th request of [t1]: at clock
    [tm j], on behalf of [rq]. *)
Definition n_tester_record (tm : nat -> float) (rq : string) (n j : nat) : record :=
  mk_record (tm j) [(GENERIC_LABEL, Z.of_nat (2 * n - j))] rq.

(** [o1] after [r] saves, its counter of generic tokens showing [c]. *)
Definition o1_at (tm : nat -> float) (rq : string) (n r : nat) (c : Z) : observer :=
  mk_observer (map (n_tester_record tm rq n) (seq 0 r)) false 0 (0, 0) true
    [(GENERIC_LABEL, c)] "" (Comparative (mk_comparison (n_tester_expected n) r true false)).

(** The net after [j] observed turns of [t1], whose name is [nm], at
    the clock values [tm 0], ..., [tm (j - 1)]. *)
Definition obs_state (tm : nat -> float) (nm : string) (n j : nat) (s : net) : Prop :=
  shape s = n_tester_shape n /\
  count_at s 0 GENERIC_LABEL = (2 * n - j)%nat /\
  observer_of s 0 = Some (o1_at tm (requester_of nm) n j (Z.of_nat (2 * n - j))) /\
  observer_of s 2 = None /\ name_of s 1 = Some nm.

Section O1.
Context (tm : nat -> float) (nm : string).

Lemma n_tester_compare n j : (j <= n)%nat ->
  compare_columns "" (n_tester_record tm (requester_of nm) n j) j (n_tester_expected n) = inr 1%nat.
Proof.
  intros Hj. unfold n_tester_expected, n_tester_column. cbn [compare_columns].
  rewrite length_map, length_seq. destruct (Nat.leb_spec (S n) j); [lia|].
  rewrite list_lookup_fmap, lookup_seq_lt by lia. cbn.
  change (Z.to_nat 1) with 1%nat; cbn [lookup list_lookup]. rewrite py_eqb_counts, bool_decide_true by done.
  destruct (Z.geb_spec (Z.of_nat (S n) - 1) (Z.of_nat j)); [done|lia].
Qed.

Lemma o1_save n j : (j <= n)%nat ->
  save nm (tm j) (o1_at tm (requester_of nm) n j (Z.of_nat (2 * n - j))) =
  Done false (o1_at tm (requester_of nm) n (S j) (Z.of_nat (2 * n - j))).
Proof.
  intros Hj. rewrite save_unfold by reflexivity.
  replace (snapshot _ _ _) with (n_tester_record tm (requester_of nm) n j) by reflexivity.
  unfold save_record, comparative_save.
  cbn [o_class set_locked o1_at c_still_comparing c_index c_expected o_ident].
  rewrite n_tester_compare by done. unfold o1_at. rewrite seq_S, map_app. reflexivity.
Qed.

Lemma n_tester_o1_at rq n : n_tester_o1 n = o1_at tm rq n 0 (Z.of_nat (2 * n - 0)).
Proof. by rewrite Nat.sub_0_r. Qed.

Lemma o1_inc rq n r c d :
  inc_token_count GENERIC_LABEL d (o1_at tm rq n r c) = Done tt (o1_at tm rq n r (c + d)).
Proof. cbn. decide_refl. reflexivity. Qed.

(** [p1] and [p2] report the firing of [t1]: [o1] counts the [n] tokens
    taken, then the [n - 1] put back; [p2] has no observer. *)
Lemma o1_report rq n r c s :
  observer_of s 0 = Some (o1_at tm rq n r c) -> observer_of s 2 = None ->
  let s3 := update_actor 0 (set_observer (Some (o1_at tm rq n r (c + - Z.of_nat n)))) s in
  inc_all [(0%nat, GENERIC_LABEL, - Z.of_nat n); (2%nat, GENERIC_LABEL, 1);
           (0%nat, GENERIC_LABEL, Z.of_nat n - 1)] s =
  Done tt (update_actor 0 (set_observer (Some (o1_at tm rq n r (c + - Z.of_nat n + (Z.of_nat n - 1))))) s3).
Proof.
  intros Ho0 Ho2 s3.
  assert (Hs3o : observer_of s3 0 = Some (o1_at tm rq n r (c + - Z.of_nat n)))
    by (unfold s3; by rewrite observer_of_set by exact (observer_of_is_Some _ _ _ Ho0)).
  assert (Hs3n : observer_of s3 2 = None)
    by (unfold s3; by rewrite observer_of_set, decide_False by (lia || exact (observer_of_is_Some _ _ _ Ho0))).
  simpl. rewrite (abind_Done _ _ _ false s3) by (apply (with_observer_done _ _ _ _ _ _ Ho0); unfold abind; by rewrite o1_inc).
  rewrite (abind_Done _ _ _ false s3) by (by apply with_observer_none).
  erewrite abind_Done; [reflexivity|].
  apply (with_observer_done _ _ _ _ _ _ Hs3o). unfold abind. by rewrite o1_inc.
Qed.

(** The saves of an observed turn of [t1]: [o1], the observer of its
    only input place, saves the record it expects; nothing else moves. *)
Lemma obs_save n j s tr : (j <= n)%nat -> obs_state tm nm n j s ->
  actors s !! 1%nat = Some tr -> a_input_arcs tr = [n_tester_in n] -> a_name tr = nm ->
  let s1 := update_actor 0 (set_observer (Some (o1_at tm (requester_of nm) n (S j) (Z.of_nat (2 * n - j))))) s in
  save_all (map arc_src (a_input_arcs tr)) (a_name tr) (tm j) s = Done tt s1 /\
  shape s1 = n_tester_shape n /\ count_at s1 0 GENERIC_LABEL = (2 * n - j)%nat /\
  count_at s1 2 GENERIC_LABEL = count_at s 2 GENERIC_LABEL.
Proof.
  intros Hj (Hs & H1 & Ho0 & _) Ht Hi Htn s1.
  split; [|unfold s1; rewrite shape_set_observer, !count_at_set_observer; by split].
  rewrite Hi, Htn. simpl. rewrite (abind_Done _ _ _ false s1); [reflexivity|].
  rewrite (with_observer_some _ _ _ _ Ho0), o1_save by done. reflexivity.
Qed.

(** One observed turn of [t1] while [p1] holds at least [n] tokens:
    [o1] saves the record it expects, [t1] fires and both places report
    their changes; [p2] gains a token. *)
Lemma obs_step n j s : (2 <= n)%nat -> (j <= n)%nat -> obs_state tm nm n j s ->
  exists s', observed_turn (tm j) 1 s = Done true s' /\ obs_state tm nm n (S j) s' /\
    count_at s' 2 GENERIC_LABEL = S (count_at s 2 GENERIC_LABEL).
Proof.
  intros Hn Hj Hst. pose proof Hst as (Hs & H1 & Ho0 & Ho2 & Hname).
  assert (Hl : shape s !! 1%nat = Some (KTransition, [n_tester_in n], n_tester_out n))
    by (rewrite Hs; reflexivity).
  destruct (shape_lookup _ _ _ Hl) as (tr & Ht & Htr). injection Htr as Hk Hi Ho.
  assert (Htn : a_name tr = nm) by (unfold name_of in Hname; rewrite Ht in Hname; by injection Hname).
  assert (Hen : enabled s tr = true).
  { apply enabled_spec. rewrite <- Hi. intros a ->%list_elem_of_singleton. simpl. rewrite H1. lia. }
  destruct (obs_save n j s tr Hj Hst Ht (eq_sym Hi) Htn) as (Hsave & Hs1 & C10 & C12).
  set (rq := requester_of nm) in *. set (c := Z.of_nat (2 * n - j)) in *.
  set (s1 := update_actor 0 (set_observer (Some (o1_at tm rq n (S j) c))) s) in *.
  destruct (n_tester_step n s1 (2 * n - j) _ Hn Hs1 C10 C12) as (Hs2 & Hf & Hc2).
  destruct (Nat.leb_spec n (2 * n - j)) as [_|]; [|lia]. destruct Hc2 as [C0 C2].
  destruct (transition_turn 1 s1) as [s2 fired] eqn:Htt. simpl in Hs2, Hf, C0, C2. subst fired.
  assert (Hfr : frames s2 = frames s1) by (change s2 with (s2, true).1; rewrite <- Htt; apply frames_transition_turn).
  assert (Hs2o : observer_of s2 0 = Some (o1_at tm rq n (S j) c)).
  { rewrite (observer_of_frames _ _ _ Hfr). unfold s1.
    by rewrite observer_of_set by exact (observer_of_is_Some _ _ _ Ho0). }
  assert (Hs2n : observer_of s2 2 = None).
  { rewrite (observer_of_frames _ _ _ Hfr). unfold s1.
    by rewrite observer_of_set, decide_False by (lia || exact (observer_of_is_Some _ _ _ Ho0)). }
  pose proof (o1_report rq n (S j) c s2 Hs2o Hs2n) as Hrep. cbv zeta in Hrep.
  rewrite set_observer_twice in Hrep.
  replace (c + - Z.of_nat n + (Z.of_nat n - 1)) with (Z.of_nat (2 * n - S j)) in Hrep by (unfold c; lia).
  eexists. split; [|split].
  - unfold observed_turn. rewrite Ht, <- Hk, Hen, bool_decide_true by done. simpl.
    rewrite (abind_Done _ _ _ _ _ Hsave), Htt.
    unfold firing_incs. rewrite <- Hi, <- Ho. cbn [map n_tester_in n_tester_out arc_src arc_dst arc_label arc_weight app].
    by rewrite (abind_Done _ _ _ _ _ Hrep).
  - unfold obs_state. rewrite shape_set_observer, count_at_set_observer, name_of_set, (name_of_frames _ _ _ Hfr).
    rewrite !observer_of_set, decide_True, decide_False by (done || lia || exact (observer_of_is_Some _ _ _ Hs2o)).
    unfold s1. rewrite name_of_set. repeat split; done || lia.
  - by rewrite count_at_set_observer, C2.
Qed.

(** Once [p1] is down to [n - 1] tokens [t1] is no longer enabled: the
    observed turns change nothing. *)
Lemma obs_idle n s times : (2 <= n)%nat -> obs_state tm nm n (S n) s ->
  observed_turns 1 times s = Done tt s.
Proof.
  intros Hn (Hs & H1 & _). induction times as [|now times IH]; [reflexivity|].
  assert (Hl : shape s !! 1%nat = Some (KTransition, [n_tester_in n], n_tester_out n))
    by (rewrite Hs; reflexivity).
  destruct (shape_lookup _ _ _ Hl) as (tr & Ht & Htr). injection Htr as _ Hi _.
  assert (Hen : enabled s tr = false).
  { apply not_true_iff_false. rewrite enabled_spec, <- Hi. intros Hen.
    specialize (Hen (n_tester_in n) (list_elem_of_here _ _)). simpl in Hen. rewrite H1 in Hen. lia. }
  simpl. rewrite (abind_Done _ _ _ false s); [apply IH|].
  unfold observed_turn. rewrite Ht, Hen, andb_false_r. reflexivity.
Qed.

Lemma n_tester_record_cols rq n l :
  mapM (fun r => record_col r 1) (map (n_tester_record tm rq n) l) =
    Some (map (fun j => VCounts [(GENERIC_LABEL, Z.of_nat (2 * n - j))]) l).
Proof. induction l as [|x l IH]; [reflexivity|]. simpl. rewrite IH. reflexivity. Qed.

Lemma o1_column rq n r :
  get_records 1 (o1_at tm rq n r (Z.of_nat (2 * n - r))) =
    Some (Column (map (fun j => VCounts [(GENERIC_LABEL, Z.of_nat (2 * n - j))]) (seq 0 r))).
Proof.
  unfold get_records. cbn [o_records o1_at]. rewrite n_tester_record_cols. reflexivity.
Qed.
End O1.

Lemma obs_run tm n k j s : (2 <= n)%nat -> (j <= S n)%nat -> obs_state tm "" n j s ->
  exists s', observed_turns 1 (map tm (seq j k)) s = Done tt s' /\
    obs_state tm "" n (Nat.min (j + k) (S n)) s'.
Proof.
  intros Hn. revert j s. induction k as [|k IH]; intros j s Hj Hst.
  { exists s. split; [reflexivity|]. by replace (Nat.min (j + 0) (S n)) with j by lia. }
  destruct (decide (j = S n)) as [->|Hne].
  { exists s. split; [by apply (obs_idle tm "" n)|].
    by replace (Nat.min (S n + S k) (S n)) with (S n) by lia. }
  destruct (obs_step tm "" n j s Hn ltac:(lia) Hst) as (s1 & Hturn & Hst1 & _).
  destruct (IH (S j) s1 ltac:(lia) Hst1) as (s' & Hrun & Hst').
  exists s'. split; [|by replace (j + S k)%nat with (S j + k)%nat by lia].
  simpl. by rewrite (abind_Done _ _ _ _ _ Hturn).
Qed.

Lemma obs_start tm n : (2 <= n)%nat -> obs_state tm "" n 0 (n_tester_net n).
Proof.
  intros Hn. destruct (n_tester_net_shape n Hn) as (Hs & H1 & _).
  split; [done|]. split; [by rewrite H1, Nat.sub_0_r|].
  rewrite n_tester_net_eq, <- (n_tester_o1_at tm) by done. repeat split; reflexivity.
Qed.

(** C18. The observer [o1] of [p1] in [tests/n_tester.py], for any
    [n >= 2]: with [o1] saving a record whenever [t1] is enabled and
    both places reporting each firing to it, [k] turns of [t1]
    complete with no [RuntimeError] and no suspension, [get_records(1)]
    of [o1] is exactly the first [min k (n + 1)] entries of the test's
    [expected] list [2n, 2n - 1, ..., n], and [o1] is still comparing,
    at index [min k (n + 1)].  This holds whatever clock values
    [tm 0], ..., [tm (k - 1)] the turns read. *)
Theorem n_tester_observer_records (tm : nat -> float) (n k : nat) : (2 <= n)%nat ->
  exists s o, observed_turns 1 (map tm (seq 0 k)) (n_tester_net n) = Done tt s /\
    observer_of s 0 = Some o /\
    get_records 1 o = Some (Column (take (Nat.min k (S n)) (n_tester_column n))) /\
    o_class o = Comparative (mk_comparison (n_tester_expected n) (Nat.min k (S n)) true false).
Proof.
  intros Hn. destruct (obs_run tm n k 0 _ Hn ltac:(lia) (obs_start tm n Hn)) as (s & Hrun & _ & _ & Ho & _).
  exists s, (o1_at tm (requester_of "") n (Nat.min k (S n)) (Z.of_nat (2 * n - Nat.min k (S n)))).
  split; [exact Hrun|]. split; [exact Ho|]. split; [|reflexivity].
  rewrite o1_column. unfold n_tester_column. rewrite firstn_map, take_seq.
  by replace (Nat.min (Nat.min k (S n)) (S n)) with (Nat.min k (S n)) by lia.
Qed.

(** ** The run of [tests/n_tester.py] *)

(** The consumer of [p2]: [consumed_count] is the driver's state;
    [place.get_token(GENERIC_LABEL)] is the pop, and the consumer calls
    [soyutnet.terminate()] when the count reaches 0. *)
Definition n_tester_consumer (ot : option token) (consumed_count : Z) : exn + (Z * bool) :=
  match ot with
  | Some _ => inr (consumed_count - 1, bool_decide (consumed_count - 1 = 0))
  | None => inr (consumed_count, false)
  end.

(** Only [p2], at index 2, is a [SpecialPlace]; it has no producer. *)
Definition n_tester_callbacks (i : nat) : special_callbacks Z :=
  if decide (i = 2%nat) then mk_callbacks None (Some (GENERIC_LABEL, n_tester_consumer))
  else mk_callbacks None None.

(** [reg.register(p1)], [reg.register(t1)], [reg.register(p2)], then
    [soyutnet.main(reg)] with [consumed_count = n + 1].  Registration
    writes only ids and names, which [connect] does not read, so it may
    follow the [connect] calls of [n_tester_net]. *)
Definition n_tester_registered (n : nat) : net * registry nat :=
  pt_register_all [0%nat; 1%nat; 2%nat] (n_tester_net n) new_registry.

Definition n_tester_world (n : nat) : world Z :=
  main (n_tester_registered n).2 (n_tester_registered n).1 (Z.of_nat n + 1).

(** A driver whose consumer of [p2] raises. *)
Definition raising_callbacks (i : nat) : special_callbacks Z :=
  if decide (i = 2%nat) then
    mk_callbacks None (Some (GENERIC_LABEL, fun _ _ => inl (UserError "consumer")))
  else mk_callbacks None None.

(** The tasks of the three loops, in [get_loops] order. *)
Definition n_tester_tasks (st : task_state) : list (nat * task_state) :=
  [(0%nat, st); (1%nat, st); (2%nat, st)].

(** The name registration gives [t1], the second actor registered:
    ["t2"] when [INITIAL_ID] is 0. *)
Definition t1_name : string := default_name KTransition (INITIAL_ID + 1 + 1).

(** The world after [r] rounds, [r <= n]: [t1], which registration
    named [t1_name], fired [r] times, [o1] saved [r] records at clock [0],
    and [p2] consumed every token it received. *)
Definition nt_state (n r : nat) (w : world Z) : Prop :=
  obs_state (fun _ => 0%float) t1_name n r (w_net w) /\
  count_at (w_net w) 2 GENERIC_LABEL = 0%nat /\
  w_driver w = Z.of_nat n + 1 - Z.of_nat r /\
  w_tasks w = n_tester_tasks TaskPending /\ w_main w = MainAwaiting /\ w_time w = 0%float.

Lemma nt_start n : (2 <= n)%nat -> nt_state n 0 (n_tester_world n).
Proof.
  intros Hn. unfold nt_state, n_tester_world, n_tester_registered. rewrite n_tester_net_eq by done.
  split; [split; [reflexivity|]|].
  - unfold count_at, count, queue; simpl. decide_refl. simpl. rewrite length_map, repeat_length.
    split; [lia|]. rewrite <- (n_tester_o1_at (fun _ => 0%float)). repeat split; reflexivity.
  - unfold main, get_loops, entries, get_label, pt_labelled; cbn. decide_refl. cbn.
    repeat split; try reflexivity; lia.
Qed.

Lemma actor_kind_at s n i k ins outs :
  shape s = n_tester_shape n -> n_tester_shape n !! i = Some (k, ins, outs) ->
  exists p, actors s !! i = Some p /\ a_kind p = k.
Proof.
  intros Hs Hi. rewrite <- Hs in Hi. destruct (shape_lookup _ _ _ Hi) as (p & Hp & Heq).
  injection Heq as -> _ _. eauto.
Qed.

(** A move that keeps the frames of the actors and the count of [p1]
    keeps the observed state. *)
Lemma obs_state_frames tm nm n j s s' :
  shape s' = shape s -> count_at s' 0 GENERIC_LABEL = count_at s 0 GENERIC_LABEL ->
  frames s' = frames s -> obs_state tm nm n j s -> obs_state tm nm n j s'.
Proof.
  intros Hs Hc Hf (Hsh & H0 & Ho0 & Ho2 & Hn). unfold obs_state.
  by rewrite Hs, Hc, !(observer_of_frames _ _ _ Hf), (name_of_frames _ _ _ Hf).
Qed.

Lemma obs_state_release tm nm n j s : obs_state tm nm n j s -> obs_state tm nm n j (release_locks s).
Proof.
  destruct (release_locks_same s) as (Hs & Hc & Hn).
  intros (Hsh & H0 & Ho0 & Ho2 & Hnm). unfold obs_state.
  by rewrite Hs, Hc, !observer_of_release_locks, Ho0, Ho2, Hn.
Qed.

(** A round of the event loop: the observed turn of [t1] (which fires
    while [p1] holds [n] tokens), then the consumer of [p2]. *)
Lemma nt_round n r w : (2 <= n)%nat -> (r <= n)%nat -> nt_state n r w ->
  let w' := round n_tester_callbacks w in
  obs_state (fun _ => 0%float) t1_name n (S r) (w_net w') /\
  count_at (w_net w') 2 GENERIC_LABEL = 0%nat /\
  w_driver w' = Z.of_nat n - Z.of_nat r /\ w_time w' = 0%float /\
  (if (r <? n)%nat then w_tasks w' = n_tester_tasks TaskPending /\ w_main w' = MainAwaiting
   else w_tasks w' = n_tester_tasks TaskCancelled /\ w_main w' = MainRaised CancelledError).
Proof.
  intros Hn Hr. destruct w as [s d ts m tm]. remember (r <? n)%nat as b eqn:Hb.
  unfold nt_state; cbn [w_net w_driver w_tasks w_main w_time].
  intros (Hst & H2 & Hd & -> & -> & ->). pose proof Hst as (Hs & _).
  destruct (obs_step (fun _ => 0%float) t1_name n r s Hn Hr Hst) as (s1 & Hturn & Hst1 & C2).
  rewrite H2 in C2. pose proof Hst1 as (Hs1 & C1 & _).
  destruct (actor_kind_at s1 n 2 _ _ _ Hs1 eq_refl) as (p2 & Hp2 & Hk2).
  destruct (pop_at_some 2 GENERIC_LABEL s1) as (t & Hpop & Hs2 & Hc2); [lia|].
  pose proof (frames_pop_at 2 GENERIC_LABEL s1) as Hf2.
  destruct (pop_at 2 GENERIC_LABEL s1) as [ot s2] eqn:Hpop'. simpl in Hpop, Hs2, Hc2, Hf2. subst ot.
  assert (T0 : actor_turn n_tester_callbacks 0%float 0 d s = (s, d, TurnDone false)).
  { destruct (actor_kind_at s n 0 _ _ _ Hs eq_refl) as (p0 & Hp0 & Hk0).
    unfold actor_turn. by rewrite Hp0, Hk0. }
  assert (T1 : actor_turn n_tester_callbacks 0%float 1 d s = (s1, d, TurnDone false)).
  { destruct (actor_kind_at s n 1 _ _ _ Hs eq_refl) as (p1 & Hp1 & Hk1).
    unfold actor_turn. by rewrite Hp1, Hk1, Hturn. }
  assert (T2 : actor_turn n_tester_callbacks 0%float 2 d s1 = (s2, d - 1, TurnDone (bool_decide (d - 1 = 0)))).
  { assert (Ho2 : observer_of s2 2 = None).
    { rewrite (observer_of_frames _ _ _ Hf2). by destruct Hst1 as (_ & _ & _ & Ho2 & _). }
    unfold actor_turn. rewrite Hp2, Hk2. unfold special_turn, produce, consume; simpl. rewrite Hpop'. simpl.
    try rewrite (abind_Done _ _ _ false s2) by (apply with_observer_none, Ho2). reflexivity. }
  pose proof (Hc2 0%nat GENERIC_LABEL) as E0. pose proof (Hc2 2%nat GENERIC_LABEL) as E2.
  eval_hits E0. eval_hits E2.
  assert (Hst2 : obs_state (fun _ => 0%float) t1_name n (S r) s2) by (eapply obs_state_frames; [exact Hs2|exact E0|exact Hf2|exact Hst1]).
  unfold round. cbn [length w_tasks n_tester_tasks seq foldl].
  unfold run_task at 3. cbn. rewrite T0. cbn.
  unfold run_task at 2. cbn. rewrite T1. cbn.
  unfold run_task. cbn. rewrite T2. cbn.
  symmetry in Hb. destruct b; [apply Nat.ltb_lt in Hb|apply Nat.ltb_ge in Hb];
  case_bool_decide; simpl; rewrite ?(proj1 (proj2 (release_locks_same _))), ?E2, ?C2;
    (split; [first [done|by apply obs_state_release]|]); (split; [lia|]); (split; [lia|]); (split; [done|]); try lia; done.
Qed.

Lemma run_rounds_S {D} (cbs : nat -> special_callbacks D) k w :
  run_rounds cbs (S k) w = round cbs (run_rounds cbs k w).
Proof. revert w. induction k as [|k IH]; intros w; [done|]. simpl. rewrite <- IH. done. Qed.

Lemma nt_rounds n k : (2 <= n)%nat -> (k <= n)%nat ->
  nt_state n k (run_rounds n_tester_callbacks k (n_tester_world n)).
Proof.
  intros Hn. induction k as [|k IH]; intros Hk; [by apply nt_start|].
  rewrite run_rounds_S. destruct (nt_round n k _ Hn ltac:(lia) (IH ltac:(lia))) as (Hst & H2 & Hd & Htm & Ht).
  destruct (Nat.ltb_spec k n); [|lia]. destruct Ht as [Ht Hm].
  split; [done|]. split; [done|]. split; [rewrite Hd; lia|]. done.
Qed.

(** [n_tester(n)] once its net is built: [asyncio.run(soyutnet.main(reg))]
    runs [fuel] rounds of the event loop, the [CancelledError] that ends
    it is caught and the driver returns [reg.generate_graph()], whose
    edges [arc_def] writes ([Arc.get_graphviz_definition], not under
    [src/]); another exception that ends [main] propagates.  [None]:
    [main] has not ended within [fuel] rounds (rounds deliver no
    signal, so the loop is never stopped). *)
Definition n_tester_run (arc_def : arc -> Z -> string) (fuel n : nat) : option (exn + string) :=
  let w := run_rounds n_tester_callbacks fuel (n_tester_world n) in
  match w_main w with
  | MainRaised CancelledError =>
      Some (inr (generate_graph arc_def "Net" (n_tester_registered n).2 (w_net w)))
  | MainRaised e => Some (inl e)
  | _ => None
  end.

Lemma graph_views_topology n1 n2 :
  topology n1 = topology n2 -> map graph_view (actors n1) = map graph_view (actors n2).
Proof.
  assert (E : forall m, map graph_view (actors m) = map fst (topology m))
    by (intros; unfold topology, graph_view; by rewrite map_map).
  intros H. by rewrite !E, H.
Qed.

(** C9. The run of [tests/n_tester.py] for any [n >= 2] terminates:
    [main] keeps awaiting for [n] rounds of the event loop, and in round
    [n + 1] the consumer of [p2] receives its [n + 1]-th token and calls
    [terminate()]; [asyncio.run] then raises [CancelledError] (which the
    driver catches), [p1] holds [n - 1] tokens, [p2] none, and every
    loop is cancelled.  Every transition ran with its observer calls:
    the comparative observer [o1] of [p1] has saved the [n + 1] records
    of its expected column [2n, ..., n], all matching, so it never
    raised.  So [n_tester(n)] returns, from round [n + 1] on, the graph
    [reg.generate_graph()] of the net as the driver built it. *)
Theorem n_tester_terminates (n : nat) : (2 <= n)%nat ->
  (forall k, (k <= n)%nat -> w_main (run_rounds n_tester_callbacks k (n_tester_world n)) = MainAwaiting) /\
  let w := run_rounds n_tester_callbacks (S n) (n_tester_world n) in
  w_main w = MainRaised CancelledError /\ w_driver w = 0 /\
  count_at (w_net w) 0 GENERIC_LABEL = (n - 1)%nat /\ count_at (w_net w) 2 GENERIC_LABEL = 0%nat /\
  w_tasks w = n_tester_tasks TaskCancelled /\
  (exists o, observer_of (w_net w) 0 = Some o /\
    get_records 1 o = Some (Column (n_tester_column n)) /\
    o_class o = Comparative (mk_comparison (n_tester_expected n) (S n) true false)) /\
  forall arc_def fuel, (S n <= fuel)%nat ->
    n_tester_run arc_def fuel n =
      Some (inr (generate_graph arc_def "Net" (n_tester_registered n).2 (n_tester_registered n).1)).
Proof.
  intros Hn. split; [intros k Hk; apply (nt_rounds n k Hn Hk)|].
  cbv zeta. rewrite run_rounds_S.
  destruct (nt_round n n _ Hn (le_n n) (nt_rounds n n Hn (le_n n)))
    as ((_ & H1 & Ho & _) & H2 & Hd & _ & Ht).
  rewrite Nat.ltb_irrefl in Ht. destruct Ht as [Ht Hm].
  split; [done|]. split; [rewrite Hd; lia|]. split; [rewrite H1; lia|]. split; [done|]. split; [done|].
  split; [eexists; split; [exact Ho|]; split; [apply o1_column|reflexivity]|].
  intros arc_def fuel Hf. unfold n_tester_run.
  replace fuel with (S n + (fuel - S n))%nat by lia.
  rewrite run_rounds_add, run_rounds_S, run_rounds_ended by (by rewrite Hm). rewrite Hm.
  do 2 f_equal. apply generate_graph_topology, graph_views_topology.
  rewrite round_topology, run_rounds_topology. reflexivity.
Qed.

End NTester.

(** ** Witnesses *)

#[local] Existing Instance example_constants.
#[local] Opaque example_constants.

Ltac wf_by_computation := apply (bool_decide_unpack _); vm_compute; reflexivity.

Lemma transition_turn_all_or_nothing_witness :
  exists tr n' fired,
    actors drain_net !! 1%nat = Some tr /\ transition_turn 1 drain_net = (n', fired) /\
    (fired = false -> n' = drain_net) /\
    (fired = true -> shape n' = shape drain_net /\
       forall i l, Z.of_nat (count_at n' i l) =
         Z.of_nat (count_at drain_net i l) - demand (a_input_arcs tr) i l
         + supply (a_output_arcs tr) i l).
Proof.
  do 3 eexists. split; [vm_compute; reflexivity|]. split; [vm_compute; reflexivity|].
  eapply (transition_turn_all_or_nothing 1); [wf_by_computation|vm_compute; reflexivity|].
  vm_compute; reflexivity.
Defined.

Lemma transition_turn_enablement_witness :
  exists tr, actors shared_input_net !! 1%nat = Some tr /\
  ((transition_turn 1 shared_input_net).2 = true <->
     a_kind tr = KTransition /\
     (forall i l, demand (a_input_arcs tr) i l <= Z.of_nat (count_at shared_input_net i l))) /\
  (NoDup (map (fun a => (arc_src a, arc_label a)) (a_input_arcs tr)) ->
   ((transition_turn 1 shared_input_net).2 = true <->
      a_kind tr = KTransition /\ enabled shared_input_net tr = true)).
Proof.
  eexists. split; [vm_compute; reflexivity|].
  apply (transition_turn_enablement 1); [wf_by_computation|vm_compute; reflexivity].
Defined.

Lemma transition_turn_total_witness :
  exists tr n' fired,
    actors drain_net !! 1%nat = Some tr /\ transition_turn 1 drain_net = (n', fired) /\
    total n' GENERIC_LABEL = total drain_net GENERIC_LABEL +
      (if fired then label_weight (a_output_arcs tr) GENERIC_LABEL
                     - label_weight (a_input_arcs tr) GENERIC_LABEL else 0).
Proof.
  do 3 eexists. split; [vm_compute; reflexivity|]. split; [vm_compute; reflexivity|].
  eapply (transition_turn_total 1); [wf_by_computation|vm_compute; reflexivity|].
  vm_compute; reflexivity.
Defined.

Definition drain_actors : net :=
  mk_net [place_with "p0" [1; 2; 3; 4]; transition_named "t1"; place_with "p2" []]
    (mk_registry 5 []).

Lemma connect_spec_witness :
  match connect 0 1 2 GENERIC_LABEL drain_actors with
  | inl e => (exists what, e = ConfigurationError what) /\
      (2 < 1 \/ ~ exists ps pd, actors drain_actors !! 0%nat = Some ps /\
                  actors drain_actors !! 1%nat = Some pd /\ is_place ps <> is_place pd)
  | inr n' => wf_net n' /\ 1 <= 2 /\
      (forall i l', count_at n' i l' = count_at drain_actors i l') /\
      exists ps pd, actors drain_actors !! 0%nat = Some ps /\ actors drain_actors !! 1%nat = Some pd /\
        actors n' !! 0%nat = Some (set_arcs (a_input_arcs ps)
                                    (a_output_arcs ps ++ [mk_arc 0 1 2 GENERIC_LABEL]) ps) /\
        actors n' !! 1%nat = Some (set_arcs (a_input_arcs pd ++ [mk_arc 0 1 2 GENERIC_LABEL])
                                    (a_output_arcs pd) pd)
  end.
Proof. apply connect_spec. wf_by_computation. Defined.

Lemma drain_net_final_witness :
  count_at (run_turns 1 3 drain_net) 0 GENERIC_LABEL = 0%nat /\
  count_at (run_turns 1 3 drain_net) 2 GENERIC_LABEL = 2%nat /\
  (transition_turn 1 (run_turns 1 3 drain_net)).2 = false.
Proof. apply drain_net_final. lia. Defined.

Lemma n_tester_fires_n_plus_one_times_witness :
  count_at (run_turns 1 5 (n_tester_net 3)) 0 GENERIC_LABEL = (2 * 3 - Nat.min 5 4)%nat /\
  count_at (run_turns 1 5 (n_tester_net 3)) 2 GENERIC_LABEL = Nat.min 5 4.
Proof. apply n_tester_fires_n_plus_one_times. lia. Defined.

Lemma transition_turn_tokens_owned_witness :
  wf_net drain_net /\ tokens_owned drain_net /\ tokens_owned (transition_turn 1 drain_net).1.
Proof.
  assert (H1 : wf_net drain_net) by wf_by_computation.
  assert (H2 : tokens_owned drain_net) by (apply (bool_decide_unpack _); vm_compute; reflexivity).
  split; [exact H1|]. split; [exact H2|]. exact (transition_turn_tokens_owned 1 drain_net H1 H2).
Defined.

Lemma reachable_tokens_owned_witness :
  let n := (n_tester_registered 2).1 in
  let reg := (n_tester_registered 2).2 in
  let w := run_task n_tester_callbacks 1 (main reg n 3) in
  wf_net n /\ tokens_owned n /\ relations.rtc (sched_step n_tester_callbacks) (main reg n 3) w /\
  shape (w_net w) = shape n /\ wf_net (w_net w) /\ tokens_owned (w_net w).
Proof.
  cbv zeta.
  assert (H1 : wf_net (n_tester_registered 2).1) by wf_by_computation.
  assert (H2 : tokens_owned (n_tester_registered 2).1)
    by (apply (bool_decide_unpack _); vm_compute; reflexivity).
  assert (H3 : relations.rtc (sched_step n_tester_callbacks)
    (main (n_tester_registered 2).2 (n_tester_registered 2).1 3)
    (run_task n_tester_callbacks 1 (main (n_tester_registered 2).2 (n_tester_registered 2).1 3)))
    by (apply relations.rtc_once; constructor; vm_compute; reflexivity).
  split; [exact H1|]. split; [exact H2|]. split; [exact H3|].
  exact (reachable_tokens_owned n_tester_callbacks _ _ 3 _ H1 H2 H3).
Defined.

Lemma task_exception_ends_main_witness :
  let w := main (n_tester_registered 2).2 (n_tester_registered 2).1 3 in
  let w' := settle (run_task raising_callbacks 2 w) in
  w_main w' = MainRaised (UserError "consumer") /\ w_net w' = release_locks (w_net w) /\
  w_tasks w' !! 2%nat = Some (2%nat, TaskFailed (UserError "consumer")) /\
  Forall (fun t => t.2 <> TaskPending /\ t.2 <> TaskBlocked) (w_tasks w').
Proof.
  cbv zeta.
  apply (task_exception_ends_main raising_callbacks 2 2 _ (n_tester_registered 2).1 3
           (UserError "consumer")); vm_compute; reflexivity.
Defined.

Lemma n_tester_terminates_witness :
  (2 <= 3)%nat /\
  w_main (run_rounds n_tester_callbacks 4 (n_tester_world 3)) = MainRaised CancelledError /\
  count_at (w_net (run_rounds n_tester_callbacks 4 (n_tester_world 3))) 0 GENERIC_LABEL = 2%nat.
Proof.
  assert (Hn : (2 <= 3)%nat) by lia. split; [exact Hn|].
  destruct (n_tester_terminates 3 Hn) as [_ (Hm & _ & H1 & _)]. split; [exact Hm|exact H1].
Defined.

(** A clock reading [j] seconds at the [j]-th turn. *)
Definition tick (j : nat) : float := PrimFloat.of_uint63 (Uint63.of_Z (Z.of_nat j)).

(** [drain_net] with a plain observer keeping at most 10 records on
    [p0], and its three loops pending. *)
Definition limited_drain_net : net := update_actor 0 (set_observer (Some limited_observer)) drain_net.

Definition no_callbacks (i : nat) : special_callbacks Z := mk_callbacks None None.

Definition limited_world : world Z := mk_world limited_drain_net 0 (n_tester_tasks TaskPending) MainAwaiting 0%float.

(** The transition [t1] of [drain_net], once connected. *)
Definition drain_t1 : actor :=
  mk_actor KTransition "t1" 0 GENERIC_LABEL [] [mk_arc 0 1 2 GENERIC_LABEL] [mk_arc 1 2 1 GENERIC_LABEL] None.

Lemma record_limit_stalls_transition_witness :
  actors (w_net limited_world) !! 1%nat = Some drain_t1 /\
  enabled (w_net limited_world) drain_t1 = true /\
  observer_of (w_net limited_world) 0 = Some limited_observer /\
  same_marking (w_net limited_world) (w_net (run_task no_callbacks 1 limited_world)) /\
  (forall w', relations.rtc (sched_step no_callbacks) (run_task no_callbacks 1 limited_world) w' ->
     task_stuck 1 1 (w_tasks w')).
Proof.
  assert (H1 : actors (w_net limited_world) !! 1%nat = Some drain_t1) by (vm_compute; reflexivity).
  assert (H2 : enabled (w_net limited_world) drain_t1 = true) by (vm_compute; reflexivity).
  assert (H3 : observer_of (w_net limited_world) 0 = Some limited_observer) by (vm_compute; reflexivity).
  destruct (record_limit_stalls_transition no_callbacks 1 1 limited_world drain_t1 0 [] limited_observer
              eq_refl eq_refl H1 eq_refl H2 eq_refl H3 eq_refl eq_refl ltac:(vm_compute; reflexivity))
    as [Hm Hs].
  split; [exact H1|]. split; [exact H2|]. split; [exact H3|]. split; [exact Hm|].
  intros w' Hw'. destruct (Hs w' Hw') as [Hc|[Hb _]]; [right|left]; exact Hc || exact Hb.
Defined.

Lemma reachable_locks_held_by_suspended_witness :
  let w0 := main (n_tester_registered 2).2 limited_drain_net 0 in
  let w := run_task no_callbacks 1 w0 in
  (forall j o, observer_of limited_drain_net j = Some o -> o_locked o = false) /\
  relations.rtc (sched_step no_callbacks) w0 w /\ lock_held 0 (w_net w) /\
  exists k i, w_tasks w !! k = Some (i, TaskBlocked).
Proof.
  cbv zeta.
  assert (H0 : forall j o, observer_of limited_drain_net j = Some o -> o_locked o = false).
  { intros j o Ho. destruct j as [|[|[|j]]]; vm_compute in Ho; try discriminate.
    injection Ho as <-. reflexivity. }
  assert (Hr : relations.rtc (sched_step no_callbacks) (main (n_tester_registered 2).2 limited_drain_net 0)
                 (run_task no_callbacks 1 (main (n_tester_registered 2).2 limited_drain_net 0)))
    by (apply relations.rtc_once; constructor; vm_compute; reflexivity).
  assert (Hl : lock_held 0 (w_net (run_task no_callbacks 1 (main (n_tester_registered 2).2 limited_drain_net 0))))
    by (eexists; split; vm_compute; reflexivity).
  split; [exact H0|]. split; [exact Hr|]. split; [exact Hl|].
  exact (reachable_locks_held_by_suspended no_callbacks _ _ _ _ H0 Hr 0 Hl).
Defined.

Lemma reachable_records_time_ordered_witness :
  (forall i o, observer_of (n_tester_registered 2).1 i = Some o -> o_records o = []) /\
  relations.rtc (sched_step n_tester_callbacks) (n_tester_world 2) (run_task n_tester_callbacks 1 (n_tester_world 2)) /\
  (forall i o, observer_of (w_net (run_task n_tester_callbacks 1 (n_tester_world 2))) i = Some o ->
     time_ordered (o_records o) /\
     Forall (fun r => time_le (r_time r) (w_time (run_task n_tester_callbacks 1 (n_tester_world 2)))) (o_records o)).
Proof.
  assert (H0 : forall i o, observer_of (n_tester_registered 2).1 i = Some o -> o_records o = []).
  { intros i o Ho. destruct i as [|[|[|i]]]; vm_compute in Ho; try discriminate.
    injection Ho as <-. reflexivity. }
  assert (Hr : relations.rtc (sched_step n_tester_callbacks) (n_tester_world 2)
                 (run_task n_tester_callbacks 1 (n_tester_world 2)))
    by (apply relations.rtc_once; constructor; vm_compute; reflexivity).
  split; [exact H0|]. split; [exact Hr|].
  exact (reachable_records_time_ordered n_tester_callbacks _ _ _ _ H0 Hr).
Defined.

(** An arc rendering of one line, for the export witnesses. *)
Definition arc_stub (a : arc) (t : Z) : string := "arc".

Lemma generate_graph_lines_witness :
  count_eol (generate_graph arc_stub "Net" (n_tester_registered 2).2 (n_tester_registered 2).1) = 12%nat.
Proof.
  rewrite (generate_graph_lines arc_stub "Net" (n_tester_registered 2).2 (n_tester_registered 2).1).
  - vm_compute. reflexivity.
  - vm_compute. reflexivity.
  - repeat constructor.
  - intros a. reflexivity.
Defined.

Lemma generate_graph_topology_witness :
  map graph_view (actors (n_tester_registered 2).1) =
    map graph_view (actors (transition_turn 1 (n_tester_registered 2).1).1) /\
  generate_graph arc_stub "Net" (n_tester_registered 2).2 (n_tester_registered 2).1 =
    generate_graph arc_stub "Net" (n_tester_registered 2).2 (transition_turn 1 (n_tester_registered 2).1).1.
Proof.
  assert (Hv : map graph_view (actors (n_tester_registered 2).1) =
               map graph_view (actors (transition_turn 1 (n_tester_registered 2).1).1))
    by (vm_compute; reflexivity).
  split; [exact Hv|]. exact (generate_graph_topology arc_stub "Net" _ _ _ Hv).
Defined.

Lemma reachable_marking_witness :
  let n := (n_tester_registered 2).1 in
  let reg := (n_tester_registered 2).2 in
  let w := run_task n_tester_callbacks 1 (main reg n 3) in
  wf_net n /\ relations.rtc (sched_step n_tester_callbacks) (main reg n 3) w /\
  relations.rtc (pt_step (shape n)) (marking_of n) (marking_of (w_net w)).
Proof.
  cbv zeta.
  assert (H1 : wf_net (n_tester_registered 2).1) by wf_by_computation.
  assert (H2 : relations.rtc (sched_step n_tester_callbacks)
    (main (n_tester_registered 2).2 (n_tester_registered 2).1 3)
    (run_task n_tester_callbacks 1 (main (n_tester_registered 2).2 (n_tester_registered 2).1 3)))
    by (apply relations.rtc_once; constructor; vm_compute; reflexivity).
  split; [exact H1|]. split; [exact H2|].
  exact (reachable_marking n_tester_callbacks _ _ 3 _ H1 H2).
Defined.

Lemma n_tester_observer_records_witness :
  (2 <= 2)%nat /\
  exists s o, observed_turns 1 (map tick (seq 0 4)) (n_tester_net 2) = Done tt s /\
    observer_of s 0 = Some o /\
    get_records 1 o = Some (Column (take (Nat.min 4 3) (n_tester_column 2))) /\
    o_class o = Comparative (mk_comparison (n_tester_expected 2) (Nat.min 4 3) true false).
Proof. split; [lia|]. apply (n_tester_observer_records tick 2 4). lia. Defined.

Lemma run_turns_terminates_witness :
  wf_net (n_tester_net 2) /\
  shape (n_tester_net 2) !! 1%nat = Some (KTransition, [n_tester_in 2], n_tester_out 2) /\
  supply (n_tester_out 2) 0 GENERIC_LABEL < demand [n_tester_in 2] 0 GENERIC_LABEL /\
  (count_at (n_tester_net 2) 0 GENERIC_LABEL <= 4)%nat /\
  (transition_turn 1 (run_turns 1 4 (n_tester_net 2))).2 = false.
Proof.
  assert (Hwf : wf_net (n_tester_net 2)) by wf_by_computation.
  assert (Hs : shape (n_tester_net 2) !! 1%nat = Some (KTransition, [n_tester_in 2], n_tester_out 2))
    by (vm_compute; reflexivity).
  assert (Hlt : supply (n_tester_out 2) 0 GENERIC_LABEL < demand [n_tester_in 2] 0 GENERIC_LABEL)
    by (vm_compute; reflexivity).
  assert (Hc : (count_at (n_tester_net 2) 0 GENERIC_LABEL <= 4)%nat) by (vm_compute; lia).
  split; [exact Hwf|]. split; [exact Hs|]. split; [exact Hlt|]. split; [exact Hc|].
  exact (run_turns_terminates 1 _ 0 GENERIC_LABEL _ _ 4 Hwf Hs Hlt Hc).
Defined.
