(* ===== verification/Tracking.v ===== *)
(** * The observers' counters follow the places' token counts

    [inc_token_count] is how a place tells its observer that its count
    of a label changed (the docstring of [observer.py]: it "is called
    by places when a new token [is] acquired or sent"), and [save]
    copies the counters into a record.  This file shows that the
    counters are exact in every run: when every observer starts with
    the counts of its place and none can suspend (its lock is free and,
    for a plain [Observer], [record_limit <= 0]), then in every world
    reachable by [sched_step] each observer's counter of each label is
    its place's count ([reachable_observers_track]).  Since [save]
    copies the counters, a record then holds the counts of the place
    at the moment of the save (this last step is not stated as a
    theorem: it concerns the history of the run).

    The invariant is [tracks_with pend]: the counter plus the change
    not yet reported ([pend]) is the count.  A firing changes the
    counts by the arc weights and leaves [pend] equal to what
    [firing_incs] reports; [inc_all] reports it; a save changes no
    counter; a [SpecialPlace] reports its produced and consumed
    tokens. *)

From S2P Require Import Prelude Observer Registry Net Ownership Observed Scheduler PetriNet Scenarios.
From stdpp Require Import relations.

Local Open Scope Z_scope.
Local Open Scope aio_scope.

Section TrackingModel.
Context `{CS : Constants}.

(** ** Observers that never suspend *)

(** [_token_counters.get(label, 0)] *)
Definition counter (o : observer) (l : Z) : Z := default 0 (dict_get l (o_token_counters o)).

(** The lock is free and, for a plain observer, there is no record
    limit, so no call suspends. *)
Definition free_observer (o : observer) : Prop :=
  o_locked o = false /\ (o_class o = PlainObserver -> o_record_limit o <= 0).

Lemma inc_token_count_free lbl inc o :
  free_observer o ->
  exists o', inc_token_count lbl inc o = Done tt o' /\ free_observer o' /\
    forall l, counter o' l = counter o l + (if bool_decide (l = lbl) then inc else 0).
Proof.
  intros [Hl Hp]. unfold inc_token_count. rewrite with_lock_free by done.
  unfold amodify; simpl. eexists. split; [reflexivity|]. split; [by split|].
  intros l. unfold counter; simpl. case_bool_decide as Heq.
  - subst l. rewrite dict_get_set_eq. simpl. unfold dict_mem.
    destruct (dict_get lbl (o_token_counters o)) eqn:E; [by rewrite E|].
    rewrite dict_get_set_eq. simpl. lia.
  - rewrite dict_get_set_ne by congruence. unfold dict_mem.
    destruct (dict_get lbl (o_token_counters o)); [lia|]. rewrite dict_get_set_ne by congruence. lia.
Qed.

(** A [save] on an observer that never suspends completes or raises
    (a comparative observer's mismatch), releases the lock, and leaves
    the counters alone. *)
Lemma save_free requester now o :
  free_observer o ->
  match save requester now o with
  | Done _ o' | Raised _ o' => free_observer o' /\ o_token_counters o' = o_token_counters o
  | Blocked _ => False
  end.
Proof.
  intros [Hl Hp]. rewrite save_unfold by done. unfold save_record; simpl.
  destruct (o_class o) as [|c] eqn:Hc.
  - specialize (Hp eq_refl). unfold plain_save, abind, add_record, clean_records; simpl.
    case_ltb; [lia|]. simpl. split; [|done]. split; [done|]. simpl. by rewrite Hc.
  - unfold comparative_save. destruct (c_still_comparing c).
    + destruct (compare_columns _ _ _ _); simpl; (split; [split; [done|]|done]); simpl; [by rewrite Hc|done].
    + simpl. split; [split; [done|]|done]. simpl. by rewrite Hc.
Qed.

(** ** Nets whose observers follow the counts *)

Definition free_observers (n : net) : Prop :=
  forall i o, observer_of n i = Some o -> free_observer o.

(** The counter plus the change [pend] not yet reported is the count. *)
Definition tracks_with (pend : nat -> Z -> Z) (n : net) : Prop :=
  forall i o l, observer_of n i = Some o -> counter o l + pend i l = Z.of_nat (count_at n i l).

Definition tracks (n : net) : Prop := tracks_with (fun _ _ => 0) n.

(** The change of count that [incs] reports for the place [i] and the
    label [l]. *)
Fixpoint reported (incs : list (nat * Z * Z)) (i : nat) (l : Z) : Z :=
  match incs with
  | [] => 0
  | (j, l', inc) :: rest => (if hit j l' i l then inc else 0) + reported rest i l
  end.

Lemma reported_app incs1 incs2 i l :
  reported (incs1 ++ incs2) i l = reported incs1 i l + reported incs2 i l.
Proof. induction incs1 as [|[[j l'] inc] incs1 IH]; simpl; lia. Qed.

(** A firing reports the change of count the firing makes. *)
Lemma reported_firing_incs tr i l :
  reported (firing_incs tr) i l = - demand (a_input_arcs tr) i l + supply (a_output_arcs tr) i l.
Proof.
  unfold firing_incs. rewrite reported_app.
  induction (a_input_arcs tr) as [|a ins IH]; simpl;
    [induction (a_output_arcs tr) as [|b outs IH']; simpl; [done|]; destruct (hit _ _ i l); lia|].
  destruct (hit _ _ i l); lia.
Qed.

(** Replacing the observer of [j] by one whose counters moved by [d]
    moves [d] from the pending change to the counters. *)
Lemma set_observer_tracks pend n j o o' (d : Z -> Z) :
  observer_of n j = Some o -> free_observers n -> free_observer o' ->
  (forall l, counter o' l = counter o l + d l) ->
  tracks_with (fun i l => pend i l + (if decide (i = j) then d l else 0)) n ->
  free_observers (update_actor j (set_observer (Some o')) n) /\
  tracks_with pend (update_actor j (set_observer (Some o')) n).
Proof.
  intros Ho Hf Ho' Hd Ht. pose proof (observer_of_is_Some _ _ _ Ho) as Hj. split.
  - intros i o1. rewrite observer_of_set by done. case_decide; [intros [= <-]; done|apply Hf].
  - intros i o1 l. rewrite observer_of_set, count_at_set_observer by done.
    case_decide as Hij; [subst i; intros [= <-]|intros Hi].
    + specialize (Ht j o l Ho). cbv beta in Ht. rewrite decide_True in Ht by done. rewrite Hd. lia.
    + specialize (Ht i o1 l Hi). cbv beta in Ht. rewrite decide_False in Ht by done. lia.
Qed.

Lemma hit_same j l' l : hit j l' j l = bool_decide (l = l').
Proof. unfold hit. apply bool_decide_ext. naive_solver. Qed.

(** The reports of [incs] to observers that never suspend complete and
    move the reported changes into the counters. *)
Lemma inc_all_tracks incs pend n :
  free_observers n -> tracks_with (fun i l => pend i l + reported incs i l) n ->
  exists n', inc_all incs n = Done tt n' /\ erase n' = erase n /\
    free_observers n' /\ tracks_with pend n'.
Proof.
  revert pend n. induction incs as [|[[j l'] inc] incs IH]; intros pend n Hf Ht.
  { exists n. split; [done|]. split; [done|]. split; [done|].
    intros i o l Ho. specialize (Ht i o l Ho). simpl in Ht. lia. }
  cbn [inc_all]. destruct (observer_of n j) as [o|] eqn:Ho.
  - destruct (inc_token_count_free l' inc o (Hf j o Ho)) as (o' & Hinc & Hfree' & Hcnt).
    assert (Hw : with_observer j (let* _ := inc_token_count l' inc in aret false) n =
                 Done false (update_actor j (set_observer (Some o')) n)).
    { apply (with_observer_done _ _ _ _ _ _ Ho). unfold abind. by rewrite Hinc. }
    destruct (set_observer_tracks (fun i l => pend i l + reported incs i l) n j o o'
                (fun l => if bool_decide (l = l') then inc else 0) Ho Hf Hfree' Hcnt) as [Hf1 Ht1].
    { intros i o1 l Hi. specialize (Ht i o1 l Hi). simpl in Ht.
      case_decide as Hij; [subst i; rewrite hit_same in Ht|unfold hit in Ht; rewrite bool_decide_false in Ht by naive_solver];
        lia. }
    destruct (IH pend _ Hf1 Ht1) as (n' & Hrun & He & Hf' & Ht').
    exists n'. rewrite (abind_Done _ _ _ _ _ Hw). split; [exact Hrun|]. split; [|done].
    by rewrite He, erase_set_observer.
  - rewrite (abind_Done _ _ _ false n) by (by apply with_observer_none).
    apply IH; [done|]. intros i o1 l Hi. specialize (Ht i o1 l Hi). simpl in Ht.
    destruct (decide (i = j)) as [->|Hij]; [congruence|].
    unfold hit in Ht. rewrite bool_decide_false in Ht by naive_solver. lia.
Qed.

(** The saves of a transition turn complete or raise, change no counter
    and leave every observer free. *)
Lemma save_all_tracks srcs requester now pend n :
  free_observers n -> tracks_with pend n ->
  match save_all srcs requester now n with
  | Done _ n' | Raised _ n' => erase n' = erase n /\ free_observers n' /\ tracks_with pend n'
  | Blocked _ => False
  end.
Proof.
  revert n. induction srcs as [|j srcs IH]; intros n Hf Ht; [done|]. cbn [save_all].
  destruct (observer_of n j) as [o|] eqn:Ho.
  - pose proof (save_free requester now o (Hf j o Ho)) as Hs.
    unfold abind at 1. rewrite (with_observer_some _ _ _ _ Ho).
    destruct (save requester now o) as [b o'|e o'|o'] eqn:Hsv; [| |done].
    all: destruct Hs as [Hfree' Hc].
    all: destruct (set_observer_tracks pend n j o o' (fun _ => 0) Ho Hf Hfree') as [Hf1 Ht1];
      [intros l; unfold counter; rewrite Hc; lia
      |intros i o1 l Hi; specialize (Ht i o1 l Hi); cbv beta; case_decide; lia|].
    + simpl. specialize (IH _ Hf1 Ht1). destruct (save_all srcs requester now _) as [? n'|? n'|?]; [| |done].
      all: destruct IH as (He & Hf' & Ht'); split; [by rewrite He, erase_set_observer|by split].
    + simpl. split; [apply erase_set_observer|by split].
  - rewrite (abind_Done _ _ _ false n) by (by apply with_observer_none). by apply IH.
Qed.

(** A net with the same actors up to their observers has the same arcs. *)
Lemma erase_arcs n n1 t tr :
  erase n1 = erase n -> actors n !! t = Some tr ->
  exists tr1, actors n1 !! t = Some tr1 /\
    a_input_arcs tr1 = a_input_arcs tr /\ a_output_arcs tr1 = a_output_arcs tr.
Proof.
  intros He Ht. pose proof (f_equal (fun m => actors m !! t) He) as H. cbv beta in H.
  rewrite !erase_lookup, Ht in H. destruct (actors n1 !! t) as [tr1|]; [|done].
  simpl in H. assert (H' : set_observer None tr1 = set_observer None tr) by congruence.
  exists tr1. split; [done|].
  exact (conj (f_equal a_input_arcs H') (f_equal a_output_arcs H')).
Qed.

Lemma wf_net_erase n n1 : erase n1 = erase n -> wf_net n -> wf_net n1.
Proof. intros He. unfold wf_net. by rewrite <- (shape_erase n1), He, shape_erase. Qed.

(** A firing of the transition at [t]: the counts move by the arc
    weights and the observers stay, so the change to report is exactly
    what [firing_incs] reports. *)
Lemma transition_turn_tracks t tr n n' :
  wf_net n -> actors n !! t = Some tr -> transition_turn t n = (n', true) -> tracks n ->
  tracks_with (fun i l => 0 + reported (firing_incs tr) i l) n'.
Proof.
  intros Hwf Ht Htt Htr i o l Ho.
  assert (Hfr : frames n' = frames n) by (change n' with (n', true).1; rewrite <- Htt; apply frames_transition_turn).
  rewrite (observer_of_frames _ _ _ Hfr) in Ho. specialize (Htr i o l Ho). simpl in Htr.
  destruct (transition_turn_cases _ _ _ _ _ Hwf Ht Htt) as [[? _]|(_ & _ & Hc)]; [done|].
  rewrite Hc, reported_firing_incs. lia.
Qed.

(** An observed transition turn on a net whose observers follow the
    counts and never suspend completes or raises, and the observers
    still follow the counts. *)
Lemma observed_turn_tracks now t n :
  wf_net n -> free_observers n -> tracks n ->
  match observed_turn now t n with
  | Done _ n' | Raised _ n' => free_observers n' /\ tracks n'
  | Blocked _ => False
  end.
Proof.
  intros Hwf Hf Ht. unfold observed_turn.
  destruct (actors n !! t) as [tr|] eqn:Htr; [|by split].
  destruct (_ && _)%bool; [|by split].
  pose proof (save_all_tracks (map arc_src (a_input_arcs tr)) (a_name tr) now _ n Hf Ht) as Hs.
  unfold abind at 1. destruct (save_all _ _ _ n) as [[] n1|e n1|n1]; [|exact (proj2 Hs)|done].
  destruct Hs as (He & Hf1 & Ht1).
  destruct (erase_arcs n n1 t tr He Htr) as (tr1 & Ht1r & Hin & Hout).
  pose proof (wf_net_erase n n1 He Hwf) as Hwf1.
  destruct (transition_turn t n1) as [n2 []] eqn:Htt;
    [|destruct (transition_turn_cases _ _ _ _ _ Hwf1 Ht1r Htt) as [[_ ->]|[? _]]; [by split|done]].
  pose proof (transition_turn_tracks t tr1 n1 n2 Hwf1 Ht1r Htt Ht1) as Ht2.
  assert (Hf2 : free_observers n2).
  { intros i o Ho. apply (Hf1 i). rewrite <- Ho. symmetry. apply observer_of_frames.
    change n2 with (n2, true).1. rewrite <- Htt. apply frames_transition_turn. }
  assert (Hrep : forall i l, reported (firing_incs tr1) i l = reported (firing_incs tr) i l)
    by (intros; by rewrite !reported_firing_incs, Hin, Hout).
  destruct (inc_all_tracks (firing_incs tr) (fun _ _ => 0) n2 Hf2) as (n3 & Hrun & _ & Hf3 & Ht3).
  { intros i o l Ho. rewrite <- Hrep. exact (Ht2 i o l Ho). }
  unfold abind. rewrite Hrun. by split.
Qed.

(** ** [SpecialPlace] turns *)

Section Special.
Context {D : Type} (cbs : nat -> special_callbacks D).

(** The producer puts the minted token and lists it to report. *)
Lemma produce_tracks i p d n n1 d1 incs :
  actors n !! i = Some p -> produce cbs i d n = inr (n1, d1, incs) -> tracks n ->
  frames n1 = frames n /\ tracks_with (fun j l => 0 + reported incs j l) n1.
Proof.
  intros Hp Hpr Ht. split; [exact (produce_frames cbs _ _ _ _ _ _ Hpr)|].
  intros j o l' Ho. rewrite (observer_of_frames _ _ _ (produce_frames cbs _ _ _ _ _ _ Hpr)) in Ho.
  specialize (Ht j o l' Ho). simpl in Ht. revert Hpr. unfold produce.
  destruct (sp_producer (cbs i)) as [f|]; [|intros [= <- _ <-]; simpl; lia].
  destruct (f d) as [|[[l|] d']]; [done| |intros [= <- _ <-]; simpl; lia].
  pose proof (mint_length 1 l (tokens_reg n)) as Hlen.
  destruct (mint 1 l (tokens_reg n)) as [ts r']. intros [= <- _ <-]. simpl in Hlen |- *.
  rewrite count_at_put by (simpl; by eapply lookup_lt_Some). rewrite Hlen.
  unfold count_at in Ht |- *; simpl. destruct (hit i l j l'); lia.
Qed.

(** The consumer's pop and its report keep the counters exact; the
    turn never suspends. *)
Lemma consume_tracks i d n :
  free_observers n -> tracks n ->
  let '(n', _, r) := consume cbs i d n in free_observers n' /\ tracks n' /\ r <> TurnBlocked.
Proof.
  intros Hf Ht. unfold consume. destruct (sp_consumer (cbs i)) as [[l f]|]; [|done].
  assert (Hpop : exists incs, frames (pop_at i l n).2 = frames n /\
            tracks_with (fun j l' => 0 + reported incs j l') (pop_at i l n).2 /\
            incs = match (pop_at i l n).1 with Some _ => [(i, l, -1)] | None => [] end).
  { destruct (count_at n i l) as [|c] eqn:Hc.
    - rewrite pop_at_none by done. exists []. split; [done|]. split; [|done].
      intros j o l' Ho. simpl. specialize (Ht j o l' Ho). simpl in Ht. lia.
    - destruct (pop_at_some i l n) as (t & Ht1 & _ & Hcnt); [lia|]. rewrite Ht1.
      exists [(i, l, -1)]. split; [apply frames_pop_at|]. split; [|done].
      intros j o l' Ho. rewrite (observer_of_frames _ _ _ (frames_pop_at i l n)) in Ho.
      specialize (Ht j o l' Ho). simpl in Ht |- *. rewrite Hcnt.
      destruct (hit i l j l') eqn:Hh; [|lia].
      unfold hit in Hh. apply bool_decide_eq_true_1 in Hh as [-> ->]. rewrite Hc in Ht. lia. }
  destruct Hpop as (incs & Hfr & Ht1 & Hincs).
  destruct (pop_at i l n) as [ot n1]. simpl in Hfr, Ht1, Hincs. subst incs.
  assert (Hf1 : free_observers n1) by (intros j o Ho; apply (Hf j); by rewrite <- (observer_of_frames _ _ _ Hfr)).
  destruct (inc_all_tracks _ (fun _ _ => 0) n1 Hf1 Ht1) as (n2 & Hrun & _ & Hf2 & Ht2).
  rewrite Hrun. by destruct (f ot d) as [|[]].
Qed.

Lemma special_turn_tracks i p d n :
  actors n !! i = Some p -> free_observers n -> tracks n ->
  let '(n', _, r) := special_turn cbs i d n in free_observers n' /\ tracks n' /\ r <> TurnBlocked.
Proof.
  intros Hp Hf Ht. unfold special_turn.
  destruct (produce cbs i d n) as [e|[[n1 d1] incs]] eqn:Hpr; [done|].
  destruct (produce_tracks i p d n n1 d1 incs Hp Hpr Ht) as [Hfr Ht1].
  assert (Hf1 : free_observers n1) by (intros j o Ho; apply (Hf j); by rewrite <- (observer_of_frames _ _ _ Hfr)).
  destruct (inc_all_tracks incs (fun _ _ => 0) n1 Hf1 Ht1) as (n2 & Hrun & _ & Hf2 & Ht2).
  rewrite Hrun. exact (consume_tracks i d1 n2 Hf2 Ht2).
Qed.

(** No turn of any actor suspends, and each keeps the counters exact. *)
Lemma actor_turn_tracks now i d n :
  wf_net n -> free_observers n -> tracks n ->
  let '(n', _, r) := actor_turn cbs now i d n in free_observers n' /\ tracks n' /\ r <> TurnBlocked.
Proof.
  intros Hwf Hf Ht. unfold actor_turn. destruct (actors n !! i) as [p|] eqn:Hp; [|done].
  destruct (a_kind p); [done|exact (special_turn_tracks i p d n Hp Hf Ht)|].
  pose proof (observed_turn_tracks now i n Hwf Hf Ht) as H.
  destruct (observed_turn now i n); [by destruct H..|done].
Qed.
End Special.

(** ** Every reachable world *)

Definition tracked (n : net) : Prop := wf_net n /\ free_observers n /\ tracks n.

Lemma release_locks_tracked n : tracked n -> tracked (release_locks n).
Proof.
  intros (Hwf & Hf & Ht). destruct (release_locks_same n) as (_ & Hc & _).
  split; [exact (wf_net_step _ _ (net_step_release n) Hwf)|]. split.
  - intros i o. rewrite observer_of_release_locks. destruct (observer_of n i) as [o0|] eqn:Ho; [|done].
    intros [= <-]. split; [done|apply (Hf i o0 Ho)].
  - intros i o l. rewrite observer_of_release_locks, Hc. destruct (observer_of n i) as [o0|] eqn:Ho; [|done].
    intros [= <-]. exact (Ht i o0 l Ho).
Qed.

Lemma sched_step_tracked {D} (cbs : nat -> special_callbacks D) w w' :
  sched_step cbs w w' -> tracked (w_net w) -> tracked (w_net w').
Proof.
  intros Hs. apply (sched_step_net_by cbs (inv_rel tracked) w w'); [exact release_locks_tracked| |exact Hs].
  intros i d (Hwf & Hf & Ht). split; [exact (wf_net_step _ _ (actor_turn_step cbs _ i d _ Hwf) Hwf)|].
  pose proof (actor_turn_tracks cbs (w_time w) i d _ Hwf Hf Ht) as H.
  destruct (actor_turn cbs _ _ _ _) as [[n' d'] r]. by destruct H as (? & ? & _).
Qed.

(** No task is left suspended on a lock. *)
Definition never_blocked (ts : list (nat * task_state)) : Prop :=
  Forall (fun t => t.2 <> TaskBlocked) ts.

Lemma cancel_all_never_blocked ts : never_blocked (map cancel_task ts).
Proof. apply Forall_map, Forall_forall. intros t _. apply cancel_task_not_pending. Qed.

Lemma sched_step_never_blocked {D} (cbs : nat -> special_callbacks D) w w' :
  sched_step cbs w w' -> tracked (w_net w) -> never_blocked (w_tasks w) -> never_blocked (w_tasks w').
Proof.
  intros Hs (Hwf & Hf & Ht) Hb.
  destruct Hs as [k w Hr|w|sig h w Hh|w|t w _]; [|apply cancel_all_never_blocked| |unfold settle|done].
  - unfold run_task. destruct (w_tasks w !! k) as [[i []]|]; try done. rewrite Hr.
    pose proof (actor_turn_tracks cbs (time w) i (w_driver w) _ Hwf Hf Ht) as H.
    destruct (actor_turn cbs _ _ _ _) as [[n' d'] r]. destruct H as (_ & _ & Hnb).
    destruct r as [[]|e|]; [apply cancel_all_never_blocked|done|by apply Forall_insert|done].
  - destruct (installed_handler _ _ Hh) as [-> _]. unfold int_handler.
    destruct (_ || _)%bool; [apply cancel_all_never_blocked|done].
  - destruct (w_main w); try done. apply cancel_all_never_blocked.
Qed.

(** C15. If the observers start unlocked, with no record limit on a
    plain observer, and with the counts of their places, then in every
    world reachable from [main] no task is suspended on a lock, and
    each observer is still unlocked and its
    [_token_counters.get(label, 0)] is its place's count of [label]. *)
Theorem reachable_observers_track {D} (cbs : nat -> special_callbacks D) reg n d w :
  wf_net n -> free_observers n -> tracks n -> rtc (sched_step cbs) (main reg n d) w ->
  Forall (fun t => t.2 <> TaskBlocked) (w_tasks w) /\
  forall i o l, observer_of (w_net w) i = Some o ->
    o_locked o = false /\ counter o l = Z.of_nat (count_at (w_net w) i l).
Proof.
  intros Hwf Hf Ht Hr.
  assert (Hw : tracked (w_net w) /\ never_blocked (w_tasks w)).
  { refine (rtc_invariant cbs (fun w => tracked (w_net w) /\ never_blocked (w_tasks w)) _ _ _ Hr _).
    - intros w1 w2 Hs [H1 H2]. split; [exact (sched_step_tracked cbs w1 w2 Hs H1)|].
      exact (sched_step_never_blocked cbs w1 w2 Hs H1 H2).
    - split; [done|]. apply Forall_map, Forall_true. done. }
  destruct Hw as ((_ & Hf' & Ht') & Hb). split; [exact Hb|].
  intros i o l Ho. split; [exact (proj1 (Hf' i o Ho))|].
  specialize (Ht' i o l Ho). simpl in Ht'. lia.
Qed.
End TrackingModel.

(** ** The run of [tests/n_tester.py] *)

#[local] Existing Instance example_constants.
#[local] Opaque example_constants.

Lemma reachable_observers_track_witness :
  let n := (n_tester_registered 2).1 in
  let w := run_task n_tester_callbacks 1 (n_tester_world 2) in
  wf_net n /\ free_observers n /\ tracks n /\
  relations.rtc (sched_step n_tester_callbacks) (n_tester_world 2) w /\
  Forall (fun t => t.2 <> TaskBlocked) (w_tasks w) /\
  forall i o l, observer_of (w_net w) i = Some o ->
    o_locked o = false /\ counter o l = Z.of_nat (count_at (w_net w) i l).
Proof.
  cbv zeta.
  assert (H1 : wf_net (n_tester_registered 2).1) by wf_by_computation.
  assert (H2 : free_observers (n_tester_registered 2).1).
  { intros i o Ho. destruct i as [|[|[|i]]]; vm_compute in Ho; try discriminate.
    injection Ho as <-. split; [reflexivity|discriminate]. }
  assert (H3 : tracks (n_tester_registered 2).1).
  { intros i o l Ho. destruct i as [|[|[|i]]]; vm_compute in Ho; try discriminate.
    injection Ho as <-. unfold counter, count_at, count, queue. simpl.
    repeat case_decide; simpl; try lia. all: exfalso; auto. }
  assert (Hr : relations.rtc (sched_step n_tester_callbacks) (n_tester_world 2)
                 (run_task n_tester_callbacks 1 (n_tester_world 2)))
    by (apply relations.rtc_once; constructor; vm_compute; reflexivity).
  split; [exact H1|]. split; [exact H2|]. split; [exact H3|]. split; [exact Hr|].
  exact (reachable_observers_track n_tester_callbacks _ _ _ _ H1 H2 H3 Hr).
Defined.
